(** * The xv6 console with command history (kernel/console.c)

    A shallow embedding of the console driver: the input ring buffer
    [input], the command history [command_stack] with its cursor
    [command_ptr], the output path [consputc], the interrupt handler
    [consoleintr], the blocking reader [consoleread] and the fatal halt
    [panic].

    Conventions.
    - A C [char] is a [Z] in [-128, 127] (x86 gcc: [char] is signed); an
      [int] is a [Z] in [-2^31, 2^31); a [uint] is a [Z] in [0, 2^32) and
      every [uint] operation is followed by [to_uint].
    - The arrays [input.buf] and [command_stack] are lists updated by index.
    - What the driver sends to the UART and to the CGA screen is collected,
      in order, in the trace [out]. [uartputc] and the rendering done by
      [cgaputc] (cursor, scrolling) are outside this development: a call is
      recorded with its argument and the [history_color] flag it reads.
    - [cons.lock], [acquire]/[release], [iunlock]/[ilock] and [wakeup] are
      not modelled: every operation below is one critical section.
    - A computation either returns ([Done]) or never returns ([Spin]): the
      two [for(;;);] loops of the file. *)

From Stdlib Require Import ZArith Lia Bool String Ascii.
From stdpp Require Import base tactics option list.

Local Open Scope Z_scope.

(** ** Machine integers *)

Definition to_uint (x : Z) : Z := x mod 2 ^ 32.
Definition to_int (x : Z) : Z := (x + 2 ^ 31) mod 2 ^ 32 - 2 ^ 31.
Definition to_char (x : Z) : Z := (x + 128) mod 256 - 128.

(** ** Constants of the source *)

Definition INPUT_BUF : Z := 128.
Definition SAVED_MAX : Z := 3.
Definition BACKSPACE : Z := 0x100.
Definition KEY_UP : Z := 0xE2.
Definition KEY_DN : Z := 0xE3.
(** [C(x)] is [x - '@'] and [S(x)] is [x + '@']; ['@'] is 64. The macro [S]
    is [S_] here, [S] being the successor of [nat]. *)
Definition C (x : Z) : Z := x - 64.
Definition S_ (x : Z) : Z := x + 64.

Definition ch (a : ascii) : Z := Z.of_N (N_of_ascii a).
Definition chars (s : string) : list Z := map ch (list_ascii_of_string s).

Definition NL : Z := 10.   (* '\n' *)
Definition CR : Z := 13.   (* '\r' *)
Definition CTRL_D : Z := C (ch "D").
Definition CTRL_P : Z := C (ch "P").
Definition CTRL_U : Z := C (ch "U").
Definition CTRL_H : Z := C (ch "H").
Definition DEL : Z := 0x7f.

(** ** State *)

(** One call of the output sink. *)
Inductive event : Type :=
| Uart (c : Z)                 (* uartputc(c) *)
| Cga (c : Z) (color : Z).     (* cgaputc(c), with history_color *)

Record console : Type := mkConsole {
  panicked : bool;                 (* static int panicked *)
  cons_locking : bool;             (* cons.locking *)
  intena : bool;                   (* interrupts enabled on this CPU; cli() clears it *)
  input_buf : list Z;              (* input.buf[INPUT_BUF] *)
  input_r : Z;                     (* input.r, uint *)
  input_w : Z;                     (* input.w, uint *)
  input_e : Z;                     (* input.e, uint *)
  command_stack : list (list Z);   (* command_stack[SAVED_MAX][INPUT_BUF] *)
  command_ptr : Z;                 (* int command_ptr = -1 *)
  saved : Z;                       (* int saved = 0 *)
  history_color : Z;               (* int history_color = 0 *)
  out : list event                 (* calls of the output sink, oldest first *)
}.

Definition set_panicked (v : bool) (s : console) : console :=
  mkConsole v (cons_locking s) (intena s) (input_buf s) (input_r s) (input_w s)
    (input_e s) (command_stack s) (command_ptr s) (saved s) (history_color s) (out s).
Definition set_locking (v : bool) (s : console) : console :=
  mkConsole (panicked s) v (intena s) (input_buf s) (input_r s) (input_w s)
    (input_e s) (command_stack s) (command_ptr s) (saved s) (history_color s) (out s).
Definition set_intena (v : bool) (s : console) : console :=
  mkConsole (panicked s) (cons_locking s) v (input_buf s) (input_r s) (input_w s)
    (input_e s) (command_stack s) (command_ptr s) (saved s) (history_color s) (out s).
Definition set_buf (v : list Z) (s : console) : console :=
  mkConsole (panicked s) (cons_locking s) (intena s) v (input_r s) (input_w s)
    (input_e s) (command_stack s) (command_ptr s) (saved s) (history_color s) (out s).
Definition set_r (v : Z) (s : console) : console :=
  mkConsole (panicked s) (cons_locking s) (intena s) (input_buf s) v (input_w s)
    (input_e s) (command_stack s) (command_ptr s) (saved s) (history_color s) (out s).
Definition set_w (v : Z) (s : console) : console :=
  mkConsole (panicked s) (cons_locking s) (intena s) (input_buf s) (input_r s) v
    (input_e s) (command_stack s) (command_ptr s) (saved s) (history_color s) (out s).
Definition set_e (v : Z) (s : console) : console :=
  mkConsole (panicked s) (cons_locking s) (intena s) (input_buf s) (input_r s) (input_w s)
    v (command_stack s) (command_ptr s) (saved s) (history_color s) (out s).
Definition set_stack (v : list (list Z)) (s : console) : console :=
  mkConsole (panicked s) (cons_locking s) (intena s) (input_buf s) (input_r s) (input_w s)
    (input_e s) v (command_ptr s) (saved s) (history_color s) (out s).
Definition set_ptr (v : Z) (s : console) : console :=
  mkConsole (panicked s) (cons_locking s) (intena s) (input_buf s) (input_r s) (input_w s)
    (input_e s) (command_stack s) v (saved s) (history_color s) (out s).
Definition set_saved (v : Z) (s : console) : console :=
  mkConsole (panicked s) (cons_locking s) (intena s) (input_buf s) (input_r s) (input_w s)
    (input_e s) (command_stack s) (command_ptr s) v (history_color s) (out s).
Definition set_color (v : Z) (s : console) : console :=
  mkConsole (panicked s) (cons_locking s) (intena s) (input_buf s) (input_r s) (input_w s)
    (input_e s) (command_stack s) (command_ptr s) (saved s) v (out s).
Definition emit (ev : event) (s : console) : console :=
  mkConsole (panicked s) (cons_locking s) (intena s) (input_buf s) (input_r s) (input_w s)
    (input_e s) (command_stack s) (command_ptr s) (saved s) (history_color s) (out s ++ [ev]).

(** The zero-initialised globals, with [command_ptr = -1]; interrupts are on
    and [consoleinit] has set [cons.locking]. *)
Definition init : console :=
  mkConsole false true true (replicate 128 0) 0 0 0
    (replicate 3 (replicate 128 0)) (-1) 0 0 [].

(** [a[i]] for an array held as a list. An index outside the array is not
    described by this development (the C code would read other memory); it
    reads [0] here. *)
Definition char_at (a : list Z) (i : Z) : Z :=
  if 0 <=? i then default 0 (a !! Z.to_nat i) else 0.

Definition stack_row (st : list (list Z)) (i : Z) : list Z :=
  if 0 <=? i then default [] (st !! Z.to_nat i) else [].

(** ** Computations that may never return *)

Inductive outcome (A : Type) : Type :=
| Done (a : A) (s : console)
| Spin (s : console).
Arguments Done {A} a s.
Arguments Spin {A} s.

Definition M (A : Type) : Type := console -> outcome A.

Definition ret {A} (a : A) : M A := fun s => Done a s.
Definition bind {A B} (m : M A) (k : A -> M B) : M B :=
  fun s => match m s with
           | Done a s' => k a s'
           | Spin s' => Spin s'
           end.
Definition modify (f : console -> console) : M unit := fun s => Done tt (f s).
Definition spin {A} : M A := fun s => Spin s.

Notation "x <- m ;; k" := (bind m (fun x => k))
  (at level 100, m at next level, k at level 200, right associativity, only parsing).
Notation "m >> k" := (bind m (fun _ => k))
  (at level 100, k at level 200, right associativity, only parsing).

(** The state in which a computation ends, or is stuck forever. *)
Definition final {A} (o : outcome A) : console :=
  match o with Done _ s => s | Spin s => s end.

(** ** Output path *)

Definition cli : M unit := modify (set_intena false).
Definition uartputc (c : Z) : M unit := modify (emit (Uart c)).
Definition cgaputc (c : Z) : M unit := fun s => Done tt (emit (Cga c (history_color s)) s).

Definition consputc (c : Z) : M unit := fun s =>
  if panicked s then (cli >> spin) s
  else ((if c =? BACKSPACE
         then uartputc 8 >> uartputc 32 >> uartputc 8
         else uartputc c) >>
        cgaputc c) s.

(** ** Command history *)

(** [command_stack[i][j] = command_stack[i - 1][j]] *)
Definition copy_cell (i j : Z) (st : list (list Z)) : list (list Z) :=
  <[Z.to_nat i := <[Z.to_nat j := char_at (stack_row st (i - 1)) j]> (stack_row st i)]> st.

(** The values [lo, lo+1, .., lo+n-1] of a counting loop. *)
Definition upto (lo : Z) (n : nat) : list Z := map (fun k => lo + Z.of_nat k) (seq 0 n).

(** [for (i = SAVED_MAX - 1; i >= 1; i--) for (j = 0; j < INPUT_BUF; j++) ...] *)
Definition moveCommandsUp : M unit :=
  modify (fun s =>
    set_stack
      (fold_left (fun st i => fold_left (fun st' j => copy_cell i j st') (upto 0 128) st)
                 (rev (upto 1 (Z.to_nat (SAVED_MAX - 1)))) (command_stack s))
      s).

(** [memset(command_stack[0], '\0', INPUT_BUF)] *)
Definition clear_row0 : M unit :=
  modify (fun s => set_stack (<[0%nat := replicate 128 0]> (command_stack s)) s).

(** The loop of [copyCommand]. [ptr] runs from 0 and the loop stops at
    [ptr = INPUT_BUF] at the latest: [k] is [INPUT_BUF - ptr]. [buffer_ptr]
    is an [int]; it is compared with the [uint] [input.e] as a [uint], and
    [buffer_ptr % INPUT_BUF] is the remainder of C ([Z.rem]). *)
Fixpoint copy_loop (k : nat) (ptr buffer_ptr : Z) (s : console) : console :=
  match k with
  | O => s
  | S k' =>
      if to_uint buffer_ptr =? input_e s then s
      else
        let c := char_at (input_buf s) (Z.rem buffer_ptr INPUT_BUF) in
        let st := command_stack s in
        copy_loop k' (ptr + 1) (to_int (buffer_ptr + 1))
          (set_stack
             (<[0%nat := <[Z.to_nat ptr := if c =? NL then 0 else c]> (stack_row st 0)]> st) s)
  end.

Definition copyCommand : M unit :=
  moveCommandsUp >>
  clear_row0 >>
  modify (fun s => copy_loop 128 0 (to_int (input_w s)) s).

(** [input.buf[input.e++ % INPUT_BUF] = c] *)
Definition put_edit (c : Z) : M unit :=
  modify (fun s =>
    set_e (to_uint (input_e s + 1))
      (set_buf (<[Z.to_nat (input_e s mod INPUT_BUF) := to_char c]> (input_buf s)) s)).

(** The loop of [clearCommandLine]. Every pass decrements [input.e], so the
    loop runs at most [input.e - input.w] (as a [uint]) times: [k] counts
    the passes that are left. *)
Fixpoint clear_loop (k : nat) : M unit :=
  fun s =>
    if negb (input_e s =? input_w s)
       && negb (char_at (input_buf s) (to_uint (input_e s - 1) mod INPUT_BUF) =? NL)
    then
      match k with
      | O => Done tt s   (* not reached, see [clear_loop_exit] *)
      | S k' =>
          (modify (fun s => set_e (to_uint (input_e s - 1)) s) >>
           consputc BACKSPACE >>
           clear_loop k') s
      end
    else Done tt s.

Definition clearCommandLine : M unit :=
  fun s => clear_loop (Z.to_nat (to_uint (input_e s - input_w s))) s.

(** The loop of [writeCommand]: [i] runs from 0 to [INPUT_BUF - 1], [k] is
    [INPUT_BUF - i]. *)
Fixpoint write_loop (k : nat) (i : Z) : M unit :=
  match k with
  | O => ret tt
  | S k' =>
      fun s =>
        let c := char_at (stack_row (command_stack s) (command_ptr s)) i in
        if c =? NL then Done tt s
        else (put_edit c >> consputc c >> write_loop k' (i + 1)) s
  end.

Definition writeCommand : M unit :=
  clearCommandLine >>
  modify (set_color 1) >>
  write_loop 128 0 >>
  modify (set_color 0).

Definition moveThroughCommandHistory (upOrDown : Z) : M unit :=
  fun s =>
    if command_ptr s =? -1 then
      if upOrDown =? S_ KEY_UP then
        if saved s >=? 1 then (modify (set_ptr 0) >> writeCommand) s
        else Done tt s
      else Done tt s
    else
      if upOrDown =? S_ KEY_UP then
        if command_ptr s + 1 <? saved s then
          (modify (fun s => set_ptr (command_ptr s + 1) s) >>
           writeCommand >>
           modify (fun s => if command_ptr s =? SAVED_MAX
                            then set_ptr (SAVED_MAX - 1) s else s)) s
        else Done tt s
      else if upOrDown =? S_ KEY_DN then
        if command_ptr s >? 0 then
          (modify (fun s => set_ptr (command_ptr s - 1) s) >> writeCommand) s
        else (clearCommandLine >> modify (set_ptr (-1))) s
      else Done tt s.

(** ** Interrupt handler *)

(** The commit at the end of the [default] case. *)
Definition commit : M unit :=
  fun s =>
    ((if negb (input_e s =? to_uint (input_w s + 1))
      then copyCommand >>
           modify (fun s => if saved s <? SAVED_MAX then set_saved (saved s + 1) s else s)
      else ret tt) >>
     modify (fun s => set_w (input_e s) s)) s.

(** The body of the [switch] of [consoleintr] for one code [c >= 0] that
    [getc] returned: the [handleKey] of the specification. The result is the
    new value of [doprocdump]. *)
Definition handleKey (c : Z) (doprocdump : bool) : M bool :=
  if c =? CTRL_P then ret true
  else if c =? CTRL_U then clearCommandLine >> ret doprocdump
  else if (c =? CTRL_H) || (c =? DEL) then
    fun s =>
      if negb (input_e s =? input_w s) then
        (modify (fun s => set_e (to_uint (input_e s - 1)) s) >>
         consputc BACKSPACE >>
         modify (set_ptr (-1)) >>
         ret doprocdump) s
      else Done doprocdump s
  else if (c =? S_ KEY_UP) || (c =? S_ KEY_DN) then
    moveThroughCommandHistory c >> ret doprocdump
  else
    fun s =>
      if negb (c =? 0) && (to_uint (input_e s - input_r s) <? INPUT_BUF) then
        let c := if c =? CR then NL else c in
        (put_edit c >>
         modify (set_ptr (-1)) >>
         consputc c >>
         (fun s => if (c =? NL) || (c =? CTRL_D)
                      || (input_e s =? to_uint (input_r s + INPUT_BUF))
                   then commit s else Done tt s) >>
         ret doprocdump) s
      else Done doprocdump s.

(** [while((c = getc()) >= 0) switch(c) ...]: [codes] are the values that
    successive calls of [getc] return; the loop ends at the first negative
    one, or when there is none left. The result tells whether [procdump] is
    called after the loop. *)
Fixpoint consoleintr_loop (codes : list Z) (doprocdump : bool) : M bool :=
  match codes with
  | [] => ret doprocdump
  | c :: rest =>
      if c >=? 0 then d <- handleKey c doprocdump ;; consoleintr_loop rest d
      else ret doprocdump
  end.

Definition consoleintr (codes : list Z) : M bool := consoleintr_loop codes false.

(** ** Blocking reader *)

(** How a call of [consoleread] ends, or where it waits. *)
Inductive read_result : Type :=
| RDone (ret : Z) (dst : list Z) (s : console)    (* returned [ret]; [dst] was written *)
| RSleep (n : Z) (dst : list Z) (s : console).    (* in [sleep], with [n] bytes still wanted *)

(** The outer loop [while(n > 0)]; [k] is [n] as a natural number. [killed]
    is [myproc()->killed] as the process sees it in this run. The caller's
    buffer is the list [dst] of the bytes stored so far. *)
Fixpoint read_loop (k : nat) (killed : bool) (target n : Z) (dst : list Z)
    (s : console) : read_result :=
  match k with
  | O => RDone (to_int (target - n)) dst s
  | S k' =>
      if input_r s =? input_w s then
        if killed then RDone (-1) dst s else RSleep n dst s
      else
        let c := char_at (input_buf s) (input_r s mod INPUT_BUF) in
        let s1 := set_r (to_uint (input_r s + 1)) s in
        if c =? CTRL_D then
          RDone (to_int (target - n)) dst
            (if to_uint n <? target then set_r (to_uint (input_r s1 - 1)) s1 else s1)
        else
          if c =? NL then RDone (to_int (target - (n - 1))) (dst ++ [c]) s1
          else read_loop k' killed target (n - 1) (dst ++ [c]) s1
  end.

Definition consoleread (killed : bool) (n : Z) (s : console) : read_result :=
  read_loop (Z.to_nat n) killed (to_uint n) n [] s.

(** A sleeping call that is woken up tests [input.r == input.w] again. *)
Definition consoleread_wakeup (killed : bool) (target n : Z) (dst : list Z)
    (s : console) : read_result :=
  read_loop (Z.to_nat n) killed target n dst s.

Definition read_final (x : read_result) : console :=
  match x with RDone _ _ s => s | RSleep _ _ s => s end.

(** ** Writer *)

(** [for(i = 0; i < n; i++) consputc(buf[i] & 0xff)]; returns [n]. *)
Fixpoint consolewrite_loop (bytes : list Z) : M unit :=
  match bytes with
  | [] => ret tt
  | b :: rest => consputc (Z.land b 0xff) >> consolewrite_loop rest
  end.

Definition consolewrite (bytes : list Z) : M Z :=
  consolewrite_loop bytes >> ret (Z.of_nat (length bytes)).

(** ** Diagnostics: [printint], [cprintf], [panic] *)

Section Diagnostics.

(** What [%s] reads: the characters of the NUL-terminated string stored at
    an address (the terminator left out). *)
Variable cstring_at : Z -> list Z.
(** The value of [lapicid()] and the array that [getcallerpcs] fills. *)
Variable lapicid : Z.
Variable pcs : Z -> Z.

Definition digits : list Z := chars "0123456789abcdef".

(** [do { buf[i++] = digits[x % base]; } while((x /= base) != 0)]: the
    contents of [buf[0..i)]. [buf] has 16 cells; [k] is the number of
    cells left. *)
Fixpoint printint_digits (k : nat) (x base : Z) : list Z :=
  match k with
  | O => []
  | S k' =>
      char_at digits (x mod base) ::
      (if x / base =? 0 then [] else printint_digits k' (x / base) base)
  end.

Fixpoint put_all (l : list Z) : M unit :=
  match l with
  | [] => ret tt
  | c :: rest => consputc c >> put_all rest
  end.

Definition printint (xx base sign : Z) : M unit :=
  let sign := if sign =? 0 then false else xx <? 0 in
  let x := if sign then to_uint (- xx) else to_uint xx in
  let buf := printint_digits 16 x (to_uint base) ++ (if sign then [ch "-"] else []) in
  put_all (rev buf).

(** The loop that prints the string [s] of [%s], up to its terminator. *)
Fixpoint put_cstring (l : list Z) : M unit :=
  match l with
  | [] => ret tt
  | c :: rest => if c =? 0 then ret tt else consputc c >> put_cstring rest
  end.

(** The loop of [cprintf] over a format that is not the null pointer.
    [fmt] holds the characters of the format; [argp] the words that follow
    [fmt] on the caller's stack (a word that is not there reads 0). *)
Fixpoint cprintf_loop (fmt : list Z) (argp : list Z) : M unit :=
  match fmt with
  | [] => ret tt
  | f :: rest =>
      let c := Z.land f 0xff in
      if c =? 0 then ret tt
      else if negb (c =? ch "%") then consputc c >> cprintf_loop rest argp
      else
        match rest with
        | [] => ret tt
        | f' :: rest' =>
            let c := Z.land f' 0xff in
            if c =? 0 then ret tt
            else if c =? ch "d" then
              printint (to_int (hd 0 argp)) 10 1 >> cprintf_loop rest' (tl argp)
            else if (c =? ch "x") || (c =? ch "p") then
              printint (to_int (hd 0 argp)) 16 0 >> cprintf_loop rest' (tl argp)
            else if c =? ch "s" then
              put_cstring (if hd 0 argp =? 0 then chars "(null)"
                           else cstring_at (hd 0 argp)) >>
              cprintf_loop rest' (tl argp)
            else if c =? ch "%" then consputc (ch "%") >> cprintf_loop rest' argp
            else consputc (ch "%") >> consputc c >> cprintf_loop rest' argp
        end
  end.

(** [panic] around the printing of its message. *)
Definition panic_with (print_message : M unit) : M unit :=
  cli >>
  modify (set_locking false) >>
  cprintf_loop (chars "lapicid %d: panic: ") [lapicid] >>
  print_message >>
  cprintf_loop [NL] [] >>
  fold_right (fun i k => cprintf_loop (chars " %p") [pcs i] >> k) (ret tt) (upto 0 10) >>
  modify (set_panicked true) >>
  spin.

(** [cprintf(fmt, ...)]; [None] is the null pointer, for which [cprintf]
    calls [panic("null fmt")]. *)
Definition cprintf (fmt : option (list Z)) (argp : list Z) : M unit :=
  match fmt with
  | None => panic_with (cprintf_loop (chars "null fmt") [])
  | Some f => cprintf_loop f argp
  end.

(** [panic(s)]; [stack] are the words that [cprintf(s)] finds after [s]. *)
Definition panic (s : option (list Z)) (stack : list Z) : M unit :=
  panic_with (cprintf s stack).

End Diagnostics.

(** ** The CGA screen *)

(** [cgaputc] on the hardware it drives: the text memory [crt], 25 rows of
    80 cells of 16 bits, and the cursor location registers 14 and 15 of the
    CRT controller, read with [inb] and written with [outb] as bytes. The
    handler above records the calls of [cgaputc]; this is what one call does
    to the screen. [None]: the call ends in [panic("pos under/overflow")].
    A store outside the 25 rows is not described (it changes nothing
    here). *)
Module Screen.

Record screen : Type := mkScreen {
  crt : list Z;     (* crt[0 .. 25*80) *)
  reg14 : Z;        (* cursor location, high byte *)
  reg15 : Z         (* cursor location, low byte *)
}.

(** [pos = inb(CRTPORT+1) << 8; pos |= inb(CRTPORT+1)] *)
Definition cursor (v : screen) : Z := Z.lor (Z.shiftl (reg14 v) 8) (reg15 v).

(** [memmove(crt, crt+80, sizeof(crt[0])*23*80)] *)
Definition scroll_rows (m : list Z) : list Z :=
  take (23 * 80) (drop 80 m) ++ drop (23 * 80) m.

(** [memset(crt+pos, 0, sizeof(crt[0])*(24*80 - pos))] *)
Definition clear_from (pos : Z) (m : list Z) : list Z :=
  take (Z.to_nat pos) m ++ replicate (Z.to_nat (24 * 80 - pos)) 0
  ++ drop (Z.to_nat pos + Z.to_nat (24 * 80 - pos)) m.

Definition cgaputc (c : Z) (history_color : Z) (v : screen) : option screen :=
  let code_color := if history_color =? 0 then 0x0700 else 0x0200 in
  let pos := cursor v in
  let '(pos, m) :=
    if c =? NL then (pos + (80 - Z.rem pos 80), crt v)
    else if c =? BACKSPACE then ((if pos >? 0 then pos - 1 else pos), crt v)
    else (pos + 1, <[Z.to_nat pos := Z.lor (Z.land c 0xff) code_color]> (crt v)) in
  if (pos <? 0) || (pos >? 25 * 80) then None
  else
    let '(pos, m) :=
      if Z.quot pos 80 >=? 24
      then (pos - 80, clear_from (pos - 80) (scroll_rows m))
      else (pos, m) in
    Some {| crt := <[Z.to_nat pos := Z.lor 32 0x0700]> m;
            reg14 := Z.land (Z.shiftr pos 8) 0xff;
            reg15 := Z.land pos 0xff |}.

(** The screen after the calls of [cgaputc] in a trace of the driver. *)
Fixpoint render (evs : list event) (v : screen) : option screen :=
  match evs with
  | [] => Some v
  | Uart _ :: rest => render rest v
  | Cga c color :: rest =>
      match cgaputc c color v with
      | Some v' => render rest v'
      | None => None
      end
  end.

(** The screen memory has its 25 rows and the cursor is in the first 24. *)
Definition valid (v : screen) : Prop :=
  length (crt v) = 2000%nat /\ 0 <= cursor v < 24 * 80.

End Screen.

(** ** Vocabulary of the properties *)

(** The codes that take the [default] case of the [switch]. *)
Definition default_key (c : Z) : bool :=
  negb ((c =? CTRL_P) || (c =? CTRL_U) || (c =? CTRL_H) || (c =? DEL)
        || (c =? S_ KEY_UP) || (c =? S_ KEY_DN)).

(** [edit - read], [edit - committed-write] and [committed-write - read], as
    the [uint] differences the code computes. *)
Definition pending (s : console) : Z := to_uint (input_e s - input_r s).
Definition uncommitted (s : console) : Z := to_uint (input_e s - input_w s).
Definition unread (s : console) : Z := to_uint (input_w s - input_r s).

(** The three cursors are [uint]s and the arrays have their declared sizes. *)
Definition well_formed (s : console) : Prop :=
  0 <= input_r s < 2 ^ 32 /\ 0 <= input_w s < 2 ^ 32 /\ 0 <= input_e s < 2 ^ 32 /\
  length (input_buf s) = 128%nat /\
  length (command_stack s) = 3%nat /\
  Forall (fun row => length row = 128%nat) (command_stack s).

(** The domain of the history cursor: [-1], or an index of a valid entry;
    at most [SAVED_MAX] entries are valid. *)
Definition nav_dom (s : console) : Prop :=
  (command_ptr s = -1 \/ 0 <= command_ptr s < saved s) /\ 0 <= saved s <= SAVED_MAX.

(** What an operation leaves alone when all it does is edit the line and
    echo: the flag, the cursors [r] and [w], the history and its cursor; and
    it sends nothing to the output sink once the flag is set. *)
Definition frame (s s' : console) : Prop :=
  panicked s' = panicked s /\
  cons_locking s' = cons_locking s /\
  input_r s' = input_r s /\
  input_w s' = input_w s /\
  command_stack s' = command_stack s /\
  command_ptr s' = command_ptr s /\
  saved s' = saved s /\
  (panicked s = true -> out s' = out s).

(** Once the flag is set it stays set and the output sink gets nothing. *)
Definition latched (s s' : console) : Prop :=
  panicked s = true -> panicked s' = true /\ out s' = out s.

(** The flag is left alone. *)
Definition flag_same (s s' : console) : Prop := panicked s' = panicked s.

(** A computation that stops returning has the flag set. *)
Definition spin_flagged {A} (m : M A) : Prop :=
  forall s, match m s with Done _ _ => True | Spin s' => panicked s' = true end.

(** Unless the flag is set, a computation returns. *)
Definition returns {A} (m : M A) : Prop :=
  forall s, panicked s = false -> exists a s', m s = Done a s' /\ panicked s' = false.

(** The test of the loop of [clearCommandLine]. *)
Definition clear_test (s : console) : bool :=
  negb (input_e s =? input_w s)
  && negb (char_at (input_buf s) (to_uint (input_e s - 1) mod INPUT_BUF) =? NL).

(** The history cursor is left alone. *)
Definition ptr_same (s s' : console) : Prop := command_ptr s' = command_ptr s.

(** The cursors [input.e] and [input.r] are left alone. *)
Definition er_same (s s' : console) : Prop :=
  input_e s' = input_e s /\ input_r s' = input_r s.

(** The history cursor and the number of valid entries are left alone. *)
Definition nav_same (s s' : console) : Prop :=
  command_ptr s' = command_ptr s /\ saved s' = saved s.

(** The three cursors are [uint]s, and stay so. *)
Definition cursors_ok (s : console) : Prop :=
  0 <= input_r s < 2 ^ 32 /\ 0 <= input_w s < 2 ^ 32 /\ 0 <= input_e s < 2 ^ 32.

Definition cursors_step (s s' : console) : Prop := cursors_ok s -> cursors_ok s'.

(** The domain of the history cursor is kept. *)
Definition nav_step (s s' : console) : Prop := nav_dom s -> nav_dom s'.

(** The entry points of the driver. *)
Inductive call : Type :=
| Consputc (c : Z)
| Consoleintr (codes : list Z)
| Consoleread (killed : bool) (n : Z)
| Consolewrite (bytes : list Z)
| Cprintf (cstring_at : Z -> list Z) (lapicid : Z) (pcs : Z -> Z)
    (fmt : option (list Z)) (argp : list Z)
| Panic (cstring_at : Z -> list Z) (lapicid : Z) (pcs : Z -> Z)
    (msg : option (list Z)) (stack : list Z).

(** The calls that get to [panic]: [panic] itself and [cprintf] of the null
    pointer. *)
Definition raises (op : call) : bool :=
  match op with
  | Panic _ _ _ _ _ => true
  | Cprintf _ _ _ None _ => true
  | _ => false
  end.

(** The state a call leaves behind: on return, asleep, or spinning. *)
Definition after (op : call) (s : console) : console :=
  match op with
  | Consputc c => final (consputc c s)
  | Consoleintr codes => final (consoleintr codes s)
  | Consoleread killed n => read_final (consoleread killed n s)
  | Consolewrite bytes => final (consolewrite bytes s)
  | Cprintf m l p fmt argp => final (cprintf m l p fmt argp s)
  | Panic m l p msg stack => final (panic m l p msg stack s)
  end.

(** [later s s']: the console gets from [s] to [s'] by calls of the driver. *)
Inductive later (s : console) : console -> Prop :=
| later_now : later s s
| later_call op s' : later s s' -> later s (after op s').

(** The states the console goes through from [init]. *)
Definition reachable (s : console) : Prop := later init s.

(** A relation between the state before and the state after holds for a
    computation, whether it returns or not. *)
Definition keeps (R : console -> console -> Prop) {A} (m : M A) : Prop :=
  forall s, R s (final (m s)).

(** The committed bytes that no reader has taken: [input.buf] from [r] up to
    [w]; and the line being edited: [input.buf] from [w] up to [e]. *)
Definition slice (buf : list Z) (from : Z) (len : Z) : list Z :=
  map (fun i => char_at buf ((from + i) mod INPUT_BUF)) (upto 0 (Z.to_nat len)).

Definition committed (s : console) : list Z :=
  slice (input_buf s) (input_r s) (unread s).
Definition edit_line (s : console) : list Z :=
  slice (input_buf s) (input_w s) (uncommitted s).

(** A read as the specification words it, over the stream of committed
    bytes: stop when [count] bytes are produced, after a newline (part of
    the result), or at the end-of-file code (not part of the result, and
    taken from the stream only by a read that has produced nothing). The
    result: the bytes produced, the number of bytes taken from the stream,
    and whether the read is over ([false]: the stream ran dry first and the
    read has to wait). *)
Fixpoint take_line (count : nat) (first : bool) (stream : list Z) : list Z * Z * bool :=
  match count with
  | O => ([], 0, true)
  | S count' =>
      match stream with
      | [] => ([], 0, false)
      | c :: rest =>
          if c =? CTRL_D then ([], if first then 1 else 0, true)
          else if c =? NL then ([c], 1, true)
          else
            let '(bytes, used, over) := take_line count' false rest in
            (c :: bytes, used + 1, over)
      end
  end.

(** What [consoleread] does when the specification's read gives
    [(bytes, used, over)]. *)
Definition read_outcome (killed : bool) (n : Z) (s : console)
    (x : list Z * Z * bool) : read_result :=
  let '(bytes, used, over) := x in
  let s' := set_r (to_uint (input_r s + used)) s in
  if over then RDone (Z.of_nat (length bytes)) bytes s'
  else if killed then RDone (-1) bytes s'
  else RSleep (n - Z.of_nat (length bytes)) bytes s'.

(** The same for a call that takes up its loop again after [sleep]: it
    wants [target] bytes in all and has stored [taken] bytes, which are the
    first of the stream [x] was computed on. [bytes] is all the call has
    stored, [used - taken] what this pass takes from the buffer. *)
Definition resumed_outcome (killed : bool) (target taken : Z) (s : console)
    (x : list Z * Z * bool) : read_result :=
  let '(bytes, used, over) := x in
  let s' := set_r (to_uint (input_r s + (used - taken))) s in
  if over then RDone (Z.of_nat (length bytes)) bytes s'
  else if killed then RDone (-1) bytes s'
  else RSleep (target - Z.of_nat (length bytes)) bytes s'.

(** A byte that does not end a read. *)
Definition goes_on (c : Z) : Prop := c <> NL /\ c <> CTRL_D.

(** The byte of a line as the history keeps it. *)
Definition nul_of_newline (c : Z) : Z := if c =? NL then 0 else c.

(** A line as an entry of the history: newlines become NUL, and the entry is
    filled with NUL up to [INPUT_BUF] bytes. *)
Definition history_row (line : list Z) : list Z :=
  take 128 (map nul_of_newline line ++ replicate 128 0).

(** The code of a key after [consoleintr] has turned a carriage return into
    a newline. *)
Definition cooked (c : Z) : Z := if c =? CR then NL else c.

(** What a commit by the byte [c] stores of the line typed before [c]: the
    line alone when [c] is the newline, the line and [c] otherwise. *)
Definition stored_line (line : list Z) (c : Z) : list Z :=
  if c =? NL then line else line ++ [to_char c].

(** A new entry at index 0; the others move down and the last one is lost. *)
Definition push_row (row : list Z) (st : list (list Z)) : list (list Z) :=
  [row; stack_row st 0; stack_row st 1].

(** The end of the [default] case, after the byte is stored: the echo and
    the commit. *)
Definition echo_and_commit (c : Z) (d : bool) : M bool :=
  consputc c >>
  (fun s => if (c =? NL) || (c =? CTRL_D) || (input_e s =? to_uint (input_r s + INPUT_BUF))
            then commit s else Done tt s) >>
  ret d.

(** Where [cgaputc] leaves the cursor: at the start of the next row after a
    newline, one cell back (not before cell 0) after a backspace, one cell
    on after another character; a cursor that leaves row 23 comes back to
    its start, the screen having scrolled. *)
Definition next_cursor (c pos : Z) : Z :=
  if c =? NL then Z.min (80 * (pos / 80 + 1)) (23 * 80)
  else if c =? BACKSPACE then Z.max 0 (pos - 1)
  else if pos =? 24 * 80 - 1 then 23 * 80 else pos + 1.

(** The 16-bit cell of a blank: a space with the attribute [0x0700]; and the
    cell of a character, green ([0x0200]) while [history_color] is set. *)
Definition blank_cell : Z := Z.lor 32 0x0700.
Definition glyph (c history_color : Z) : Z :=
  Z.lor (Z.land c 0xff) (if history_color =? 0 then 0x0700 else 0x0200).

(** The screen memory after [cgaputc] has stored the character: newline and
    backspace store nothing. *)
Definition stored (c history_color : Z) (v : Screen.screen) : list Z :=
  if (c =? NL) || (c =? BACKSPACE) then Screen.crt v
  else <[Z.to_nat (Screen.cursor v) := glyph c history_color]> (Screen.crt v).

(** Whether [cgaputc] scrolls: the cursor leaves row 23. *)
Definition scrolls (c pos : Z) : bool :=
  if c =? NL then 23 * 80 <=? pos
  else if c =? BACKSPACE then false
  else pos =? 24 * 80 - 1.

(** ** Vocabulary of the output *)

(** The state with another trace. *)
Definition with_out (o : list event) (s : console) : console :=
  mkConsole (panicked s) (cons_locking s) (intena s) (input_buf s) (input_r s) (input_w s)
    (input_e s) (command_stack s) (command_ptr s) (saved s) (history_color s) o.

(** What one call of [consputc] sends: the character to the UART, a
    backspace as backspace, space, backspace, and then the character to
    [cgaputc]. *)
Definition echo (color c : Z) : list event :=
  (if c =? BACKSPACE then [Uart 8; Uart 32; Uart 8] else [Uart c]) ++ [Cga c color].

Definition echo_all (color : Z) (text : list Z) : list event :=
  concat (map (echo color) text).

(** A computation that, unless the flag is set, returns after it has sent
    [text] to [consputc] and done nothing else. *)
Definition sends (m : M unit) (text : list Z) : Prop :=
  forall s, panicked s = false ->
            m s = Done tt (with_out (out s ++ echo_all (history_color s) text) s).

(** The line editor's part of the state is left alone: the buffer, its
    cursors, the history and its cursor. *)
Definition editor_same (s s' : console) : Prop :=
  input_buf s' = input_buf s /\ input_r s' = input_r s /\ input_w s' = input_w s /\
  input_e s' = input_e s /\ command_stack s' = command_stack s /\
  command_ptr s' = command_ptr s /\ saved s' = saved s /\
  history_color s' = history_color s.

(** The calls that only print. *)
Definition prints_only (op : call) : bool :=
  match op with
  | Consputc _ | Consolewrite _ | Cprintf _ _ _ _ _ | Panic _ _ _ _ _ => true
  | _ => false
  end.

(** The characters [printint] passes to [consputc], first to last. *)
Definition printint_text (xx base sign : Z) : list Z :=
  let sign := if sign =? 0 then false else xx <? 0 in
  let x := if sign then to_uint (- xx) else to_uint xx in
  rev (printint_digits 16 x (to_uint base) ++ (if sign then [ch "-"] else [])).




(** A byte of a format that [cprintf] prints as it is: not [%], and not the
    terminator. *)
Definition plain_byte (f : Z) : Prop :=
  Z.land f 0xff <> ch "%" /\ Z.land f 0xff <> 0.

(** What [panic] prints for the message [msg]: the header with the number of
    the local APIC, the message, a newline, and the ten program counters in
    hexadecimal, a space before each. *)
Definition panic_text (lapicid : Z) (pcs : Z -> Z) (msg : list Z) : list Z :=
  chars "lapicid " ++ printint_text (to_int lapicid) 10 1 ++ chars ": panic: " ++
  map (fun f => Z.land f 0xff) msg ++ [NL] ++
  concat (map (fun i => ch " " :: printint_text (to_int (pcs i)) 16 0) (upto 0 10)).

(** The codes that [consoleintr] reads: those before the first negative one. *)
Fixpoint processed (codes : list Z) : list Z :=
  match codes with
  | [] => []
  | c :: rest => if c >=? 0 then c :: processed rest else []
  end.

(** The result of a computation with [doprocdump] set if [d] is. *)
Definition or_flag (d : bool) (o : outcome bool) : outcome bool :=
  match o with
  | Done a s => Done (a || d) s
  | Spin s => Spin s
  end.

(** A printable ASCII character: from the space to the tilde. *)
Definition printable (c : Z) : Prop := 32 <= c < 127.

(** The cursors are in ring order: [input.r], then [input.w], then
    [input.e], with at most [INPUT_BUF] bytes from [input.r] to [input.e]. *)
Definition ordered (s : console) : Prop :=
  unread s + uncommitted s = pending s /\ pending s <= INPUT_BUF.

(** Whether the byte [c], accepted in the state [s], commits the line: it is
    the newline or the end-of-file code, or it fills the buffer. *)
Definition commits (c : Z) (s : console) : bool :=
  (c =? NL) || (c =? CTRL_D) || (pending s + 1 =? INPUT_BUF).

(** Whether [consoleintr] calls [procdump] when it has read [codes]. *)
Definition asks_procdump (codes : list Z) : bool :=
  existsb (fun c => c =? CTRL_P) (processed codes).

(** The state after [input.e--; consputc(BACKSPACE)]. *)
Definition erased_one (s : console) : console :=
  with_out (out s ++ echo (history_color s) BACKSPACE) (set_e (to_uint (input_e s - 1)) s).

(** The bytes a call of [consoleread] has stored in the caller's buffer. *)
Definition read_bytes (x : read_result) : list Z :=
  match x with RDone _ dst _ => dst | RSleep _ dst _ => dst end.

(** The characters of a string up to its terminator. *)
Fixpoint until_nul (l : list Z) : list Z :=
  match l with
  | [] => []
  | c :: rest => if c =? 0 then [] else c :: until_nul rest
  end.

(** The conversions of [cprintf] that take an argument, and what they print
    for the argument [a]: [%d] the signed decimal numeral, [%x] and [%p] the
    hexadecimal one, [%s] the string at the address [a], or [(null)]. *)
Definition takes_argument (c : Z) : bool :=
  (c =? ch "d") || (c =? ch "x") || (c =? ch "p") || (c =? ch "s").

Definition conversion_text (cstring_at : Z -> list Z) (c a : Z) : list Z :=
  if c =? ch "d" then printint_text (to_int a) 10 1
  else if (c =? ch "x") || (c =? ch "p") then printint_text (to_int a) 16 0
  else until_nul (if a =? 0 then chars "(null)" else cstring_at a).

(** ** States of the examples *)

(** 128 times the key [a], from [init]: the buffer is full and the line was
    committed without a terminator. *)
Definition full_line : console := after (Consoleintr (replicate 128 (ch "a"))) init.

(** The keys [h], [i] and Ctrl-D: the line is committed by the end-of-file
    code. *)
Definition hi_eof : console := after (Consoleintr [ch "h"; ch "i"; CTRL_D]) init.

(** A line of 126 times [a] and a newline, committed and not read: one
    byte is free. Then the key [x] fills the buffer, which commits the line
    [x]. *)
Definition one_byte_free : console :=
  after (Consoleintr (replicate 126 (ch "a") ++ [NL])) init.
Definition line_x_full : console := after (Consoleintr [ch "x"]) one_byte_free.

(** The line [a], committed by a newline and not read yet. *)
Definition line_a : console := after (Consoleintr [ch "a"; NL]) init.

(** The line [a], committed and read; then "up" recalls it. *)
Definition line_a_read : console := after (Consoleread false 10) line_a.
Definition browsing_a : console := after (Consoleintr [S_ KEY_UP]) line_a_read.

(** The echo of a recalled byte: [consputc] while [history_color] is 1. *)
Definition recall_echo (c : Z) : list event := [Uart c; Cga c 1].

(** ** The monad *)

Lemma final_bind {A B} (m : M A) (k : A -> M B) (s : console) :
  final (bind m k s) =
  match m s with
  | Done a s' => final (k a s')
  | Spin s' => s'
  end.
Proof. unfold bind. destruct (m s); reflexivity. Qed.

Lemma bind_Done {A B} (m : M A) (k : A -> M B) (s s' : console) (a : A) :
  m s = Done a s' -> bind m k s = k a s'.
Proof. unfold bind. intros ->. reflexivity. Qed.

(** A relation between the state before and the state after that is kept by
    sequencing. *)
Section Preserve.

Variable R : console -> console -> Prop.
Hypothesis R_refl : forall s, R s s.
Hypothesis R_trans : forall a b c, R a b -> R b c -> R a c.

Local Abbreviation pres := (keeps R).

Lemma pres_ret {A} (a : A) : pres (ret a).
Proof. intros s. apply R_refl. Qed.

Lemma pres_spin {A} : pres (@spin A).
Proof. intros s. apply R_refl. Qed.

Lemma pres_modify (f : console -> console) :
  (forall s, R s (f s)) -> pres (modify f).
Proof. intros H s. apply H. Qed.

Lemma pres_bind {A B} (m : M A) (k : A -> M B) :
  pres m -> (forall a, pres (k a)) -> pres (bind m k).
Proof.
  intros Hm Hk s. rewrite final_bind.
  specialize (Hm s). destruct (m s) as [a s'|s']; simpl in Hm.
  - eapply R_trans; [exact Hm | apply Hk].
  - exact Hm.
Qed.

(** The line-editing primitives. *)
Hypothesis R_consputc : forall c, pres (consputc c).
Hypothesis R_e : forall v s, R s (set_e (to_uint v) s).
Hypothesis R_buf : forall v s, R s (set_buf v s).
Hypothesis R_color : forall v s, R s (set_color v s).

Lemma pres_put_edit c : pres (put_edit c).
Proof.
  apply pres_modify. intros s.
  eapply R_trans; [apply R_buf | apply R_e].
Qed.

Lemma pres_clear_loop k : pres (clear_loop k).
Proof.
  induction k as [|k IH]; intros s; simpl.
  - destruct (_ && _); apply R_refl.
  - destruct (_ && _); [|apply R_refl].
    apply (pres_bind (modify (fun s => set_e (to_uint (input_e s - 1)) s))).
    + apply pres_modify. intros; apply R_e.
    + intros _. apply pres_bind; [apply R_consputc | intros _; exact IH].
Qed.

Lemma pres_clearCommandLine : pres clearCommandLine.
Proof. intros s. apply pres_clear_loop. Qed.

Lemma pres_write_loop k i : pres (write_loop k i).
Proof.
  revert i. induction k as [|k IH]; intros i s; simpl.
  - apply R_refl.
  - destruct (_ =? NL); [apply R_refl|].
    apply (pres_bind (put_edit _)); [apply pres_put_edit|].
    intros _. apply pres_bind; [apply R_consputc | intros _; apply IH].
Qed.

Lemma pres_writeCommand : pres writeCommand.
Proof.
  unfold writeCommand.
  apply pres_bind; [apply pres_clearCommandLine | intros _].
  apply pres_bind; [apply pres_modify; intros; apply R_color | intros _].
  apply pres_bind; [apply pres_write_loop | intros _].
  apply pres_modify; intros; apply R_color.
Qed.

(** The history, its cursor and the commit. *)
Hypothesis R_stack : forall v s, R s (set_stack v s).
Hypothesis R_ptr : forall v s, R s (set_ptr v s).

Lemma pres_copyCommand : pres copyCommand.
Proof.
  unfold copyCommand, moveCommandsUp, clear_row0.
  apply pres_bind; [apply pres_modify; intros; apply R_stack | intros _].
  apply pres_bind; [apply pres_modify; intros; apply R_stack | intros _].
  apply pres_modify. intros s.
  generalize (to_int (input_w s)) 0. generalize 128%nat.
  intros k. revert s. induction k as [|k IH]; intros s b p; simpl.
  - apply R_refl.
  - destruct (_ =? _); [apply R_refl|].
    eapply R_trans; [|apply IH]. apply R_stack.
Qed.

Lemma pres_moveThroughCommandHistory c : pres (moveThroughCommandHistory c).
Proof.
  intros s. unfold moveThroughCommandHistory.
  repeat match goal with
         | |- context [if ?b then _ else _] => destruct b
         end;
    try apply R_refl;
    repeat first
      [ apply pres_writeCommand
      | apply pres_clearCommandLine
      | apply pres_bind; [|intros _]
      | apply pres_modify; intros s'; try apply R_ptr ].
  destruct (_ =? _); [apply R_ptr | apply R_refl].
Qed.

(** The handler, given what it does to the history cursor. *)
Hypothesis R_move : forall c, pres (moveThroughCommandHistory c).
Hypothesis R_ptr_reset : forall s, R s (set_ptr (-1) s).
Hypothesis R_saved_inc : forall s, saved s < SAVED_MAX -> R s (set_saved (saved s + 1) s).
Hypothesis R_w : forall s, R s (set_w (input_e s) s).

Lemma pres_commit : pres commit.
Proof.
  intros s. unfold commit.
  apply pres_bind; [|intros _; apply pres_modify; intros; apply R_w].
  destruct (negb _); [|apply pres_ret].
  apply pres_bind; [apply pres_copyCommand | intros _].
  apply pres_modify. intros s'. destruct (saved s' <? SAVED_MAX) eqn:E.
  - apply R_saved_inc. apply Z.ltb_lt, E.
  - apply R_refl.
Qed.

Lemma pres_handleKey c d : pres (handleKey c d).
Proof.
  unfold handleKey.
  repeat match goal with
         | |- keeps R (if ?b then _ else _) => destruct b
         end.
  - apply pres_ret.
  - apply pres_bind; [apply pres_clearCommandLine | intros _; apply pres_ret].
  - intros s. destruct (negb _); [|apply R_refl].
    apply (pres_bind (modify _)); [apply pres_modify; intros; apply R_e | intros _].
    apply pres_bind; [apply R_consputc | intros _].
    apply pres_bind; [apply pres_modify; intros; apply R_ptr_reset | intros _].
    apply pres_ret.
  - apply pres_bind; [apply R_move | intros _; apply pres_ret].
  - intros s. destruct (_ && _); [|apply R_refl].
    apply (pres_bind (put_edit _)); [apply pres_put_edit | intros _].
    apply pres_bind; [apply pres_modify; intros; apply R_ptr_reset | intros _].
    apply pres_bind; [apply R_consputc | intros _].
    apply pres_bind; [|intros _; apply pres_ret].
    intros s'. destruct (_ || _); [apply pres_commit | apply R_refl].
Qed.

Lemma pres_consoleintr_loop codes d : pres (consoleintr_loop codes d).
Proof.
  revert d. induction codes as [|c rest IH]; intros d; simpl.
  - apply pres_ret.
  - destruct (c >=? 0); [|apply pres_ret].
    apply pres_bind; [apply pres_handleKey | intros d'; apply IH].
Qed.

End Preserve.

Section PreserveDiagnostics.

Variable R : console -> console -> Prop.
Hypothesis R_refl : forall s, R s s.
Hypothesis R_trans : forall a b c, R a b -> R b c -> R a c.
Hypothesis R_consputc : forall c, keeps R (consputc c).
Hypothesis R_intena : forall v s, R s (set_intena v s).
Hypothesis R_locking : forall v s, R s (set_locking v s).
Hypothesis R_panicked : forall s, R s (set_panicked true s).

Variable cstring_at : Z -> list Z.
Variable lapicid : Z.
Variable pcs : Z -> Z.

Local Abbreviation pres := (keeps R).

Lemma pres_put_all l : pres (put_all l).
Proof.
  induction l as [|c l IH]; simpl.
  - apply pres_ret; auto.
  - apply pres_bind; auto.
Qed.

Lemma pres_printint xx base sign : pres (printint xx base sign).
Proof. apply pres_put_all. Qed.

Lemma pres_put_cstring l : pres (put_cstring l).
Proof.
  induction l as [|c l IH]; simpl.
  - apply pres_ret; auto.
  - destruct (c =? 0); [apply pres_ret; auto | apply pres_bind; auto].
Qed.

Lemma pres_cprintf_loop fmt argp : pres (cprintf_loop cstring_at fmt argp).
Proof.
  remember (length fmt) as n eqn:Hn.
  assert (Hle : (length fmt <= n)%nat) by lia. clear Hn.
  revert fmt argp Hle.
  induction n as [|n IH]; intros [|f rest] argp Hle; simpl in *;
    try (apply pres_ret; auto; fail); try lia.
  destruct (_ =? 0); [apply pres_ret; auto|].
  destruct (negb _).
  { apply pres_bind; auto. intros _. apply IH. lia. }
  destruct rest as [|f' rest']; [apply pres_ret; auto|].
  assert (Hrec : forall a, pres (cprintf_loop cstring_at rest' a))
    by (intros a; apply IH; simpl in Hle; lia).
  repeat match goal with
         | |- keeps R (if ?b then _ else _) => destruct b
         end;
    repeat first
      [ apply pres_ret; exact R_refl
      | apply pres_printint
      | apply pres_put_cstring
      | apply Hrec
      | apply R_consputc
      | apply pres_bind; [exact R_trans | | intros _] ].
Qed.

Lemma pres_panic_with msg : pres msg -> pres (panic_with cstring_at lapicid pcs msg).
Proof.
  intros Hmsg. unfold panic_with, cli.
  apply pres_bind; [auto | apply pres_modify; auto | intros _].
  apply pres_bind; [auto | apply pres_modify; auto | intros _].
  apply pres_bind; [auto | apply pres_cprintf_loop | intros _].
  apply pres_bind; [auto | exact Hmsg | intros _].
  apply pres_bind; [auto | apply pres_cprintf_loop | intros _].
  apply pres_bind; [exact R_trans | | intros _].
  - induction (upto 0 10) as [|i l IH]; cbn [fold_right].
    + apply pres_ret; auto.
    + apply pres_bind; [exact R_trans | apply pres_cprintf_loop | intros _; exact IH].
  - apply pres_bind; [exact R_trans | apply pres_modify; auto | intros _].
    apply pres_spin; auto.
Qed.

Lemma pres_cprintf fmt argp : pres (cprintf cstring_at lapicid pcs fmt argp).
Proof.
  destruct fmt as [f|]; unfold cprintf.
  - apply pres_cprintf_loop.
  - apply pres_panic_with, pres_cprintf_loop.
Qed.

Lemma pres_panic msg stack : pres (panic cstring_at lapicid pcs msg stack).
Proof. apply pres_panic_with, pres_cprintf. Qed.

End PreserveDiagnostics.

(** ** The relations *)

Lemma frame_refl s : frame s s.
Proof. unfold frame; tauto. Qed.

Lemma frame_trans a b c : frame a b -> frame b c -> frame a c.
Proof.
  unfold frame. intros (?&?&?&?&?&?&?&Ho) (?&?&?&?&?&?&?&Ho').
  repeat split; try congruence.
  intros Hp. rewrite Ho', Ho; congruence.
Qed.

Lemma latched_refl s : latched s s.
Proof. unfold latched; tauto. Qed.

Lemma latched_trans a b c : latched a b -> latched b c -> latched a c.
Proof.
  unfold latched. intros H1 H2 Hp.
  destruct (H1 Hp) as [Hb Ho]. destruct (H2 Hb) as [Hc Ho'].
  split; congruence.
Qed.

Lemma flag_same_refl s : flag_same s s.
Proof. reflexivity. Qed.

Lemma flag_same_trans a b c : flag_same a b -> flag_same b c -> flag_same a c.
Proof. unfold flag_same. congruence. Qed.

Lemma frame_flag_same s s' : frame s s' -> flag_same s s'.
Proof. unfold frame, flag_same. tauto. Qed.

Lemma nav_same_refl s : nav_same s s.
Proof. unfold nav_same; tauto. Qed.

Lemma nav_same_trans a b c : nav_same a b -> nav_same b c -> nav_same a c.
Proof. unfold nav_same. intros [] []. split; congruence. Qed.

Lemma nav_step_refl s : nav_step s s.
Proof. unfold nav_step; tauto. Qed.

Lemma nav_step_trans a b c : nav_step a b -> nav_step b c -> nav_step a c.
Proof. unfold nav_step. tauto. Qed.

Lemma to_uint_range x : 0 <= to_uint x < 2 ^ 32.
Proof. unfold to_uint. apply Z.mod_pos_bound. lia. Qed.

Lemma to_uint_id x : 0 <= x < 2 ^ 32 -> to_uint x = x.
Proof. unfold to_uint. intros H. apply Z.mod_small. exact H. Qed.

Lemma cursors_step_refl s : cursors_step s s.
Proof. unfold cursors_step; tauto. Qed.

Lemma cursors_step_trans a b c : cursors_step a b -> cursors_step b c -> cursors_step a c.
Proof. unfold cursors_step. tauto. Qed.

Lemma nav_same_step s s' : nav_same s s' -> nav_step s s'.
Proof. unfold nav_same, nav_step, nav_dom. intros [-> ->]. tauto. Qed.

Lemma frame_nav_same s s' : frame s s' -> nav_same s s'.
Proof. unfold frame, nav_same. tauto. Qed.

Lemma frame_latched s s' : frame s s' -> latched s s'.
Proof. unfold frame, latched. intros (Hp&_&_&_&_&_&_&Ho) H. split; [congruence | auto]. Qed.

(** ** The output path *)

Lemma consputc_panicked c s :
  panicked s = true -> consputc c s = Spin (set_intena false s).
Proof. unfold consputc. intros ->. reflexivity. Qed.

Lemma consputc_running c s :
  panicked s = false ->
  consputc c s =
  Done tt (emit (Cga c (history_color s))
             (if c =? BACKSPACE
              then emit (Uart 8) (emit (Uart 32) (emit (Uart 8) s))
              else emit (Uart c) s)).
Proof. unfold consputc. intros ->. destruct (c =? BACKSPACE); reflexivity. Qed.

Lemma consputc_frame c : keeps frame (consputc c).
Proof.
  intros s. destruct (panicked s) eqn:Hp.
  - rewrite consputc_panicked by assumption. simpl. unfold frame; simpl. tauto.
  - rewrite consputc_running by assumption. simpl.
    unfold frame. destruct (c =? BACKSPACE); simpl; repeat split; congruence.
Qed.

Lemma consputc_latched c : keeps latched (consputc c).
Proof. intros s. apply frame_latched, consputc_frame. Qed.

Lemma consputc_flag_same c : keeps flag_same (consputc c).
Proof. intros s. apply frame_flag_same, consputc_frame. Qed.

Lemma consputc_cursors_step c : keeps cursors_step (consputc c).
Proof.
  intros s. destruct (consputc_frame c s) as (_ & _ & Hr & Hw & _).
  unfold cursors_step, cursors_ok. rewrite Hr, Hw.
  destruct (panicked s) eqn:Hp.
  - rewrite consputc_panicked by assumption. simpl. tauto.
  - rewrite consputc_running by assumption. destruct (c =? BACKSPACE); simpl; tauto.
Qed.

Lemma consputc_nav_same c : keeps nav_same (consputc c).
Proof. intros s. apply frame_nav_same, consputc_frame. Qed.

Lemma consputc_nav_step c : keeps nav_step (consputc c).
Proof. intros s. apply nav_same_step, consputc_nav_same. Qed.

(** Side conditions of the lemmas on [keeps]: the relation is a preorder,
    [consputc] keeps it, and so does a setter of a field it does not read. *)
Ltac keeps_side :=
  first
    [ exact frame_refl | exact frame_trans | exact consputc_frame
    | exact cursors_step_refl | exact cursors_step_trans | exact consputc_cursors_step
    | exact latched_refl | exact latched_trans | exact consputc_latched
    | exact flag_same_refl | exact flag_same_trans | exact consputc_flag_same
    | exact nav_same_refl | exact nav_same_trans | exact consputc_nav_same
    | exact nav_step_refl | exact nav_step_trans | exact consputc_nav_step
    | apply pres_moveThroughCommandHistory; keeps_side
    | intros; unfold frame, latched, flag_same, ptr_same, er_same, nav_same, nav_step,
        nav_dom, cursors_step, cursors_ok, SAVED_MAX in *; simpl in *;
      repeat match goal with
             | |- context [to_uint ?v] =>
                 let H := fresh in
                 pose proof (to_uint_range v) as H;
                 generalize dependent (to_uint v); intros
             end;
      intuition (congruence || lia) ].

(** ** What the line editor leaves alone *)

Lemma clearCommandLine_frame : keeps frame clearCommandLine.
Proof. apply pres_clearCommandLine; keeps_side. Qed.

Lemma writeCommand_frame : keeps frame writeCommand.
Proof. apply pres_writeCommand; keeps_side. Qed.

Lemma consoleintr_latched codes : keeps latched (consoleintr codes).
Proof. apply pres_consoleintr_loop; keeps_side. Qed.

(** ** The reader moves [input.r] only *)

Lemma set_r_same s : set_r (input_r s) s = s.
Proof. destruct s; reflexivity. Qed.

Lemma read_loop_only_r k killed target n dst s :
  exists v, read_final (read_loop k killed target n dst s) = set_r v s.
Proof.
  revert n dst s. induction k as [|k IH]; intros n dst s; simpl.
  - exists (input_r s). symmetry. apply set_r_same.
  - destruct (input_r s =? input_w s).
    { exists (input_r s). destruct killed; symmetry; apply set_r_same. }
    destruct (_ =? CTRL_D).
    { destruct (_ <? _); eexists; reflexivity. }
    destruct (_ =? NL); [eexists; reflexivity|].
    destruct (IH (n - 1) (dst ++ [char_at (input_buf s) (input_r s mod INPUT_BUF)])
                (set_r (to_uint (input_r s + 1)) s)) as [v Hv].
    exists v. rewrite Hv. reflexivity.
Qed.

Lemma consoleread_only_r killed n s :
  exists v, read_final (consoleread killed n s) = set_r v s.
Proof. apply read_loop_only_r. Qed.

(** ** The calls and the flag *)

Lemma consolewrite_keeps R bytes :
  (forall s, R s s) -> (forall a b c, R a b -> R b c -> R a c) ->
  (forall c, keeps R (consputc c)) ->
  keeps R (consolewrite bytes).
Proof.
  intros Hrefl Htrans Hput. unfold consolewrite.
  apply pres_bind; [exact Htrans | | intros _; apply pres_ret; exact Hrefl].
  induction bytes as [|b rest IH]; simpl.
  - apply pres_ret; exact Hrefl.
  - apply pres_bind; [exact Htrans | apply Hput | intros _; exact IH].
Qed.

Lemma after_latched op s : latched s (after op s).
Proof.
  destruct op as [c|codes|killed n|bytes|m l p fmt argp|m l p msg stack]; cbn [after].
  - apply consputc_latched.
  - apply consoleintr_latched.
  - destruct (consoleread_only_r killed n s) as [v ->]. keeps_side.
  - apply (consolewrite_keeps latched); keeps_side.
  - apply (pres_cprintf latched); keeps_side.
  - apply (pres_panic latched); keeps_side.
Qed.

Lemma after_flag_same op s : raises op = false -> flag_same s (after op s).
Proof.
  destruct op as [c|codes|killed n|bytes|m l p [fmt|] argp|m l p msg stack];
    cbn [after raises cprintf]; intros Hr; try discriminate.
  - apply consputc_flag_same.
  - apply (pres_consoleintr_loop flag_same); keeps_side.
  - destruct (consoleread_only_r killed n s) as [v ->]. keeps_side.
  - apply (consolewrite_keeps flag_same); keeps_side.
  - apply (pres_cprintf_loop flag_same); keeps_side.
Qed.

(** [panic] never returns, and it stops with the flag set. *)

Lemma spin_flagged_bind {A B} (m : M A) (k : A -> M B) :
  spin_flagged m -> (forall a, spin_flagged (k a)) -> spin_flagged (bind m k).
Proof.
  intros Hm Hk s. unfold bind. specialize (Hm s).
  destruct (m s) as [a s'|s']; [apply Hk | exact Hm].
Qed.

Lemma spin_flagged_ret {A} (a : A) : spin_flagged (ret a).
Proof. intros s. exact I. Qed.

Lemma spin_flagged_modify f : spin_flagged (modify f).
Proof. intros s. exact I. Qed.

Lemma spin_flagged_consputc c : spin_flagged (consputc c).
Proof.
  intros s. destruct (panicked s) eqn:Hp.
  - rewrite consputc_panicked by assumption. exact Hp.
  - rewrite consputc_running by assumption. exact I.
Qed.

Lemma spin_flagged_put_all l : spin_flagged (put_all l).
Proof.
  induction l as [|c l IH]; simpl.
  - apply spin_flagged_ret.
  - apply spin_flagged_bind; [apply spin_flagged_consputc | intros _; exact IH].
Qed.

Lemma spin_flagged_put_cstring l : spin_flagged (put_cstring l).
Proof.
  induction l as [|c l IH]; simpl.
  - apply spin_flagged_ret.
  - destruct (c =? 0); [apply spin_flagged_ret|].
    apply spin_flagged_bind; [apply spin_flagged_consputc | intros _; exact IH].
Qed.

Lemma spin_flagged_cprintf_loop m fmt argp : spin_flagged (cprintf_loop m fmt argp).
Proof.
  remember (length fmt) as n eqn:Hn.
  assert (Hle : (length fmt <= n)%nat) by lia. clear Hn.
  revert fmt argp Hle.
  induction n as [|n IH]; intros [|f rest] argp Hle; simpl in *;
    try (apply spin_flagged_ret); try lia.
  destruct (_ =? 0); [apply spin_flagged_ret|].
  destruct (negb _).
  { apply spin_flagged_bind; [apply spin_flagged_consputc | intros _; apply IH; lia]. }
  destruct rest as [|f' rest']; [apply spin_flagged_ret|].
  assert (Hrec : forall a, spin_flagged (cprintf_loop m rest' a))
    by (intros a; apply IH; simpl in Hle; lia).
  repeat match goal with
         | |- spin_flagged (if ?b then _ else _) => destruct b
         end;
    repeat first
      [ apply spin_flagged_ret
      | apply spin_flagged_put_all
      | apply spin_flagged_put_cstring
      | apply Hrec
      | apply spin_flagged_consputc
      | apply spin_flagged_bind; [ | intros _] ].
Qed.

Lemma panic_with_spins m l p msg s :
  spin_flagged msg ->
  exists s', panic_with m l p msg s = Spin s' /\ panicked s' = true.
Proof.
  intros Hmsg.
  assert (Hflag : spin_flagged (panic_with m l p msg)).
  { unfold panic_with, cli.
    apply spin_flagged_bind; [apply spin_flagged_modify | intros _].
    apply spin_flagged_bind; [apply spin_flagged_modify | intros _].
    apply spin_flagged_bind; [apply spin_flagged_cprintf_loop | intros _].
    apply spin_flagged_bind; [exact Hmsg | intros _].
    apply spin_flagged_bind; [apply spin_flagged_cprintf_loop | intros _].
    apply spin_flagged_bind; [ | intros _].
    - induction (upto 0 10) as [|i rest IH]; cbn [fold_right].
      + apply spin_flagged_ret.
      + apply spin_flagged_bind; [apply spin_flagged_cprintf_loop | intros _; exact IH].
    - intros s0. reflexivity. }
  assert (Hnever : forall (k : M unit) s0, (forall s1, exists s2, k s1 = Spin s2) ->
                     forall (m0 : M unit), exists s2, bind m0 (fun _ => k) s0 = Spin s2).
  { intros k s0 Hk m0. unfold bind. destruct (m0 s0) as [a s1|s1]; [apply Hk | eauto]. }
  assert (Hspin : exists s', panic_with m l p msg s = Spin s').
  { unfold panic_with.
    repeat (apply Hnever; intros ?).
    eexists. reflexivity. }
  destruct Hspin as [s' Hs']. exists s'. split; [exact Hs'|].
  specialize (Hflag s). rewrite Hs' in Hflag. exact Hflag.
Qed.

Lemma panic_spins m l p msg stack s :
  exists s', panic m l p msg stack s = Spin s' /\ panicked s' = true.
Proof.
  apply panic_with_spins. destruct msg as [f|]; unfold cprintf.
  - apply spin_flagged_cprintf_loop.
  - intros s0.
    destruct (panic_with_spins m l p (cprintf_loop m (chars "null fmt") []) s0
                (spin_flagged_cprintf_loop _ _ _)) as (s' & -> & Hs').
    exact Hs'.
Qed.

(** ** The fatal halt *)

(** C9. The flag [panicked] is written by [panic] only, which sets it and
    never returns; no call of the driver changes it otherwise. Once it is
    set, it is set in every later state, the output sink has received
    nothing more, and every call of [consputc] disables interrupts and
    spins without sending anything to the UART or to the screen. *)
Theorem panicked_latch :
  (forall op s, raises op = false -> panicked (after op s) = panicked s) /\
  (forall m l p msg stack s,
      exists s', panic m l p msg stack s = Spin s' /\ panicked s' = true) /\
  (forall s s', panicked s = true -> later s s' ->
      panicked s' = true /\ out s' = out s /\
      forall c, consputc c s' = Spin (set_intena false s')).
Proof.
  split; [|split].
  - intros op s Hr. apply (after_flag_same op s Hr).
  - intros. apply panic_spins.
  - intros s s' Hp Hl.
    assert (H : panicked s' = true /\ out s' = out s).
    { induction Hl as [|op s' Hl IH]; [tauto|].
      destruct IH as [IHp IHo].
      destruct (after_latched op s' IHp) as [Hp' Ho'].
      split; congruence. }
    destruct H as [Hp' Ho']. repeat split; try assumption.
    intros c. apply consputc_panicked, Hp'.
Qed.

Lemma panicked_latch_witness :
  let s := after (Panic (fun _ => []) 0 (fun i => i) (Some (chars "boom")) []) init in
  let s' := after (Consolewrite (chars "x")) (after (Consoleintr [ch "a"; NL]) s) in
  panicked s' = true /\ out s' = out s /\
  forall c, consputc c s' = Spin (set_intena false s').
Proof.
  intros s s'.
  apply (proj2 (proj2 panicked_latch) s s').
  - vm_compute. reflexivity.
  - apply later_call, later_call, later_now.
Defined.

(** ** Keys that are dropped *)

(** C10. The code 0 is dropped in every state, full or not: [handleKey]
    returns at once with the state as it was, so nothing is stored,
    [input.e] does not move, nothing is echoed and [command_ptr] keeps its
    value. *)
Theorem nul_key_dropped (s : console) (d : bool) : handleKey 0 d s = Done d s.
Proof. reflexivity. Qed.

Lemma default_key_tests c :
  default_key c = true ->
  (c =? CTRL_P) = false /\ (c =? CTRL_U) = false /\
  ((c =? CTRL_H) || (c =? DEL)) = false /\
  ((c =? S_ KEY_UP) || (c =? S_ KEY_DN)) = false.
Proof.
  unfold default_key. rewrite negb_true_iff, !orb_false_iff.
  intros [[[[[-> ->] ->] ->] ->] ->]. auto.
Qed.

Lemma handleKey_default c d s :
  default_key c = true ->
  handleKey c d s =
  if negb (c =? 0) && (pending s <? INPUT_BUF) then
    (put_edit (if c =? CR then NL else c) >>
     modify (set_ptr (-1)) >>
     consputc (if c =? CR then NL else c) >>
     (fun s => if ((if c =? CR then NL else c) =? NL)
                  || ((if c =? CR then NL else c) =? CTRL_D)
                  || (input_e s =? to_uint (input_r s + INPUT_BUF))
               then commit s else Done tt s) >>
     ret d) s
  else Done d s.
Proof.
  intros H. destruct (default_key_tests c H) as (H1 & H2 & H3 & H4).
  unfold handleKey. rewrite H1, H2, H3, H4. reflexivity.
Qed.

Lemma handleKey_full (c : Z) (d : bool) (s : console) :
  default_key c = true -> (pending s <? INPUT_BUF) = false -> handleKey c d s = Done d s.
Proof.
  intros Hc Hfull. rewrite handleKey_default by assumption.
  rewrite Hfull, andb_false_r. reflexivity.
Qed.

(** C7. A code of the [default] case that arrives when the buffer is full
    ([input.e - input.r] is [INPUT_BUF]) changes nothing: [handleKey] returns
    with the state as it was, so the byte is not stored, [input.e] does not
    move, the output sink gets nothing, and the history and its cursor are
    as before. *)
Theorem full_buffer_drops_key (c : Z) (d : bool) (s : console) :
  default_key c = true -> pending s = INPUT_BUF -> handleKey c d s = Done d s.
Proof.
  intros Hc Hfull. rewrite handleKey_default by assumption.
  rewrite Hfull, Z.ltb_irrefl, andb_false_r. reflexivity.
Qed.

Lemma full_buffer_drops_key_witness :
  handleKey (ch "b") false full_line = Done false full_line.
Proof.
  apply (full_buffer_drops_key (ch "b") false full_line); vm_compute; reflexivity.
Defined.

(** ** The cursors stay [uint]s *)

Lemma read_loop_cursors k killed target n dst s :
  cursors_step s (read_final (read_loop k killed target n dst s)).
Proof.
  revert n dst s. induction k as [|k IH]; intros n dst s; simpl.
  - apply cursors_step_refl.
  - destruct (input_r s =? input_w s).
    { destruct killed; apply cursors_step_refl. }
    destruct (_ =? CTRL_D).
    { destruct (_ <? _); simpl; keeps_side. }
    destruct (_ =? NL); [simpl; keeps_side|].
    eapply cursors_step_trans; [|apply IH]. keeps_side.
Qed.

Lemma after_cursors_step op s : cursors_step s (after op s).
Proof.
  destruct op as [c|codes|killed n|bytes|m l p fmt argp|m l p msg stack]; cbn [after].
  - apply consputc_cursors_step.
  - apply (pres_consoleintr_loop cursors_step); keeps_side.
  - apply read_loop_cursors.
  - apply (consolewrite_keeps cursors_step); keeps_side.
  - apply (pres_cprintf cursors_step); keeps_side.
  - apply (pres_panic cursors_step); keeps_side.
Qed.

Lemma reachable_cursors_ok s : reachable s -> cursors_ok s.
Proof.
  induction 1 as [|op s' Hl IH].
  - vm_compute. intuition discriminate.
  - apply after_cursors_step, IH.
Qed.

(** ** Arithmetic of the cursors *)

Ltac uint_arith :=
  unfold pending, uncommitted, unread, to_uint, INPUT_BUF in *;
  change (2 ^ 32) with 4294967296 in *;
  Z.div_mod_to_equations; lia.

Lemma to_uint_pred_distance e w :
  0 < to_uint (e - w) -> to_uint (to_uint (e - 1) - w) = to_uint (e - w) - 1.
Proof. intros H. uint_arith. Qed.

Lemma to_uint_zero_distance e w :
  0 <= e < 2 ^ 32 -> 0 <= w < 2 ^ 32 -> to_uint (e - w) = 0 -> e = w.
Proof. intros He Hw H. uint_arith. Qed.

Lemma to_uint_distance_pos e w :
  0 <= e < 2 ^ 32 -> 0 <= w < 2 ^ 32 -> e <> w -> 0 < to_uint (e - w).
Proof. intros He Hw H. uint_arith. Qed.

(** ** [clearCommandLine] runs its loop to the end *)

Lemma clear_loop_exit k s s' :
  Z.of_nat k = uncommitted s -> cursors_ok s ->
  clear_loop k s = Done tt s' -> clear_test s' = false.
Proof.
  revert s. induction k as [|k IH]; intros s Hk Hc; simpl;
    fold (clear_test s); destruct (clear_test s) eqn:Ht;
    try (intros [= <-]; exact Ht).
  - (* no pass is left: [e = w], the test cannot hold *)
    exfalso. destruct Hc as (_ & Hw & He).
    assert (input_e s = input_w s)
      by (apply to_uint_zero_distance; auto; unfold uncommitted in Hk; lia).
    unfold clear_test in Ht. rewrite (proj2 (Z.eqb_eq _ _) H) in Ht. discriminate.
  - unfold bind, modify.
    destruct (consputc BACKSPACE (set_e (to_uint (input_e s - 1)) s)) as [[] s1|s1] eqn:Hput;
      [|discriminate].
    intros Hloop. apply (IH s1); [| |exact Hloop].
    + destruct (panicked s) eqn:Hp.
      * rewrite consputc_panicked in Hput by exact Hp. discriminate.
      * rewrite consputc_running in Hput by exact Hp. injection Hput as <-.
        unfold uncommitted in *. simpl. rewrite to_uint_pred_distance; lia.
    + pose proof (consputc_cursors_step BACKSPACE (set_e (to_uint (input_e s - 1)) s)) as Hs.
      rewrite Hput in Hs. apply Hs.
      unfold cursors_ok in *. simpl. pose proof (to_uint_range (input_e s - 1)). tauto.
Qed.

Lemma clearCommandLine_exit s s' :
  cursors_ok s -> clearCommandLine s = Done tt s' -> clear_test s' = false.
Proof.
  intros Hc H. unfold clearCommandLine in H.
  eapply clear_loop_exit; [|exact Hc|exact H].
  unfold uncommitted. rewrite Z2Nat.id; [reflexivity|]. apply to_uint_range.
Qed.

(** Unless the flag is set, the computations of the handler return. *)
Lemma returns_bind {A B} (m : M A) (k : A -> M B) :
  returns m -> (forall a, returns (k a)) -> returns (bind m k).
Proof.
  intros Hm Hk s Hp. destruct (Hm s Hp) as (a & s1 & Hs1 & Hp1).
  unfold bind. rewrite Hs1. apply Hk, Hp1.
Qed.

Lemma returns_ret {A} (a : A) : returns (ret a).
Proof. intros s Hp. exists a, s. auto. Qed.

Lemma returns_modify f :
  (forall s, panicked (f s) = panicked s) -> returns (modify f).
Proof. intros Hf s Hp. exists tt, (f s). rewrite Hf. auto. Qed.

Lemma returns_consputc c : returns (consputc c).
Proof.
  intros s Hp. rewrite consputc_running by exact Hp.
  eexists _, _. split; [reflexivity|]. destruct (c =? BACKSPACE); exact Hp.
Qed.

Lemma returns_clear_loop k : returns (clear_loop k).
Proof.
  induction k as [|k IH]; intros s Hp; simpl.
  - destruct (_ && _); exists tt, s; auto.
  - destruct (_ && _); [|exists tt, s; auto].
    revert s Hp. apply (returns_bind (modify _)); [apply returns_modify; reflexivity|].
    intros _. apply returns_bind; [apply returns_consputc | intros _; exact IH].
Qed.

Lemma returns_clearCommandLine : returns clearCommandLine.
Proof. intros s. apply returns_clear_loop. Qed.

Lemma returns_put_edit c : returns (put_edit c).
Proof. apply returns_modify. reflexivity. Qed.

Lemma returns_write_loop k i : returns (write_loop k i).
Proof.
  revert i. induction k as [|k IH]; intros i; simpl.
  - apply returns_ret.
  - intros s Hp. destruct (_ =? NL); [exists tt, s; auto|].
    refine (returns_bind (put_edit _) _ (returns_put_edit _) _ s Hp).
    intros _. apply returns_bind; [apply returns_consputc | intros _; apply IH].
Qed.

Lemma returns_writeCommand : returns writeCommand.
Proof.
  unfold writeCommand.
  apply returns_bind; [apply returns_clearCommandLine | intros _].
  apply returns_bind; [apply returns_modify; reflexivity | intros _].
  apply returns_bind; [apply returns_write_loop | intros _].
  apply returns_modify; reflexivity.
Qed.

(** ** The history cursor *)

Lemma writeCommand_nav_same : keeps nav_same writeCommand.
Proof. intros s. apply frame_nav_same, writeCommand_frame. Qed.

Lemma clearCommandLine_nav_same : keeps nav_same clearCommandLine.
Proof. intros s. apply frame_nav_same, clearCommandLine_frame. Qed.

(** The three moves of the cursor, whether [writeCommand] returns or not. *)
Lemma move_up_from_live s :
  command_ptr s = -1 -> saved s >= 1 ->
  moveThroughCommandHistory (S_ KEY_UP) s = writeCommand (set_ptr 0 s).
Proof.
  intros Hk Hs. unfold moveThroughCommandHistory. rewrite Hk. simpl.
  destruct (saved s >=? 1) eqn:E; [reflexivity | lia].
Qed.

Lemma move_up_from_entry s :
  command_ptr s <> -1 -> command_ptr s + 1 < saved s ->
  moveThroughCommandHistory (S_ KEY_UP) s =
  (writeCommand >>
   modify (fun s => if command_ptr s =? SAVED_MAX then set_ptr (SAVED_MAX - 1) s else s))
    (set_ptr (command_ptr s + 1) s).
Proof.
  intros Hk Hs. unfold moveThroughCommandHistory.
  destruct (command_ptr s =? -1) eqn:E; [lia|].
  simpl. destruct (command_ptr s + 1 <? saved s) eqn:E'; [reflexivity | lia].
Qed.

Lemma move_down_from_entry s :
  command_ptr s > 0 ->
  moveThroughCommandHistory (S_ KEY_DN) s = writeCommand (set_ptr (command_ptr s - 1) s).
Proof.
  intros Hk. unfold moveThroughCommandHistory.
  destruct (command_ptr s =? -1) eqn:E; [lia|].
  simpl. destruct (command_ptr s >? 0) eqn:E'; [reflexivity | lia].
Qed.

Lemma move_down_from_first s :
  command_ptr s = 0 ->
  moveThroughCommandHistory (S_ KEY_DN) s = (clearCommandLine >> modify (set_ptr (-1))) s.
Proof.
  intros Hk. unfold moveThroughCommandHistory. rewrite Hk. reflexivity.
Qed.

Lemma move_up_at_top s :
  ~ command_ptr s + 1 < saved s ->
  moveThroughCommandHistory (S_ KEY_UP) s = Done tt s.
Proof.
  intros Hs. unfold moveThroughCommandHistory.
  destruct (command_ptr s =? -1) eqn:E; simpl.
  - destruct (saved s >=? 1) eqn:E'; [lia | reflexivity].
  - destruct (command_ptr s + 1 <? saved s) eqn:E'; [lia | reflexivity].
Qed.

Lemma move_down_when_live s :
  command_ptr s = -1 -> moveThroughCommandHistory (S_ KEY_DN) s = Done tt s.
Proof. intros Hk. unfold moveThroughCommandHistory. rewrite Hk. reflexivity. Qed.

Lemma move_other_code c s :
  c <> S_ KEY_UP -> c <> S_ KEY_DN -> moveThroughCommandHistory c s = Done tt s.
Proof.
  intros Hu Hd. unfold moveThroughCommandHistory.
  destruct (c =? S_ KEY_UP) eqn:E; [lia|].
  destruct (c =? S_ KEY_DN) eqn:E'; [lia|].
  destruct (command_ptr s =? -1); reflexivity.
Qed.

Lemma moveThroughCommandHistory_nav_step c : keeps nav_step (moveThroughCommandHistory c).
Proof.
  intros s Hdom.
  destruct (Z.eq_dec c (S_ KEY_UP)) as [->|Hu].
  - destruct (Z_lt_dec (command_ptr s + 1) (saved s)) as [Hlt|Hge];
      [|rewrite move_up_at_top by exact Hge; exact Hdom].
    destruct (Z.eq_dec (command_ptr s) (-1)) as [Hk|Hk].
    + rewrite move_up_from_live by lia.
      apply nav_same_step with (s := set_ptr 0 s); [apply writeCommand_nav_same|].
      unfold nav_dom in *. simpl. lia.
    + rewrite move_up_from_entry by assumption. rewrite final_bind.
      pose proof (writeCommand_nav_same (set_ptr (command_ptr s + 1) s)) as [Hp Hs].
      simpl in Hp, Hs.
      destruct (writeCommand _) as [[] s1|s1]; simpl in *.
      * unfold nav_dom, SAVED_MAX in *.
        destruct (command_ptr s1 =? 3) eqn:E; simpl; lia.
      * unfold nav_dom in *. lia.
  - destruct (Z.eq_dec c (S_ KEY_DN)) as [->|Hd];
      [|rewrite move_other_code by assumption; exact Hdom].
    destruct (Z.eq_dec (command_ptr s) (-1)) as [Hk|Hk];
      [rewrite move_down_when_live by assumption; exact Hdom|].
    destruct (Z.eq_dec (command_ptr s) 0) as [H0|H0].
    + rewrite move_down_from_first by assumption. rewrite final_bind.
      pose proof (clearCommandLine_nav_same s) as [Hp Hs].
      destruct (clearCommandLine s) as [[] s1|s1]; simpl in *;
        unfold nav_dom in *; simpl; lia.
    + assert (command_ptr s > 0) by (unfold nav_dom in Hdom; lia).
      rewrite move_down_from_entry by assumption.
      apply nav_same_step with (s := set_ptr (command_ptr s - 1) s);
        [apply writeCommand_nav_same|].
      unfold nav_dom in *. simpl. lia.
Qed.

Lemma handleKey_nav_step c d : keeps nav_step (handleKey c d).
Proof.
  apply pres_handleKey; try exact moveThroughCommandHistory_nav_step; keeps_side.
Qed.

Lemma after_nav_step op s : nav_step s (after op s).
Proof.
  destruct op as [c|codes|killed n|bytes|m l p fmt argp|m l p msg stack]; cbn [after].
  - apply consputc_nav_step.
  - unfold consoleintr. generalize false. revert s.
    induction codes as [|c rest IH]; intros s d; simpl.
    + apply nav_step_refl.
    + destruct (c >=? 0); [|apply nav_step_refl].
      refine (pres_bind nav_step nav_step_trans _ _ (handleKey_nav_step c d) _ s).
      intros d' s'. apply IH.
  - destruct (consoleread_only_r killed n s) as [v ->]. keeps_side.
  - apply (consolewrite_keeps nav_step); keeps_side.
  - apply (pres_cprintf nav_step); keeps_side.
  - apply (pres_panic nav_step); keeps_side.
Qed.

Lemma reachable_nav_dom s : reachable s -> nav_dom s.
Proof.
  induction 1 as [|op s' Hl IH].
  - vm_compute. intuition discriminate.
  - apply after_nav_step, IH.
Qed.

(** C8. In every reachable state [command_ptr] is [-1] or the index of a
    valid entry, [0 <= command_ptr < saved], and [saved] is at most
    [SAVED_MAX = 3]. From position [k]: "up" goes to [k + 1] when
    [k + 1 < saved] and changes nothing otherwise; "down" goes to [k - 1]
    from [k > 0]; "down" from [0] is [clearCommandLine] followed by
    [command_ptr = -1], and [clearCommandLine] returns with the test of its
    loop false (the line is erased back to [input.w], or to a newline);
    "down" at [-1] changes nothing. *)
Theorem history_cursor_domain (s : console) (Hs : reachable s) :
  nav_dom s /\
  (forall op, nav_dom (after op s)) /\
  (command_ptr s + 1 < saved s ->
     command_ptr (final (moveThroughCommandHistory (S_ KEY_UP) s)) = command_ptr s + 1) /\
  (~ command_ptr s + 1 < saved s ->
     moveThroughCommandHistory (S_ KEY_UP) s = Done tt s) /\
  (command_ptr s > 0 ->
     command_ptr (final (moveThroughCommandHistory (S_ KEY_DN) s)) = command_ptr s - 1) /\
  (command_ptr s = 0 ->
     moveThroughCommandHistory (S_ KEY_DN) s = (clearCommandLine >> modify (set_ptr (-1))) s /\
     (panicked s = false ->
      exists s', clearCommandLine s = Done tt s' /\ clear_test s' = false /\
                 moveThroughCommandHistory (S_ KEY_DN) s = Done tt (set_ptr (-1) s'))) /\
  (command_ptr s = -1 ->
     moveThroughCommandHistory (S_ KEY_DN) s = Done tt s).
Proof.
  pose proof (reachable_nav_dom s Hs) as Hdom.
  split; [exact Hdom|].
  split; [intros op; apply after_nav_step, Hdom|].
  split; [|split; [apply move_up_at_top|split; [|split; [|apply move_down_when_live]]]].
  - intros Hlt. destruct (Z.eq_dec (command_ptr s) (-1)) as [Hk|Hk].
    + rewrite move_up_from_live by lia.
      destruct (writeCommand_nav_same (set_ptr 0 s)) as [-> _]. simpl. lia.
    + rewrite move_up_from_entry by assumption. rewrite final_bind.
      pose proof (writeCommand_nav_same (set_ptr (command_ptr s + 1) s)) as [Hp Hsv].
      simpl in Hp, Hsv.
      destruct (writeCommand _) as [[] s1|s1]; simpl in *; [|exact Hp].
      unfold nav_dom, SAVED_MAX in *.
      destruct (command_ptr s1 =? 3) eqn:E; simpl; lia.
  - intros Hk. rewrite move_down_from_entry by assumption.
    destruct (writeCommand_nav_same (set_ptr (command_ptr s - 1) s)) as [-> _].
    reflexivity.
  - intros Hk. split; [apply move_down_from_first, Hk|].
    intros Hp. rewrite move_down_from_first by exact Hk.
    destruct (returns_clearCommandLine s Hp) as ([] & s' & Hs' & _).
    exists s'. split; [exact Hs'|]. split.
    + apply (clearCommandLine_exit s s'); [apply reachable_cursors_ok, Hs | exact Hs'].
    + unfold bind. rewrite Hs'. reflexivity.
Qed.

Lemma history_cursor_domain_witness :
  let s := after (Consoleintr [ch "l"; ch "s"; NL; S_ KEY_UP]) init in
  nav_dom s /\ command_ptr s = 0 /\ saved s = 1 /\
  moveThroughCommandHistory (S_ KEY_UP) s = Done tt s.
Proof.
  intros s.
  assert (Hs : reachable s) by (exact (later_call init _ init (later_now init))).
  destruct (history_cursor_domain s Hs) as (Hdom & _ & _ & Htop & _).
  split; [exact Hdom|].
  split; [vm_compute; reflexivity|]. split; [vm_compute; reflexivity|].
  apply Htop. vm_compute. discriminate.
Defined.

(** ** Slices of the ring buffer *)

Lemma upto_S lo n : upto lo (S n) = lo :: upto (lo + 1) n.
Proof.
  unfold upto. simpl. f_equal; [lia|].
  rewrite <- seq_shift, map_map. apply map_ext. intros k. lia.
Qed.

Lemma upto_snoc lo n : upto lo (S n) = upto lo n ++ [lo + Z.of_nat n].
Proof. unfold upto. rewrite seq_S, map_app. reflexivity. Qed.

Lemma length_upto lo n : length (upto lo n) = n.
Proof. unfold upto. rewrite length_map, length_seq. reflexivity. Qed.

Lemma slice_shift buf from len :
  map (fun i => char_at buf ((from + i) mod INPUT_BUF)) (upto 1 len) =
  map (fun i => char_at buf ((from + 1 + i) mod INPUT_BUF)) (upto 0 len).
Proof.
  unfold upto. rewrite !map_map. apply map_ext. intros k. do 2 f_equal. lia.
Qed.

Lemma slice_nil buf from : slice buf from 0 = [].
Proof. reflexivity. Qed.

Lemma slice_cons buf from len :
  0 < len ->
  slice buf from len = char_at buf (from mod INPUT_BUF) :: slice buf (from + 1) (len - 1).
Proof.
  intros H. unfold slice.
  replace (Z.to_nat len) with (S (Z.to_nat (len - 1))) by lia.
  rewrite upto_S. simpl map. rewrite Z.add_0_r. f_equal. apply slice_shift.
Qed.

Lemma slice_snoc buf from len :
  0 <= len ->
  slice buf from (len + 1) = slice buf from len ++ [char_at buf ((from + len) mod INPUT_BUF)].
Proof.
  intros H. unfold slice.
  replace (Z.to_nat (len + 1)) with (S (Z.to_nat len)) by lia.
  rewrite upto_snoc, map_app. simpl. do 4 f_equal. lia.
Qed.

Lemma slice_uint buf x len : slice buf (to_uint x) len = slice buf x len.
Proof.
  unfold slice. apply map_ext. intros i. f_equal. uint_arith.
Qed.

Lemma length_slice buf from len : length (slice buf from len) = Z.to_nat len.
Proof. unfold slice. rewrite length_map. apply length_upto. Qed.

Lemma committed_nil s : input_r s = input_w s -> committed s = [].
Proof.
  intros H. unfold committed, unread. rewrite H, Z.sub_diag. reflexivity.
Qed.

Lemma committed_cons s :
  cursors_ok s -> input_r s <> input_w s ->
  committed s =
  char_at (input_buf s) (input_r s mod INPUT_BUF) ::
  committed (set_r (to_uint (input_r s + 1)) s).
Proof.
  intros (Hr & Hw & _) Hne. unfold committed, unread. simpl.
  rewrite slice_cons by (apply to_uint_distance_pos; auto).
  rewrite slice_uint. do 2 f_equal. uint_arith.
Qed.

(** ** The reader against the specification's read *)

Lemma to_int_id x : - 2 ^ 31 <= x < 2 ^ 31 -> to_int x = x.
Proof. unfold to_int. intros H. rewrite Z.mod_small; lia. Qed.

Lemma set_r_uint_same s : cursors_ok s -> set_r (to_uint (input_r s + 0)) s = s.
Proof.
  intros (Hr & _). rewrite Z.add_0_r, to_uint_id by exact Hr. apply set_r_same.
Qed.

Lemma cursors_ok_set_r v s : cursors_ok s -> cursors_ok (set_r (to_uint v) s).
Proof.
  unfold cursors_ok. simpl. pose proof (to_uint_range v). tauto.
Qed.

Lemma read_loop_take_line k killed target dst s :
  cursors_ok s -> Z.of_nat k <= target < 2 ^ 31 ->
  read_loop k killed target (Z.of_nat k) dst s =
  let '(bytes, used, over) := take_line k (Z.of_nat k =? target) (committed s) in
  let s' := set_r (to_uint (input_r s + used)) s in
  if over then RDone (target - Z.of_nat k + Z.of_nat (length bytes)) (dst ++ bytes) s'
  else if killed then RDone (-1) (dst ++ bytes) s'
  else RSleep (Z.of_nat k - Z.of_nat (length bytes)) (dst ++ bytes) s'.
Proof.
  revert dst s. induction k as [|k IH]; intros dst s Hc Ht.
  - simpl. rewrite app_nil_r, set_r_uint_same by exact Hc.
    rewrite to_int_id by lia. f_equal. lia.
  - cbn [read_loop take_line].
    destruct (input_r s =? input_w s) eqn:Erw.
    { apply Z.eqb_eq in Erw. rewrite committed_nil by exact Erw.
      rewrite app_nil_r, set_r_uint_same by exact Hc.
      destruct killed; [reflexivity | f_equal; simpl; lia]. }
    apply Z.eqb_neq in Erw. rewrite committed_cons by assumption.
    set (c := char_at (input_buf s) (input_r s mod INPUT_BUF)).
    set (s1 := set_r (to_uint (input_r s + 1)) s).
    destruct (c =? CTRL_D) eqn:Ed.
    { rewrite app_nil_r, to_int_id by lia. simpl length.
      rewrite to_uint_id by lia.
      destruct (Z.of_nat (S k) =? target) eqn:Ef.
      - apply Z.eqb_eq in Ef. rewrite (proj2 (Z.ltb_ge _ _)) by lia.
        f_equal. lia.
      - apply Z.eqb_neq in Ef. rewrite (proj2 (Z.ltb_lt _ _)) by lia.
        f_equal; [lia|]. unfold s1. simpl.
        unfold set_r. simpl. f_equal. uint_arith. }
    destruct (c =? NL) eqn:En.
    { rewrite to_int_id by lia. simpl length. f_equal; lia. }
    replace (Z.of_nat (S k) - 1) with (Z.of_nat k) by lia.
    rewrite IH; [|apply cursors_ok_set_r, Hc|lia].
    rewrite (proj2 (Z.eqb_neq (Z.of_nat k) target)) by lia.
    destruct (take_line k false (committed s1)) as [[bytes used] over].
    rewrite <- app_assoc. simpl app. simpl length.
    assert (Hs : set_r (to_uint (input_r s1 + used)) s1 =
                 set_r (to_uint (input_r s + (used + 1))) s).
    { unfold s1, set_r. simpl. f_equal. uint_arith. }
    rewrite Hs.
    destruct over; [f_equal; lia|].
    destruct killed; [reflexivity|]. f_equal. lia.
Qed.

Lemma slice_drop buf from len (k : nat) :
  (k <= Z.to_nat len)%nat ->
  drop k (slice buf from len) = slice buf (from + Z.of_nat k) (len - Z.of_nat k).
Proof.
  revert from len. induction k as [|k IH]; intros from len Hk.
  - rewrite drop_0, Z.add_0_r, Z.sub_0_r. reflexivity.
  - rewrite slice_cons by lia. cbn [drop]. rewrite IH by lia. f_equal; lia.
Qed.

Lemma committed_advance s used :
  cursors_ok s -> 0 <= used <= unread s ->
  committed (set_r (to_uint (input_r s + used)) s) = drop (Z.to_nat used) (committed s).
Proof.
  intros (Hr & Hw & _) Hu. unfold committed, unread in *. simpl.
  rewrite slice_uint, slice_drop by lia.
  rewrite Z2Nat.id by lia. f_equal. uint_arith.
Qed.

Lemma take_line_until_eof k first bytes rest :
  Forall (fun c => c <> NL /\ c <> CTRL_D) bytes -> (length bytes < k)%nat ->
  take_line k first (bytes ++ CTRL_D :: rest) =
  (bytes,
   Z.of_nat (length bytes) + (if first && Nat.eqb (length bytes) 0 then 1 else 0),
   true).
Proof.
  intros Hb. revert k first. induction Hb as [|c bs [Hnl Heof] Hbs IH]; intros k first Hk.
  - destruct k as [|k]; [simpl in Hk; lia|]. simpl. destruct first; reflexivity.
  - destruct k as [|k]; [simpl in Hk; lia|]. simpl in Hk. cbn [app take_line].
    rewrite (proj2 (Z.eqb_neq _ _) Heof), (proj2 (Z.eqb_neq _ _) Hnl).
    rewrite IH by lia. rewrite andb_false_r. cbn [andb length Nat.eqb].
    f_equal. f_equal. lia.
Qed.

(** The read of the specification over a stream whose first bytes do not
    end it. *)
Lemma take_line_app k first dst rest :
  Forall goes_on dst -> (length dst < k)%nat ->
  take_line k first (dst ++ rest) =
  let '(bytes, used, over) :=
    take_line (k - length dst) (first && Nat.eqb (length dst) 0) rest in
  (dst ++ bytes, Z.of_nat (length dst) + used, over).
Proof.
  intros Hd. revert k first. induction Hd as [|c dst [Hnl Heof] Hd IH]; intros k first Hk.
  - cbn [length app Nat.eqb]. rewrite Nat.sub_0_r, andb_true_r.
    destruct (take_line k first rest) as [[bytes used] over]. reflexivity.
  - destruct k as [|k]; [simpl in Hk; lia|]. simpl in Hk. cbn [app take_line].
    rewrite (proj2 (Z.eqb_neq _ _) Heof), (proj2 (Z.eqb_neq _ _) Hnl).
    rewrite IH by lia. cbn [length Nat.eqb Nat.sub andb]. rewrite andb_false_r.
    destruct (take_line (k - length dst) false rest) as [[bytes used] over].
    cbn [app]. f_equal. f_equal. lia.
Qed.

(** A read that the stream starves has taken all of it. *)
Lemma take_line_starved_all k first stream bytes used :
  take_line k first stream = (bytes, used, false) ->
  bytes = stream /\ used = Z.of_nat (length stream) /\ (length stream < k)%nat /\
  Forall goes_on stream.
Proof.
  revert first stream bytes used.
  induction k as [|k IH]; intros first stream bytes used; [discriminate|].
  cbn [take_line]. destruct stream as [|c rest].
  - intros [= <- <-]. repeat split; [simpl; lia | constructor].
  - destruct (Z.eqb_spec c CTRL_D) as [|Heof]; [discriminate|].
    destruct (Z.eqb_spec c NL) as [|Hnl]; [discriminate|].
    destruct (take_line k false rest) as [[bs u] o] eqn:E.
    intros [= <- <- ->]. destruct (IH _ _ _ _ E) as (-> & -> & Hk & Hrest).
    repeat split; [cbn [length]; lia | cbn [length]; lia |].
    constructor; [split; assumption | exact Hrest].
Qed.

(** C2. [consoleread] is the read of the specification over the committed
    bytes: it stops when [n] bytes are produced, after a newline, which is
    part of the result, or at the end-of-file code, which is not; it returns
    the number of bytes produced. When the committed bytes run out first,
    the call sleeps, or fails if the process is killed. The call is its
    loop entered with nothing stored, and a call that takes up its loop
    again after [sleep], in the state [s] that it finds then, goes on as
    the same read: with the bytes [dst] it has stored
    before, it is the read of the specification over [dst] followed by the
    bytes committed in [s], and when it sleeps again it has stored all of
    them, so that the same holds when it wakes up the next time. In
    particular, when the end-of-file code comes after some bytes, fewer
    than [n] and without a newline, stored in this pass or before a sleep,
    the read returns these bytes and leaves the code in the buffer, and the
    next read takes the code and returns 0. *)
Theorem consoleread_take_line (killed : bool) (n : Z) (s : console) :
  cursors_ok s -> 0 < n < 2 ^ 31 ->
  consoleread killed n s =
    read_outcome killed n s (take_line (Z.to_nat n) true (committed s)) /\
  consoleread killed n s = consoleread_wakeup killed n n [] s /\
  (forall bytes rest m,
      bytes <> [] -> Forall (fun c => c <> NL /\ c <> CTRL_D) bytes ->
      Z.of_nat (length bytes) < n -> 0 < m < 2 ^ 31 ->
      committed s = bytes ++ CTRL_D :: rest ->
      consoleread killed n s =
        RDone (Z.of_nat (length bytes)) bytes
          (set_r (to_uint (input_r s + Z.of_nat (length bytes))) s) /\
      consoleread killed m (set_r (to_uint (input_r s + Z.of_nat (length bytes))) s) =
        RDone 0 []
          (set_r (to_uint (input_r s + Z.of_nat (length bytes) + 1)) s)) /\
  (forall dst,
      Forall goes_on dst -> Z.of_nat (length dst) < n ->
      consoleread_wakeup killed n (n - Z.of_nat (length dst)) dst s =
        resumed_outcome killed n (Z.of_nat (length dst)) s
          (take_line (Z.to_nat n) true (dst ++ committed s)) /\
      (forall m dst' s',
          consoleread_wakeup killed n (n - Z.of_nat (length dst)) dst s = RSleep m dst' s' ->
          killed = false /\ dst' = dst ++ committed s /\ s' = set_r (input_w s) s /\
          Forall goes_on dst' /\ Z.of_nat (length dst') < n /\
          m = n - Z.of_nat (length dst')) /\
      (forall rest m,
          dst <> [] -> 0 < m < 2 ^ 31 -> committed s = CTRL_D :: rest ->
          consoleread_wakeup killed n (n - Z.of_nat (length dst)) dst s =
            RDone (Z.of_nat (length dst)) dst s /\
          consoleread killed m s = RDone 0 [] (set_r (to_uint (input_r s + 1)) s))).
Proof.
  intros Hc Hn.
  assert (Href : forall k0 m s0, cursors_ok s0 -> 0 < m < 2 ^ 31 ->
            consoleread k0 m s0 =
            read_outcome k0 m s0 (take_line (Z.to_nat m) true (committed s0))).
  { intros k0 m s0 Hc0 Hm. unfold consoleread, read_outcome.
    rewrite to_uint_id by lia.
    pose proof (read_loop_take_line (Z.to_nat m) k0 m [] s0 Hc0) as H.
    rewrite Z2Nat.id in H by lia. rewrite H by lia.
    rewrite Z.eqb_refl.
    destruct (take_line (Z.to_nat m) true (committed s0)) as [[bytes used] over].
    simpl app. destruct over; [f_equal; lia | reflexivity]. }
  split; [apply Href; assumption|].
  split; [unfold consoleread, consoleread_wakeup; rewrite to_uint_id by lia; reflexivity|].
  split.
  { intros bytes rest m Hne Hb Hlen Hm Hcom.
    assert (Hused : 0 <= Z.of_nat (length bytes) <= unread s).
    { pose proof (f_equal length Hcom) as Hl. unfold committed in Hl.
      rewrite length_slice, length_app in Hl. simpl in Hl.
      pose proof (to_uint_range (input_w s - input_r s)). unfold unread in *. lia. }
    split.
    - rewrite Href by assumption. rewrite Hcom, take_line_until_eof by (auto; lia).
      destruct bytes as [|b bs]; [congruence|].
      cbn [length Nat.eqb andb]. unfold read_outcome. rewrite Z.add_0_r. reflexivity.
    - rewrite Href by (auto using cursors_ok_set_r).
      rewrite committed_advance, Hcom by assumption.
      rewrite Nat2Z.id, drop_app_length.
      replace (Z.to_nat m) with (S (Z.to_nat (m - 1))) by lia.
      cbn [take_line]. rewrite Z.eqb_refl. unfold read_outcome. cbn [length].
      f_equal. unfold set_r. simpl. f_equal. uint_arith. }
  intros dst Hdst Hlen.
  assert (Hwake :
    consoleread_wakeup killed n (n - Z.of_nat (length dst)) dst s =
    resumed_outcome killed n (Z.of_nat (length dst)) s
      (take_line (Z.to_nat n) true (dst ++ committed s))).
  { unfold consoleread_wakeup, resumed_outcome.
    pose proof (read_loop_take_line (Z.to_nat (n - Z.of_nat (length dst))) killed n dst s Hc)
      as H.
    rewrite Z2Nat.id in H by lia. rewrite H by lia. clear H.
    rewrite take_line_app by (try exact Hdst; lia).
    replace (Z.to_nat n - length dst)%nat with (Z.to_nat (n - Z.of_nat (length dst))) by lia.
    assert (Hfirst : (n - Z.of_nat (length dst) =? n) = true && Nat.eqb (length dst) 0).
    { cbn [andb]. destruct dst as [|c dst]; cbn [length Nat.eqb].
      - apply Z.eqb_eq. lia.
      - apply Z.eqb_neq. lia. }
    rewrite Hfirst.
    destruct (take_line (Z.to_nat (n - Z.of_nat (length dst)))
                (true && Nat.eqb (length dst) 0) (committed s)) as [[bytes used] over].
    cbn zeta. rewrite length_app.
    replace (Z.of_nat (length dst) + used - Z.of_nat (length dst)) with used by lia.
    destruct over; [f_equal; lia|]. destruct killed; [reflexivity|]. f_equal. lia. }
  split; [exact Hwake|]. split.
  - intros m dst' s'. rewrite Hwake. unfold resumed_outcome.
    destruct (take_line (Z.to_nat n) true (dst ++ committed s)) as [[bytes used] over] eqn:E.
    cbn zeta. destruct over; [discriminate|]. destruct killed; [discriminate|].
    intros [= <- <- <-].
    destruct (take_line_starved_all _ _ _ _ _ E) as (Hb & Hu & Hk & Hall).
    split; [reflexivity|]. split; [exact Hb|].
    split.
    { f_equal. rewrite Hu, length_app. unfold committed. rewrite length_slice.
      rewrite Nat2Z.inj_add, Z2Nat.id by apply to_uint_range.
      destruct Hc as (Hr & Hw & _). uint_arith. }
    rewrite Hb. split; [exact Hall|]. split; [lia | reflexivity].
  - intros rest m Hne Hm Hcom. split.
    + rewrite Hwake, Hcom, take_line_until_eof by (try exact Hdst; lia).
      destruct dst as [|c dst]; [congruence|].
      cbn [Nat.eqb length andb]. unfold resumed_outcome.
      replace (Z.of_nat (S (length dst)) + 0 - Z.of_nat (S (length dst))) with 0 by lia.
      rewrite set_r_uint_same by exact Hc. reflexivity.
    + rewrite Href by assumption. rewrite Hcom.
      replace (Z.to_nat m) with (S (Z.to_nat (m - 1))) by lia.
      cbn [take_line]. rewrite Z.eqb_refl. reflexivity.
Qed.

(** A reader that finds the buffer empty sleeps; the keys [h], [i] and
    Ctrl-D are typed; the reader wakes up and returns the two bytes, and
    the next read returns 0. *)
Lemma consoleread_take_line_witness :
  consoleread false 10 init = RSleep 10 [] init /\
  consoleread_wakeup false 10 10 [] hi_eof = RDone 2 [ch "h"; ch "i"] (set_r 2 hi_eof) /\
  consoleread false 10 hi_eof = RDone 2 [ch "h"; ch "i"] (set_r 2 hi_eof) /\
  consoleread false 10 (set_r 2 hi_eof) = RDone 0 [] (set_r 3 hi_eof).
Proof.
  split; [vm_compute; reflexivity|].
  destruct (consoleread_take_line false 10 hi_eof) as (_ & _ & H & Hwake).
  - vm_compute. intuition discriminate.
  - lia.
  - split.
    { destruct (Hwake []) as (Hrun & _); [constructor | simpl; lia|].
      change (10 - Z.of_nat (length (@nil Z))) with 10 in Hrun.
      rewrite Hrun. vm_compute. reflexivity. }
    destruct (H [ch "h"; ch "i"] [] 10) as [H1 H2].
    + discriminate.
    + repeat constructor; discriminate.
    + simpl. lia.
    + lia.
    + vm_compute. reflexivity.
    + split; [rewrite H1; vm_compute; reflexivity|].
      replace (set_r 2 hi_eof)
        with (set_r (to_uint (input_r hi_eof + Z.of_nat (length [ch "h"; ch "i"]))) hi_eof)
        by (vm_compute; reflexivity).
      rewrite H2. vm_compute. reflexivity.
Defined.

(** ** A reader that is killed *)

Lemma take_line_starved k first stream bytes used :
  take_line k first stream = (bytes, used, false) -> used = Z.of_nat (length bytes).
Proof.
  revert first stream bytes used.
  induction k as [|k IH]; intros first stream bytes used; simpl; [discriminate|].
  destruct stream as [|c rest]; [intros [= <- <-]; reflexivity|].
  destruct (c =? CTRL_D); [discriminate|].
  destruct (c =? NL); [discriminate|].
  destruct (take_line k false rest) as [[bytes' used'] over'] eqn:E.
  intros [= <- <- ->]. rewrite (IH _ _ _ _ E). simpl length. lia.
Qed.

(** C5, as the claim states it, fails: a call that has copied the 128 bytes
    of a line committed by a full buffer waits for more; killed while it
    waits, it returns -1 with [input.r] advanced by 128. *)
Lemma killed_read_after_full_line :
  input_r full_line = 0 /\
  consoleread false 200 full_line =
    RSleep 72 (replicate 128 (ch "a")) (set_r 128 full_line) /\
  consoleread_wakeup true 200 72 (replicate 128 (ch "a")) (set_r 128 full_line) =
    RDone (-1) (replicate 128 (ch "a")) (set_r 128 full_line) /\
  consoleread true 200 full_line =
    RDone (-1) (replicate 128 (ch "a")) (set_r 128 full_line) /\
  input_r (set_r 128 full_line) <> input_r full_line.
Proof. vm_compute. repeat split; discriminate. Qed.

(** C5, amended. A call that finds no committed byte while the process is
    killed, on entry or when it wakes up, returns -1 at once and leaves the
    state as it is; so a call that has to wait before it has copied a byte
    returns -1 with [input.r] where it was. In general a call that returns
    -1 has advanced [input.r] by the number of bytes it has copied. *)
Theorem killed_read_fails (n : Z) (s : console) :
  cursors_ok s -> 0 < n < 2 ^ 31 ->
  (forall target dst,
      input_r s = input_w s ->
      consoleread_wakeup true target n dst s = RDone (-1) dst s) /\
  (input_r s = input_w s -> consoleread true n s = RDone (-1) [] s) /\
  (forall killed dst s',
      consoleread killed n s = RDone (-1) dst s' ->
      killed = true /\
      s' = set_r (to_uint (input_r s + Z.of_nat (length dst))) s).
Proof.
  intros Hc Hn.
  assert (Hwait : forall target dst, input_r s = input_w s ->
            read_loop (Z.to_nat n) true target n dst s = RDone (-1) dst s).
  { intros target dst Hrw.
    replace (Z.to_nat n) with (S (Z.to_nat (n - 1))) by lia. simpl.
    rewrite (proj2 (Z.eqb_eq _ _) Hrw). reflexivity. }
  split; [exact Hwait|]. split; [apply Hwait|].
  intros killed dst s'. unfold consoleread. rewrite to_uint_id by lia.
  pose proof (read_loop_take_line (Z.to_nat n) killed n [] s Hc) as H.
  rewrite Z2Nat.id in H by lia. rewrite H by lia. clear H.
  rewrite Z.eqb_refl.
  destruct (take_line (Z.to_nat n) true (committed s)) as [[bytes used] over] eqn:E.
  simpl app. destruct over; [intros [= H _ _]; lia|].
  destruct killed; [|discriminate].
  intros [= <- <-]. rewrite (take_line_starved _ _ _ _ _ E). auto.
Qed.

Lemma killed_read_fails_witness : consoleread true 5 init = RDone (-1) [] init.
Proof.
  apply (killed_read_fails 5 init); [vm_compute; intuition discriminate | lia | reflexivity].
Defined.

(** ** The history stack *)

Lemma char_at_lookup (a : list Z) (i : nat) x :
  a !! i = Some x -> char_at a (Z.of_nat i) = x.
Proof.
  intros H. unfold char_at.
  rewrite (proj2 (Z.leb_le _ _)) by lia. rewrite Nat2Z.id, H. reflexivity.
Qed.

(** The inner loop of [moveCommandsUp], on the row it writes. *)
Lemma copy_row_fold (src dst : list Z) (m : nat) :
  length src = length dst -> (m <= length src)%nat ->
  fold_left (fun d j => <[Z.to_nat j := char_at src j]> d) (upto 0 m) dst =
  take m src ++ drop m dst.
Proof.
  intros Hlen. induction m as [|m IH]; intros Hm.
  - rewrite take_0, drop_0. reflexivity.
  - rewrite upto_snoc, fold_left_app, IH by lia. simpl fold_left.
    destruct (lookup_lt_is_Some_2 src m) as [x Hx]; [lia|].
    destruct (lookup_lt_is_Some_2 dst m) as [y Hy]; [lia|].
    rewrite Z.add_0_l, Nat2Z.id, (char_at_lookup _ _ _ Hx).
    rewrite insert_app_r_alt by (rewrite length_take; lia).
    rewrite length_take_le, Nat.sub_diag by lia.
    rewrite (drop_S _ _ _ Hy). simpl.
    rewrite (take_S_r _ _ _ Hx), <- app_assoc. reflexivity.
Qed.

Lemma copy_row_whole (src dst : list Z) :
  length src = 128%nat -> length dst = 128%nat ->
  fold_left (fun d j => <[Z.to_nat j := char_at src j]> d) (upto 0 128) dst = src.
Proof.
  intros Hs Hd. rewrite copy_row_fold by lia.
  rewrite take_ge, drop_ge by lia. apply app_nil_r.
Qed.

Lemma fold_copy_cell_2 js (a b c : list Z) :
  fold_left (fun st j => copy_cell 2 j st) js [a; b; c] =
  [a; b; fold_left (fun d j => <[Z.to_nat j := char_at b j]> d) js c].
Proof.
  revert c. induction js as [|j js IH]; intros c; [reflexivity|].
  simpl fold_left. rewrite <- IH. reflexivity.
Qed.

Lemma fold_copy_cell_1 js (a b c : list Z) :
  fold_left (fun st j => copy_cell 1 j st) js [a; b; c] =
  [a; fold_left (fun d j => <[Z.to_nat j := char_at a j]> d) js b; c].
Proof.
  revert b. induction js as [|j js IH]; intros b; [reflexivity|].
  simpl fold_left. rewrite <- IH. reflexivity.
Qed.

Lemma fold_copy_rows js (a b c : list Z) :
  fold_left (fun st i => fold_left (fun st' j => copy_cell i j st') js st) [2; 1] [a; b; c] =
  [a;
   fold_left (fun d j => <[Z.to_nat j := char_at a j]> d) js b;
   fold_left (fun d j => <[Z.to_nat j := char_at b j]> d) js c].
Proof.
  cbn [fold_left]. rewrite fold_copy_cell_2, fold_copy_cell_1. reflexivity.
Qed.

Lemma moveCommandsUp_rows s (a b c : list Z) :
  command_stack s = [a; b; c] ->
  length a = 128%nat -> length b = 128%nat -> length c = 128%nat ->
  moveCommandsUp s = Done tt (set_stack [a; a; b] s).
Proof.
  intros Hst Ha Hb Hc. unfold moveCommandsUp, modify. rewrite Hst.
  replace (rev (upto 1 (Z.to_nat (SAVED_MAX - 1)))) with [2; 1] by reflexivity.
  rewrite fold_copy_rows, !copy_row_whole by assumption.
  reflexivity.
Qed.

Lemma set_stack_same s : set_stack (command_stack s) s = s.
Proof. destruct s; reflexivity. Qed.

Lemma to_uint_next_distance e bp :
  0 < to_uint (e - bp) -> to_uint (e - (bp + 1)) = to_uint (e - bp) - 1.
Proof. intros H. uint_arith. Qed.

(** The loop of [copyCommand], on the row it writes. *)
Lemma copy_loop_row (k p dn : nat) (bp : Z) (s : console) (row0 : list Z) rest :
  command_stack s = row0 :: rest ->
  length row0 = 128%nat ->
  (k + p = 128)%nat -> (dn <= k)%nat ->
  0 <= input_e s < 2 ^ 32 ->
  0 <= bp -> bp + Z.of_nat dn < 2 ^ 31 ->
  Z.of_nat dn = to_uint (input_e s - bp) ->
  copy_loop k (Z.of_nat p) bp s =
  set_stack
    ((take p row0 ++ map nul_of_newline (slice (input_buf s) bp (Z.of_nat dn))
      ++ drop (p + dn) row0) :: rest) s.
Proof.
  revert p dn bp s row0.
  assert (Hstop : forall p (s : console) (row0 : list Z) bp,
             command_stack s = row0 :: rest ->
             s = set_stack ((take p row0 ++ map nul_of_newline (slice (input_buf s) bp 0)
                             ++ drop (p + 0) row0) :: rest) s).
  { intros p s row0 bp Hst. rewrite slice_nil, Nat.add_0_r. simpl.
    rewrite take_drop, <- Hst. symmetry. apply set_stack_same. }
  induction k as [|k IH]; intros p dn bp s row0 Hst Hlen Hk Hdn He Hbp Hbd Hd.
  - assert (dn = 0%nat) as -> by lia. exact (Hstop p s row0 bp Hst).
  - cbn [copy_loop]. rewrite to_uint_id by lia.
    destruct (bp =? input_e s) eqn:E.
    { apply Z.eqb_eq in E. rewrite E, Z.sub_diag in Hd.
      assert (dn = 0%nat) as -> by (change (to_uint 0) with 0 in Hd; lia).
      exact (Hstop p s row0 (input_e s) Hst). }
    apply Z.eqb_neq in E.
    assert (Hpos : 0 < to_uint (input_e s - bp))
      by (apply to_uint_distance_pos; [lia | lia | congruence]).
    destruct dn as [|dn]; [lia|].
    rewrite Z.rem_mod_nonneg by (unfold INPUT_BUF; lia).
    rewrite to_int_id by lia.
    replace (Z.of_nat p + 1) with (Z.of_nat (S p)) by lia.
    rewrite Hst. cbn [stack_row Z.leb Z.compare Z.to_nat lookup list_lookup default].
    set (x := if char_at (input_buf s) (bp mod INPUT_BUF) =? NL
              then 0 else char_at (input_buf s) (bp mod INPUT_BUF)).
    rewrite Nat2Z.id. cbn [insert list_insert].
    rewrite (IH (S p) dn (bp + 1) _ (<[p := x]> row0));
      [| reflexivity | rewrite length_insert; exact Hlen | lia | lia
       | exact He | lia | lia
       | simpl input_e; rewrite to_uint_next_distance by exact Hpos; lia ].
    unfold set_stack. simpl. f_equal. f_equal.
    rewrite (take_S_r _ _ x) by (apply list_lookup_insert_eq; lia).
    rewrite take_insert_ge by lia.
    rewrite drop_insert_lt by lia.
    rewrite (slice_cons _ bp (Z.of_nat (S dn))) by lia.
    replace (Z.of_nat (S dn) - 1) with (Z.of_nat dn) by lia.
    cbn [map]. fold x. unfold nul_of_newline at 2. fold x.
    rewrite <- app_assoc. replace (p + S dn)%nat with (S (p + dn)) by lia.
    reflexivity.
Qed.

Lemma history_row_short (line : list Z) :
  (length line <= 128)%nat ->
  history_row line = map nul_of_newline line ++ replicate (128 - length line) 0.
Proof.
  intros H. unfold history_row.
  rewrite take_app, length_map, take_ge by (rewrite length_map; lia).
  rewrite take_replicate. do 2 f_equal. lia.
Qed.

Lemma history_row_newline (line : list Z) :
  (length line < 128)%nat -> history_row (line ++ [NL]) = history_row line.
Proof.
  intros H. rewrite !history_row_short by (rewrite ?length_app; simpl; lia).
  rewrite map_app, length_app, <- app_assoc. simpl.
  replace (128 - length line)%nat with (S (128 - (length line + 1))) by lia.
  reflexivity.
Qed.

(** [copyCommand] pushes the line between [input.w] and [input.e]. *)
Lemma copyCommand_push s :
  well_formed s -> input_w s + 128 < 2 ^ 31 -> uncommitted s <= 128 ->
  copyCommand s =
  Done tt (set_stack (push_row (history_row (edit_line s)) (command_stack s)) s).
Proof.
  intros (Hr & Hw & He & Hbuf & Hlen & Hrows) Hint Hu.
  destruct (command_stack s) as [|a [|b [|c [|? ?]]]] eqn:Hst; try discriminate.
  apply Forall_cons in Hrows as [Ha Hrows].
  apply Forall_cons in Hrows as [Hb Hrows].
  apply Forall_cons in Hrows as [Hc _].
  unfold copyCommand.
  rewrite (bind_Done _ _ _ _ _ (moveCommandsUp_rows s a b c Hst Ha Hb Hc)).
  unfold clear_row0, bind, modify.
  cbn [command_stack input_w input_e input_buf set_stack insert list_insert].
  rewrite to_int_id by lia.
  pose proof (to_uint_range (input_e s - input_w s)) as Hd.
  rewrite (copy_loop_row 128 0 (Z.to_nat (uncommitted s)) (input_w s) _
             (replicate 128 0) [a; b]);
    [ | reflexivity | apply length_replicate | lia | unfold uncommitted in *; lia
      | exact He | lia | unfold uncommitted in *; lia
      | unfold uncommitted in *; simpl input_e; lia ].
  unfold push_row, edit_line. cbn [stack_row Z.leb Z.compare Z.to_nat lookup list_lookup default].
  cbn [Pos.to_nat Pos.iter_op Nat.add lookup list_lookup default].
  unfold set_stack. cbn [input_buf panicked cons_locking intena input_r input_w input_e
                          command_stack command_ptr saved history_color out].
  rewrite Z2Nat.id by (unfold uncommitted; lia).
  rewrite history_row_short by (rewrite length_slice; lia).
  rewrite take_0, length_slice, drop_replicate. reflexivity.
Qed.

(** ** The commit *)

Lemma char_at_insert_ne (buf : list Z) (i j x : Z) :
  0 <= i -> 0 <= j -> i <> j -> char_at (<[Z.to_nat i := x]> buf) j = char_at buf j.
Proof.
  intros Hi Hj Hne. unfold char_at.
  rewrite list_lookup_insert_ne by lia. reflexivity.
Qed.

Lemma char_at_insert_eq (buf : list Z) (i x : Z) :
  0 <= i < Z.of_nat (length buf) -> char_at (<[Z.to_nat i := x]> buf) i = x.
Proof.
  intros Hi. unfold char_at. rewrite (proj2 (Z.leb_le _ _)) by lia.
  rewrite list_lookup_insert_eq by lia. reflexivity.
Qed.

Lemma slice_insert_outside (buf : list Z) (from len pos x : Z) :
  0 <= pos ->
  (forall i, 0 <= i < len -> (from + i) mod INPUT_BUF <> pos) ->
  slice (<[Z.to_nat pos := x]> buf) from len = slice buf from len.
Proof.
  intros Hpos Hout. unfold slice. apply map_ext_in. intros i Hi.
  unfold upto in Hi. apply in_map_iff in Hi as (k & <- & Hk). apply in_seq in Hk.
  apply char_at_insert_ne.
  - exact Hpos.
  - apply Z.mod_pos_bound. reflexivity.
  - intros Heq. apply (Hout (0 + Z.of_nat k)); [lia | auto].
Qed.

(** The line after one more byte is stored at [input.e]. *)
Lemma edit_line_put_edit c s :
  well_formed s -> uncommitted s < INPUT_BUF ->
  edit_line (final (put_edit c s)) = edit_line s ++ [to_char c].
Proof.
  intros (Hr & Hw & He & Hbuf & _) Hu. unfold put_edit, modify, edit_line, uncommitted in *.
  cbn [final input_buf input_w input_e set_e set_buf].
  pose proof (to_uint_range (input_e s - input_w s)) as Hd.
  replace (to_uint (to_uint (input_e s + 1) - input_w s))
    with (to_uint (input_e s - input_w s) + 1) by uint_arith.
  rewrite slice_snoc by lia.
  replace ((input_w s + to_uint (input_e s - input_w s)) mod INPUT_BUF)
    with (input_e s mod INPUT_BUF) by uint_arith.
  rewrite char_at_insert_eq
    by (rewrite Hbuf; pose proof (Z.mod_pos_bound (input_e s) INPUT_BUF);
        unfold INPUT_BUF in *; lia).
  f_equal. apply slice_insert_outside.
  - apply Z.mod_pos_bound. reflexivity.
  - intros i Hi. uint_arith.
Qed.

(** The line [hi] committed by the end-of-file code is stored with the
    code: [copyCommand] turns only the newline into NUL. *)
Lemma eof_commit_stores_terminator :
  stack_row (command_stack hi_eof) 0 = history_row [ch "h"; ch "i"; CTRL_D] /\
  history_row [ch "h"; ch "i"; CTRL_D] <> history_row [ch "h"; ch "i"].
Proof. vm_compute. split; [reflexivity | discriminate]. Qed.

(** C4 at the failing input. 127 committed bytes are unread and nothing is
    typed on the current line. The key [x] is accepted, fills the buffer and
    so commits: [input.w] is advanced to [input.e] and the committed line is
    the one byte [x], without terminator. The test [input.e != input.w + 1]
    takes it for an empty line: nothing is pushed, [saved] and the history
    are as before. *)
Theorem full_buffer_commit_skips_line :
  pending one_byte_free = 127 /\ uncommitted one_byte_free = 0 /\
  input_w one_byte_free = 127 /\
  input_w line_x_full = 128 /\ input_e line_x_full = 128 /\
  slice (input_buf line_x_full) (input_w one_byte_free) 1 = [ch "x"] /\
  saved line_x_full = saved one_byte_free /\
  command_stack line_x_full = command_stack one_byte_free.
Proof. vm_compute. repeat split; reflexivity. Qed.

(** X27. What a commit does to the history, on a console that runs (the
    flag is not set), whose indices are 32-bit values and whose arrays have
    their sizes, with at most [SAVED_MAX] valid entries, fewer than
    [INPUT_BUF] bytes from [input.w] to [input.e], and [input.w + INPUT_BUF]
    below [2^31]: [copyCommand] keeps its position in an [int], which past
    that bound overflows or is negative, and the bytes it then copies are
    not those of the line. A byte of the [default] case
    that is accepted and is the newline or the end-of-file code, or fills
    the buffer, commits: [input.w] becomes [input.e]. If a line was typed
    before it, an entry is pushed at index 0 of the history, the entries 0
    and 1 move to 1 and 2, the entry 2 is lost, and [saved] grows by one up
    to [SAVED_MAX]; the entry is the line (newlines as NUL, filled with
    NUL), without the newline that commits it but with the end-of-file code,
    or the byte that fills the buffer, that commits it. If no line was typed
    before a newline or an end-of-file code, nothing is pushed. *)
Lemma commit_pushes_line (c : Z) (d : bool) (s : console) :
  well_formed s -> panicked s = false -> saved s <= SAVED_MAX ->
  default_key c = true -> c <> 0 ->
  pending s < INPUT_BUF -> uncommitted s < INPUT_BUF -> input_w s + 128 < 2 ^ 31 ->
  cooked c = NL \/ cooked c = CTRL_D \/ pending s + 1 = INPUT_BUF ->
  exists s',
    handleKey c d s = Done d s' /\
    input_w s' = input_e s' /\ input_e s' = to_uint (input_e s + 1) /\
    (0 < uncommitted s ->
       command_stack s' =
         push_row (history_row (stored_line (edit_line s) (cooked c))) (command_stack s) /\
       saved s' = Z.min (saved s + 1) SAVED_MAX) /\
    (uncommitted s = 0 -> cooked c = NL \/ cooked c = CTRL_D ->
       command_stack s' = command_stack s /\ saved s' = saved s).
Proof.
  intros Hwf Hp Hsaved Hc Hc0 Hpend Hunc Hint Htrig.
  rewrite handleKey_default by exact Hc.
  rewrite (proj2 (Z.eqb_neq c 0) Hc0), (proj2 (Z.ltb_lt _ _) Hpend).
  cbn [negb andb]. fold (cooked c).
  pose proof (edit_line_put_edit (cooked c) s Hwf Hunc) as Hline.
  destruct Hwf as (Hr & Hw & He & Hbuf & Hlen & Hrows).
  unfold bind at 1. unfold put_edit at 1, modify at 1.
  set (s1 := set_e _ _) in *.
  unfold bind at 1. unfold modify at 1.
  unfold bind at 1. rewrite consputc_running by exact Hp.
  set (s3 := emit _ _).
  assert (Hs3 : input_buf s3 = input_buf s1 /\ input_r s3 = input_r s /\
                input_w s3 = input_w s /\ input_e s3 = to_uint (input_e s + 1) /\
                command_stack s3 = command_stack s /\ saved s3 = saved s /\
                panicked s3 = false).
  { unfold s3. destruct (cooked c =? BACKSPACE); simpl; auto 10. }
  destruct Hs3 as (Hb3 & Hr3 & Hw3 & He3 & Hst3 & Hsv3 & Hp3).
  assert (Hline3 : edit_line s3 = edit_line s ++ [to_char (cooked c)]).
  { rewrite <- Hline. unfold edit_line, uncommitted. simpl final.
    rewrite Hb3, Hw3, He3. reflexivity. }
  assert (Hu3 : uncommitted s3 = uncommitted s + 1).
  { unfold uncommitted in *. rewrite He3, Hw3.
    pose proof (to_uint_range (input_e s - input_w s)). uint_arith. }
  unfold bind at 1.
  assert (Htest : (cooked c =? NL) || (cooked c =? CTRL_D)
                  || (input_e s3 =? to_uint (input_r s3 + INPUT_BUF)) = true).
  { destruct Htrig as [-> | [-> | Hfull]]; [reflexivity | reflexivity |].
    rewrite He3, Hr3. rewrite !orb_true_iff. right. apply Z.eqb_eq.
    pose proof (to_uint_range (input_e s - input_r s)). uint_arith. }
  rewrite Htest. unfold commit.
  destruct (Z.eq_dec (uncommitted s) 0) as [Hempty|Hline0].
  - (* nothing was typed before the byte *)
    assert (Heq : (input_e s3 =? to_uint (input_w s3 + 1)) = true).
    { apply Z.eqb_eq. rewrite He3, Hw3. uint_arith. }
    rewrite Heq. cbn [negb]. unfold bind, ret, modify.
    eexists. split; [reflexivity|]. cbn [input_w input_e set_w command_stack saved].
    split; [reflexivity|]. split; [exact He3|]. split; [lia|].
    intros _ _. auto.
  - assert (Hne : (input_e s3 =? to_uint (input_w s3 + 1)) = false).
    { apply Z.eqb_neq. rewrite He3, Hw3.
      pose proof (to_uint_range (input_e s - input_w s)). uint_arith. }
    rewrite Hne. cbn [negb].
    assert (Hwf3 : well_formed s3).
    { unfold well_formed. rewrite Hr3, Hw3, He3, Hst3, Hb3.
      unfold s1. cbn [input_buf set_e set_buf]. rewrite length_insert.
      pose proof (to_uint_range (input_e s + 1)). tauto. }
    pose proof (copyCommand_push s3 Hwf3) as Hcopy.
    rewrite Hw3, Hu3, Hline3, Hst3 in Hcopy.
    unfold bind at 1. unfold bind at 1.
    rewrite Hcopy by (unfold INPUT_BUF in *; lia).
    unfold modify, ret. cbn [saved set_stack].
    eexists. split; [reflexivity|].
    split; [destruct (saved s3 <? SAVED_MAX); reflexivity|].
    split; [destruct (saved s3 <? SAVED_MAX); exact He3|].
    split; [|intros; lia].
    intros _. split.
    + assert (Hrow : history_row (edit_line s ++ [to_char (cooked c)]) =
                     history_row (stored_line (edit_line s) (cooked c))).
      { unfold stored_line. destruct (cooked c =? NL) eqn:En; [|reflexivity].
        apply Z.eqb_eq in En. rewrite En. change (to_char NL) with NL.
        apply history_row_newline. unfold edit_line. rewrite length_slice.
        pose proof (to_uint_range (input_e s - input_w s)).
        unfold uncommitted, INPUT_BUF in *. lia. }
      rewrite <- Hrow. destruct (saved s3 <? SAVED_MAX); reflexivity.
    + rewrite Hsv3. unfold SAVED_MAX in *.
      destruct (saved s <? 3) eqn:E; cbn [saved set_saved set_w set_stack];
        rewrite ?Hsv3; lia.
Qed.

Lemma commit_pushes_line_example :
  exists s',
    handleKey CTRL_D false (after (Consoleintr [ch "h"; ch "i"]) init) = Done false s' /\
    command_stack s' =
      [history_row [ch "h"; ch "i"; CTRL_D]; replicate 128 0; replicate 128 0] /\
    saved s' = 1.
Proof.
  destruct (commit_pushes_line CTRL_D false (after (Consoleintr [ch "h"; ch "i"]) init))
    as (s' & Hrun & _ & _ & Hpush & _).
  - vm_compute. repeat split; try discriminate; repeat constructor.
  - reflexivity.
  - vm_compute. discriminate.
  - reflexivity.
  - discriminate.
  - vm_compute. reflexivity.
  - vm_compute. reflexivity.
  - vm_compute. reflexivity.
  - right. left. reflexivity.
  - exists s'. split; [exact Hrun|].
    destruct Hpush as [-> ->]; [vm_compute; reflexivity|].
    split; vm_compute; reflexivity.
Defined.

(** ** Recalling a line *)

(** [writeCommand] looks for a newline at the end of the entry, but
    [copyCommand] stores the end of a line as NUL: when the entry holds no
    newline the loop stores and echoes all [INPUT_BUF] bytes of it. *)
Lemma write_loop_whole_row k i s :
  panicked s = false -> 0 <= input_e s < 2 ^ 32 ->
  (forall j, i <= j < i + Z.of_nat k ->
             char_at (stack_row (command_stack s) (command_ptr s)) j <> NL) ->
  exists s',
    write_loop k i s = Done tt s' /\
    input_e s' = to_uint (input_e s + Z.of_nat k) /\
    input_r s' = input_r s /\ input_w s' = input_w s /\
    panicked s' = false.
Proof.
  revert i s. induction k as [|k IH]; intros i s Hp He Hrow.
  - exists s. simpl. rewrite Z.add_0_r, to_uint_id by exact He. auto.
  - cbn [write_loop].
    rewrite (proj2 (Z.eqb_neq _ _) (Hrow i ltac:(lia))).
    unfold bind at 1. unfold put_edit at 1, modify at 1.
    set (s1 := set_e _ _).
    unfold bind at 1. rewrite consputc_running by exact Hp.
    set (s2 := emit _ _).
    assert (Hs2 : input_e s2 = to_uint (input_e s + 1) /\ input_r s2 = input_r s /\
                  input_w s2 = input_w s /\ panicked s2 = false /\
                  command_stack s2 = command_stack s /\ command_ptr s2 = command_ptr s).
    { unfold s2. destruct (_ =? BACKSPACE); simpl; auto 10. }
    destruct Hs2 as (He2 & Hr2 & Hw2 & Hp2 & Hst2 & Hptr2).
    destruct (IH (i + 1) s2 Hp2) as (s' & Hrun & He' & Hr' & Hw' & Hp').
    + rewrite He2. apply to_uint_range.
    + intros j Hj. rewrite Hst2, Hptr2. apply Hrow. lia.
    + exists s'. split; [exact Hrun|].
      rewrite He', He2, Hr', Hr2, Hw', Hw2.
      repeat split; try assumption. uint_arith.
Qed.

(** C3 at the failing input. The line [a] was committed and read; its entry
    is [a] followed by NUL bytes. "Up" leaves [input.w] alone, but it puts
    128 bytes in the edit region, [a] and 127 NUL bytes, and echoes each of
    them: not the one character of the stored line. *)
Theorem recall_writes_whole_row :
  command_ptr browsing_a = 0 /\
  stack_row (command_stack line_a_read) 0 = history_row [ch "a"] /\
  edit_line line_a_read = [] /\
  input_w browsing_a = input_w line_a_read /\
  uncommitted browsing_a = 128 /\
  edit_line browsing_a = ch "a" :: replicate 127 0 /\
  out browsing_a =
    out line_a_read ++ recall_echo (ch "a") ++ concat (replicate 127 (recall_echo 0)).
Proof. vm_compute. repeat split; reflexivity. Qed.

(** ** The bound on the edit region *)

(** C1 at the failing input. The line [a] is committed and not read:
    [input.e - input.r] is 2. "Up" recalls it: [writeCommand] stores 128
    bytes without the test of the [default] case, [input.e - input.r]
    becomes 130, and the two committed bytes that no reader has taken are
    overwritten. *)
Theorem recall_overfills_buffer :
  reachable line_a /\
  pending line_a = 2 /\ pending line_a <= INPUT_BUF /\
  committed line_a = [ch "a"; NL] /\
  pending (after (Consoleintr [S_ KEY_UP]) line_a) = 130 /\
  ~ pending (after (Consoleintr [S_ KEY_UP]) line_a) <= INPUT_BUF /\
  committed (after (Consoleintr [S_ KEY_UP]) line_a) = [0; 0].
Proof.
  assert (E2 : pending line_a = 2) by (vm_compute; reflexivity).
  assert (E130 : pending (after (Consoleintr [S_ KEY_UP]) line_a) = 130)
    by (vm_compute; reflexivity).
  split; [exact (later_call init _ init (later_now init))|].
  split; [exact E2|].
  split; [rewrite E2; unfold INPUT_BUF; lia|].
  split; [vm_compute; reflexivity|].
  split; [exact E130|].
  split; [rewrite E130; unfold INPUT_BUF; lia|].
  vm_compute. reflexivity.
Qed.

(** ** Direct edits and the history cursor *)

(** C6 at the failing input. While the recalled line [a] is displayed
    ([command_ptr] is 0), the kill-line code erases the line and leaves
    [command_ptr] at 0, where backspace sets it to -1; and a typed character
    is dropped, the recalled line having filled the buffer, so that it does
    not leave the history either. *)
Theorem kill_line_keeps_history_cursor :
  command_ptr browsing_a = 0 /\
  uncommitted (after (Consoleintr [CTRL_U]) browsing_a) = 0 /\
  command_ptr (after (Consoleintr [CTRL_U]) browsing_a) = 0 /\
  command_ptr (after (Consoleintr [CTRL_H]) browsing_a) = -1 /\
  pending browsing_a = INPUT_BUF /\
  handleKey (ch "x") false browsing_a = Done false browsing_a.
Proof.
  split; [vm_compute; reflexivity|].
  split; [vm_compute; reflexivity|].
  split; [vm_compute; reflexivity|].
  split; [vm_compute; reflexivity|].
  split; [vm_compute; reflexivity|].
  apply handleKey_full; vm_compute; reflexivity.
Qed.

(** ** What the sibling paths do *)

Lemma ptr_same_trans a b c : ptr_same a b -> ptr_same b c -> ptr_same a c.
Proof. unfold ptr_same. congruence. Qed.

Lemma er_same_trans a b c : er_same a b -> er_same b c -> er_same a c.
Proof. unfold er_same. intros [] []. split; congruence. Qed.

Lemma consputc_ptr_same c : keeps ptr_same (consputc c).
Proof. intros s. apply (consputc_frame c s). Qed.

Lemma consputc_er_same c : keeps er_same (consputc c).
Proof.
  intros s. destruct (consputc_frame c s) as (_ & _ & Hr & _). split; [|exact Hr].
  destruct (panicked s) eqn:Hp.
  - rewrite consputc_panicked by assumption. reflexivity.
  - rewrite consputc_running by assumption. destruct (c =? BACKSPACE); reflexivity.
Qed.

Lemma echo_and_commit_keeps R c d :
  (forall s, R s s) -> (forall a b c, R a b -> R b c -> R a c) ->
  (forall c, keeps R (consputc c)) ->
  (forall v s, R s (set_stack v s)) ->
  (forall s, saved s < SAVED_MAX -> R s (set_saved (saved s + 1) s)) ->
  (forall s, R s (set_w (input_e s) s)) ->
  keeps R (echo_and_commit c d).
Proof.
  intros Hrefl Htrans Hput Hstack Hsaved Hw. unfold echo_and_commit.
  apply pres_bind; [exact Htrans | apply Hput | intros _].
  apply pres_bind; [exact Htrans | | intros _; apply pres_ret; exact Hrefl].
  intros s. destruct (_ || _); [|apply Hrefl].
  apply (pres_commit R); assumption.
Qed.

(** An accepted byte of the [default] case sets [command_ptr] to -1. *)
Lemma insertion_resets_cursor c d s :
  default_key c = true -> c <> 0 -> pending s < INPUT_BUF ->
  command_ptr (final (handleKey c d s)) = -1.
Proof.
  intros Hc Hc0 Hpend. rewrite handleKey_default by exact Hc.
  rewrite (proj2 (Z.eqb_neq c 0) Hc0), (proj2 (Z.ltb_lt _ _) Hpend).
  cbn [negb andb]. fold (cooked c).
  unfold bind at 1. unfold put_edit at 1, modify at 1.
  unfold bind at 1. unfold modify at 1.
  fold (echo_and_commit (cooked c) d).
  assert (H : keeps ptr_same (echo_and_commit (cooked c) d))
    by (apply echo_and_commit_keeps;
        first [exact ptr_same_trans | exact consputc_ptr_same | keeps_side]).
  unfold keeps, ptr_same in H. rewrite H. reflexivity.
Qed.

(** A backspace that erases a byte sets [command_ptr] to -1. *)
Lemma backspace_resets_cursor c d s :
  c = CTRL_H \/ c = DEL -> input_e s <> input_w s -> panicked s = false ->
  command_ptr (final (handleKey c d s)) = -1.
Proof.
  intros Hc Hne Hp.
  assert (Hcase : handleKey c d s =
            (modify (fun s => set_e (to_uint (input_e s - 1)) s) >>
             consputc BACKSPACE >> modify (set_ptr (-1)) >> ret d) s).
  { unfold handleKey. destruct Hc as [-> | ->]; cbn [Z.eqb CTRL_P CTRL_U CTRL_H DEL];
      simpl; rewrite (proj2 (Z.eqb_neq _ _) Hne); reflexivity. }
  rewrite Hcase. unfold bind at 1. unfold modify at 1.
  unfold bind at 1. rewrite consputc_running by exact Hp. reflexivity.
Qed.

(** The guarded path: a byte of the [default] case keeps
    [input.e - input.r <= INPUT_BUF]. *)
Lemma insertion_keeps_edit_bound c d s :
  default_key c = true -> pending s <= INPUT_BUF ->
  pending (final (handleKey c d s)) <= INPUT_BUF.
Proof.
  intros Hc Hb. rewrite handleKey_default by exact Hc.
  destruct (negb (c =? 0) && (pending s <? INPUT_BUF)) eqn:E; [|exact Hb].
  apply andb_true_iff in E as [_ Hlt]. apply Z.ltb_lt in Hlt.
  fold (cooked c).
  unfold bind at 1. unfold put_edit at 1, modify at 1.
  unfold bind at 1. unfold modify at 1.
  fold (echo_and_commit (cooked c) d).
  assert (H : keeps er_same (echo_and_commit (cooked c) d))
    by (apply echo_and_commit_keeps;
        first [exact er_same_trans | exact consputc_er_same | keeps_side]).
  unfold keeps, er_same in H.
  unfold pending in *. rewrite (proj1 (H _)), (proj2 (H _)). simpl.
  pose proof (to_uint_range (input_e s - input_r s)). uint_arith.
Qed.

(** Every recall of an entry that holds no newline stores the 128 bytes of
    the entry after what [clearCommandLine] has left. *)
Lemma writeCommand_whole_row s :
  panicked s = false -> cursors_ok s ->
  (forall j, 0 <= j < 128 ->
             char_at (stack_row (command_stack s) (command_ptr s)) j <> NL) ->
  exists s1 s',
    clearCommandLine s = Done tt s1 /\
    writeCommand s = Done tt s' /\
    input_w s' = input_w s /\
    input_e s' = to_uint (input_e s1 + 128).
Proof.
  intros Hp Hc Hrow.
  destruct (returns_clearCommandLine s Hp) as ([] & s1 & Hs1 & Hp1).
  pose proof (clearCommandLine_frame s) as Hf. rewrite Hs1 in Hf.
  destruct Hf as (_ & _ & _ & Hw1 & Hst1 & Hptr1 & _). simpl in Hw1, Hst1, Hptr1.
  assert (Hc1 : cursors_ok s1).
  { pose proof (pres_clearCommandLine cursors_step cursors_step_refl cursors_step_trans
                  consputc_cursors_step) as H.
    specialize (H ltac:(keeps_side) s). rewrite Hs1 in H. apply H, Hc. }
  destruct (write_loop_whole_row 128 0 (set_color 1 s1)) as (s2 & Hrun & He2 & _ & Hw2 & _).
  - exact Hp1.
  - apply Hc1.
  - intros j Hj. simpl. rewrite Hst1, Hptr1. apply Hrow. lia.
  - exists s1, (set_color 0 s2). split; [exact Hs1|].
    split.
    + unfold writeCommand. unfold bind at 1. rewrite Hs1.
      unfold bind at 1. unfold modify at 1.
      unfold bind at 1. rewrite Hrun. reflexivity.
    + simpl. rewrite Hw2, He2. simpl. auto.
Qed.

(** ** The screen *)

Lemma cursor_of_registers m pos :
  0 <= pos < 65536 ->
  Screen.cursor (Screen.mkScreen m (Z.land (Z.shiftr pos 8) 0xff) (Z.land pos 0xff)) = pos.
Proof.
  intros Hpos. unfold Screen.cursor. cbn [Screen.reg14 Screen.reg15].
  apply Z.bits_inj'. intros n Hn.
  rewrite Z.lor_spec, Z.land_spec. change 255 with (Z.ones 8).
  rewrite Z.testbit_ones_nonneg by lia.
  destruct (Z.lt_ge_cases n 8) as [Hlt|Hge].
  - rewrite Z.shiftl_spec_low by lia.
    rewrite (proj2 (Z.ltb_lt n 8)) by lia. rewrite andb_true_r. reflexivity.
  - rewrite Z.shiftl_spec, Z.land_spec, Z.shiftr_spec by lia.
    rewrite Z.testbit_ones_nonneg by lia.
    rewrite (proj2 (Z.ltb_ge n 8)) by lia. rewrite andb_false_r, orb_false_r.
    replace (n - 8 + 8) with n by lia.
    destruct (Z.lt_ge_cases n 16) as [Hlt|Hge16].
    + rewrite (proj2 (Z.ltb_lt (n - 8) 8)) by lia. apply andb_true_r.
    + rewrite (proj2 (Z.ltb_ge (n - 8) 8)) by lia. rewrite andb_false_r.
      symmetry. destruct (Z.eq_dec pos 0) as [->|Hne]; [apply Z.bits_0|].
      apply Z.bits_above_log2; [lia|].
      assert (Z.log2 pos < 16) by (apply Z.log2_lt_pow2; lia). lia.
Qed.

Lemma length_scroll_clear pos (m : list Z) :
  length m = 2000%nat -> 0 <= pos <= 24 * 80 ->
  length (Screen.clear_from pos (Screen.scroll_rows m)) = 2000%nat.
Proof.
  intros Hm Hpos. unfold Screen.clear_from, Screen.scroll_rows.
  rewrite !length_app, length_take, length_replicate, !length_drop, !length_app,
    length_take, !length_drop.
  lia.
Qed.

(** The end of [cgaputc], from the new position [p] and memory [m]. *)
Lemma cgaputc_tail (p : Z) (m : list Z) :
  0 <= p <= 24 * 80 -> length m = 2000%nat ->
  exists v',
    (if (p <? 0) || (p >? 25 * 80) then None
     else
       let '(pos, m) :=
         if Z.quot p 80 >=? 24
         then (p - 80, Screen.clear_from (p - 80) (Screen.scroll_rows m))
         else (p, m) in
       Some {| Screen.crt := <[Z.to_nat pos := Z.lor 32 0x0700]> m;
               Screen.reg14 := Z.land (Z.shiftr pos 8) 0xff;
               Screen.reg15 := Z.land pos 0xff |}) = Some v' /\
    Screen.valid v' /\
    Screen.cursor v' = (if p =? 24 * 80 then 23 * 80 else p) /\
    Screen.crt v' !! Z.to_nat (Screen.cursor v') = Some blank_cell /\
    Screen.crt v' =
      <[Z.to_nat (if p =? 24 * 80 then 23 * 80 else p) := blank_cell]>
        (if p =? 24 * 80 then Screen.clear_from (23 * 80) (Screen.scroll_rows m) else m).
Proof.
  intros Hp Hm.
  rewrite (proj2 (Z.ltb_ge p 0)) by lia.
  destruct (p >? 25 * 80) eqn:E; [lia|]. cbn [orb].
  rewrite Z.quot_div_nonneg by lia.
  destruct (Z.eq_dec p (24 * 80)) as [->|Hne].
  - change (24 * 80 / 80 >=? 24) with true. cbn iota.
    eexists. split; [reflexivity|].
    rewrite Z.eqb_refl.
    assert (Hc : Screen.cursor
                   {| Screen.crt := <[Z.to_nat (24 * 80 - 80) := Z.lor 32 1792]>
                        (Screen.clear_from (24 * 80 - 80) (Screen.scroll_rows m));
                      Screen.reg14 := Z.land (Z.shiftr (24 * 80 - 80) 8) 255;
                      Screen.reg15 := Z.land (24 * 80 - 80) 255 |} = 23 * 80)
      by reflexivity.
    unfold Screen.valid. rewrite Hc. cbn [Screen.crt].
    rewrite length_insert, length_scroll_clear by lia.
    split; [lia|]. split; [reflexivity|]. split; [|reflexivity].
    apply list_lookup_insert_eq. rewrite length_scroll_clear by lia. lia.
  - assert (Hq : (p / 80 >=? 24) = false).
    { destruct (p / 80 >=? 24) eqn:Eq; [|reflexivity].
      exfalso. assert (24 <= p / 80) by lia.
      assert (p / 80 < 24) by (apply Z.div_lt_upper_bound; lia). lia. }
    rewrite Hq. cbn iota.
    eexists. split; [reflexivity|].
    rewrite (proj2 (Z.eqb_neq _ _) Hne).
    unfold Screen.valid. rewrite cursor_of_registers by lia. cbn [Screen.crt].
    rewrite length_insert.
    split; [lia|]. split; [reflexivity|]. split; [|reflexivity].
    apply list_lookup_insert_eq. lia.
Qed.

Lemma cgaputc_step c hc v :
  Screen.valid v ->
  exists v',
    Screen.cgaputc c hc v = Some v' /\
    Screen.valid v' /\
    Screen.cursor v' = next_cursor c (Screen.cursor v) /\
    Screen.crt v' !! Z.to_nat (Screen.cursor v') = Some blank_cell /\
    Screen.crt v' =
      <[Z.to_nat (next_cursor c (Screen.cursor v)) := blank_cell]>
        (if scrolls c (Screen.cursor v)
         then Screen.clear_from (23 * 80) (Screen.scroll_rows (stored c hc v))
         else stored c hc v).
Proof.
  intros [Hlen Hpos]. unfold Screen.cgaputc, next_cursor, scrolls, stored, glyph.
  set (pos := Screen.cursor v) in *.
  destruct (c =? NL) eqn:En; [|destruct (c =? BACKSPACE) eqn:Eb]; cbn [orb].
  - rewrite Z.rem_mod_nonneg by lia.
    destruct (cgaputc_tail (pos + (80 - pos mod 80)) (Screen.crt v))
      as (v' & Hrun & Hv & Hc & Hb & Hm);
      [Z.div_mod_to_equations; lia | exact Hlen |].
    assert (Hs : (pos + (80 - pos mod 80) =? 24 * 80) = (23 * 80 <=? pos)).
    { destruct (23 * 80 <=? pos) eqn:E; [apply Z.eqb_eq | apply Z.eqb_neq];
        Z.div_mod_to_equations; lia. }
    assert (Hn : (if pos + (80 - pos mod 80) =? 24 * 80 then 23 * 80
                  else pos + (80 - pos mod 80)) = Z.min (80 * (pos / 80 + 1)) (23 * 80)).
    { destruct (_ =? 24 * 80) eqn:E; Z.div_mod_to_equations; lia. }
    exists v'. split; [exact Hrun|]. split; [exact Hv|].
    split; [rewrite Hc; exact Hn|]. split; [exact Hb|].
    rewrite Hm, Hn, Hs. reflexivity.
  - destruct (cgaputc_tail (if pos >? 0 then pos - 1 else pos) (Screen.crt v))
      as (v' & Hrun & Hv & Hc & Hb & Hm);
      [destruct (pos >? 0) eqn:E; lia | exact Hlen |].
    assert (Hs : ((if pos >? 0 then pos - 1 else pos) =? 24 * 80) = false)
      by (apply Z.eqb_neq; destruct (pos >? 0); lia).
    assert (Hn : (if pos >? 0 then pos - 1 else pos) = Z.max 0 (pos - 1))
      by (destruct (pos >? 0) eqn:E; lia).
    rewrite Hs in Hc, Hm. rewrite Hn in Hc, Hm.
    exists v'. split; [exact Hrun|]. split; [exact Hv|].
    split; [exact Hc|]. split; [exact Hb|]. exact Hm.
  - destruct (cgaputc_tail (pos + 1)
                (<[Z.to_nat pos := Z.lor (Z.land c 255) (if hc =? 0 then 1792 else 512)]>
                   (Screen.crt v)))
      as (v' & Hrun & Hv & Hc & Hb & Hm);
      [lia | rewrite length_insert; exact Hlen |].
    assert (Hs : (pos + 1 =? 24 * 80) = (pos =? 24 * 80 - 1))
      by (destruct (pos =? 24 * 80 - 1) eqn:E; lia).
    assert (Hn : (if pos =? 24 * 80 - 1 then 23 * 80 else pos + 1) =
                 (if pos + 1 =? 24 * 80 then 23 * 80 else pos + 1))
      by (rewrite Hs; reflexivity).
    rewrite <- Hn in Hc, Hm. rewrite Hs in Hm.
    exists v'. split; [exact Hrun|]. split; [exact Hv|].
    split; [exact Hc|]. split; [exact Hb|]. exact Hm.
Qed.

Lemma length_stored c hc v :
  length (stored c hc v) = length (Screen.crt v).
Proof. unfold stored. destruct (_ || _); [reflexivity | apply length_insert]. Qed.

Lemma next_cursor_scrolls c pos :
  0 <= pos < 24 * 80 -> scrolls c pos = true -> next_cursor c pos = 23 * 80.
Proof.
  unfold scrolls, next_cursor. intros Hpos.
  destruct (c =? NL); [|destruct (c =? BACKSPACE); [discriminate|]].
  - intros H. apply Z.leb_le in H. Z.div_mod_to_equations. lia.
  - intros ->. reflexivity.
Qed.

(** X1. From a screen with its 25 rows and the cursor in the first 24,
    [cgaputc] does not get to [panic("pos under/overflow")]; it leaves such a
    screen again, with the cursor where [next_cursor] says and a blank cell
    under the cursor. *)
Theorem cgaputc_keeps_cursor_on_screen (c hc : Z) (v : Screen.screen) :
  Screen.valid v ->
  exists v',
    Screen.cgaputc c hc v = Some v' /\
    Screen.valid v' /\
    Screen.cursor v' = next_cursor c (Screen.cursor v) /\
    Screen.crt v' !! Z.to_nat (Screen.cursor v') = Some blank_cell.
Proof.
  intros Hv. destruct (cgaputc_step c hc v Hv) as (v' & H1 & H2 & H3 & H4 & _).
  exists v'. auto.
Qed.

Lemma cgaputc_keeps_cursor_on_screen_witness :
  exists v',
    Screen.cgaputc (ch "a") 0 (Screen.mkScreen (replicate 2000 0) 7 127) = Some v' /\
    Screen.cursor v' = 23 * 80.
Proof.
  destruct (cgaputc_keeps_cursor_on_screen (ch "a") 0
              (Screen.mkScreen (replicate 2000 0) 7 127))
    as (v' & Hrun & _ & Hc & _).
  - split; [reflexivity | vm_compute; split; [intros H; discriminate H | reflexivity]].
  - exists v'. split; [exact Hrun|]. rewrite Hc. reflexivity.
Defined.

(** X2. What [cgaputc] does to the screen memory. When the cursor leaves row
    23 the rows 1 to 23, with the character just stored, become the rows 0
    to 22, row 23 is cleared and starts with the blank under the cursor, and
    row 24 is as before. Otherwise the only cells written are the one of the
    character and the blank under the new cursor. *)
Theorem cgaputc_scrolls_one_row (c hc : Z) (v v' : Screen.screen) :
  Screen.valid v -> Screen.cgaputc c hc v = Some v' ->
  (scrolls c (Screen.cursor v) = true ->
     Screen.cursor v' = 23 * 80 /\
     take (23 * 80) (Screen.crt v') = drop 80 (take (24 * 80) (stored c hc v)) /\
     take 80 (drop (23 * 80) (Screen.crt v')) = blank_cell :: replicate 79 0 /\
     drop (24 * 80) (Screen.crt v') = drop (24 * 80) (Screen.crt v)) /\
  (scrolls c (Screen.cursor v) = false ->
     Screen.crt v' =
       <[Z.to_nat (next_cursor c (Screen.cursor v)) := blank_cell]> (stored c hc v)).
Proof.
  intros Hv Hrun.
  destruct (cgaputc_step c hc v Hv) as (v'' & Hrun' & _ & Hc & _ & Hm).
  rewrite Hrun in Hrun'. injection Hrun' as <-.
  destruct Hv as [Hlen Hpos].
  split; intros Hs; rewrite Hs in Hm; [|exact Hm].
  rewrite (next_cursor_scrolls c _ Hpos Hs) in Hm, Hc.
  split; [exact Hc|].
  pose proof (length_stored c hc v) as Hl. rewrite Hlen in Hl.
  set (m1 := stored c hc v) in *.
  assert (Hrows : length (take (23 * 80) (drop 80 m1)) = (23 * 80)%nat)
    by (rewrite length_take, length_drop; lia).
  assert (Hclear : Screen.clear_from (23 * 80) (Screen.scroll_rows m1) =
                   take (23 * 80) (drop 80 m1) ++ replicate 80 0 ++ drop (24 * 80) m1).
  { unfold Screen.clear_from, Screen.scroll_rows.
    change (Z.to_nat (23 * 80)) with (23 * 80)%nat.
    change (Z.to_nat (24 * 80 - 23 * 80)) with 80%nat.
    rewrite take_app_length' by (symmetry; exact Hrows).
    f_equal. f_equal.
    replace (23 * 80 + 80)%nat with (length (take (23 * 80) (drop 80 m1)) + 80)%nat
      by (rewrite Hrows; reflexivity).
    rewrite drop_app_add, drop_drop. reflexivity. }
  rewrite Hclear in Hm. rewrite Hm.
  change (Z.to_nat (23 * 80)) with (23 * 80)%nat.
  split; [|split].
  - rewrite take_insert_ge by lia. rewrite take_app_length' by (symmetry; exact Hrows).
    rewrite take_drop_commute. reflexivity.
  - rewrite drop_insert_ge by lia. rewrite drop_app_length' by (symmetry; exact Hrows).
    rewrite Nat.sub_diag. reflexivity.
  - rewrite drop_insert_lt by lia.
    replace (24 * 80)%nat with (length (take (23 * 80) (drop 80 m1)) + 80)%nat
      by (rewrite Hrows; reflexivity).
    rewrite drop_app_add.
    rewrite drop_app_length' by (rewrite length_replicate; reflexivity).
    rewrite Hrows. change (23 * 80 + 80)%nat with (24 * 80)%nat.
    unfold m1, stored. destruct (_ || _); [reflexivity|].
    apply drop_insert_lt. lia.
Qed.

Lemma cgaputc_scrolls_one_row_witness :
  exists v',
    Screen.cgaputc (ch "a") 0 (Screen.mkScreen (replicate 2000 0) 7 127) = Some v' /\
    take 80 (drop (23 * 80) (Screen.crt v')) = blank_cell :: replicate 79 0.
Proof.
  eexists. split; [vm_compute; reflexivity|].
  refine (proj1 (proj2 (proj2 (proj1
    (cgaputc_scrolls_one_row (ch "a") 0 (Screen.mkScreen (replicate 2000 0) 7 127) _ _ _)
    _)))).
  - split; [reflexivity | vm_compute; split; [intros H; discriminate H | reflexivity]].
  - vm_compute. reflexivity.
  - vm_compute. reflexivity.
Defined.

(** X3. Whatever the driver has sent to [cgaputc], the screen takes it: from
    a screen with its 25 rows and the cursor in the first 24, no call in a
    trace ends in [panic], and the cursor stays in the first 24 rows. *)
Theorem render_stays_on_screen (evs : list event) (v : Screen.screen) :
  Screen.valid v ->
  exists v', Screen.render evs v = Some v' /\ Screen.valid v'.
Proof.
  revert v. induction evs as [|[c|c color] rest IH]; intros v Hv.
  - exists v. auto.
  - apply IH, Hv.
  - destruct (cgaputc_step c color v Hv) as (v1 & Hrun & Hv1 & _).
    cbn [Screen.render]. rewrite Hrun. apply IH, Hv1.
Qed.

Lemma render_stays_on_screen_witness :
  exists v',
    Screen.render (out browsing_a) (Screen.mkScreen (replicate 2000 0) 0 0) = Some v' /\
    Screen.valid v'.
Proof.
  apply render_stays_on_screen.
  split; [reflexivity | vm_compute; split; [intros H; discriminate H | reflexivity]].
Defined.

(** ** What is sent to the output sink *)

Lemma consputc_sends c : sends (consputc c) [c].
Proof.
  intros s Hp. rewrite consputc_running by exact Hp.
  unfold echo_all, echo, emit, with_out. simpl. rewrite app_nil_r.
  destruct (c =? BACKSPACE); simpl; rewrite <- ?app_assoc; reflexivity.
Qed.

Lemma with_out_same s : with_out (out s) s = s.
Proof. destruct s; reflexivity. Qed.

Lemma echo_all_app color a b : echo_all color (a ++ b) = echo_all color a ++ echo_all color b.
Proof. unfold echo_all. rewrite map_app, concat_app. reflexivity. Qed.

Lemma sends_ret : sends (ret tt) [].
Proof.
  intros s Hp. unfold ret, echo_all. simpl. rewrite app_nil_r, with_out_same. reflexivity.
Qed.

Lemma sends_bind (m1 m2 : M unit) t1 t2 :
  sends m1 t1 -> sends m2 t2 -> sends (m1 >> m2) (t1 ++ t2).
Proof.
  intros H1 H2 s Hp. unfold bind. rewrite (H1 s Hp).
  set (s1 := with_out _ s). rewrite (H2 s1 Hp).
  unfold s1, with_out. simpl. rewrite echo_all_app, app_assoc. reflexivity.
Qed.

Lemma sends_put_all l : sends (put_all l) l.
Proof.
  induction l as [|c l IH]; simpl.
  - apply sends_ret.
  - apply (sends_bind _ _ [c] l); [apply consputc_sends | exact IH].
Qed.

Lemma sends_consolewrite_loop bytes :
  sends (consolewrite_loop bytes) (map (fun b => Z.land b 0xff) bytes).
Proof.
  induction bytes as [|b rest IH]; simpl.
  - apply sends_ret.
  - apply (sends_bind _ _ [Z.land b 255]); [apply consputc_sends | exact IH].
Qed.

(** X4. Unless the flag is set, [consolewrite] returns the number of bytes it
    was given, has sent each byte, cut to 8 bits, to [consputc] in order, and
    has changed nothing but the trace. *)
Theorem consolewrite_sends_bytes (bytes : list Z) (s : console) :
  panicked s = false ->
  consolewrite bytes s =
  Done (Z.of_nat (length bytes))
    (with_out (out s ++ echo_all (history_color s) (map (fun b => Z.land b 0xff) bytes)) s).
Proof.
  intros Hp. unfold consolewrite, bind.
  rewrite (sends_consolewrite_loop bytes s Hp). reflexivity.
Qed.

Lemma consolewrite_sends_bytes_witness :
  consolewrite [ch "o"; ch "k"] init =
  Done 2 (with_out [Uart (ch "o"); Cga (ch "o") 0; Uart (ch "k"); Cga (ch "k") 0] init).
Proof.
  rewrite (consolewrite_sends_bytes [ch "o"; ch "k"] init); reflexivity.
Defined.

(** ** Printing leaves the line editor alone *)

Lemma editor_same_refl s : editor_same s s.
Proof. unfold editor_same. tauto. Qed.

Lemma editor_same_trans a b c : editor_same a b -> editor_same b c -> editor_same a c.
Proof.
  unfold editor_same. intros (?&?&?&?&?&?&?&?) (?&?&?&?&?&?&?&?).
  repeat split; congruence.
Qed.

Lemma consputc_editor_same c : keeps editor_same (consputc c).
Proof.
  intros s. destruct (panicked s) eqn:Hp.
  - rewrite consputc_panicked by exact Hp. unfold editor_same. simpl. tauto.
  - rewrite (consputc_sends c s Hp). unfold editor_same. simpl. tauto.
Qed.

(** X5. [consputc], [consolewrite], [cprintf] and [panic] never touch the
    input buffer, its three cursors, the history, its cursor or the colour
    flag, whether they return or not. *)
Theorem printing_keeps_editor_state (op : call) (s : console) :
  prints_only op = true -> editor_same s (after op s).
Proof.
  destruct op as [c|codes|killed n|bytes|m l p fmt argp|m l p msg stack];
    cbn [prints_only after]; intros Hop; try discriminate.
  - apply consputc_editor_same.
  - apply (consolewrite_keeps editor_same);
      [exact editor_same_refl | exact editor_same_trans | exact consputc_editor_same].
  - apply (pres_cprintf editor_same);
      first [exact editor_same_refl | exact editor_same_trans | exact consputc_editor_same
            | intros; unfold editor_same; simpl; tauto].
  - apply (pres_panic editor_same);
      first [exact editor_same_refl | exact editor_same_trans | exact consputc_editor_same
            | intros; unfold editor_same; simpl; tauto].
Qed.

Lemma printing_keeps_editor_state_witness :
  editor_same browsing_a
    (after (Panic (fun _ => []) 1 (fun i => i) (Some (chars "boom")) []) browsing_a).
Proof. apply printing_keeps_editor_state. reflexivity. Defined.

(** ** Numerals *)






Lemma sends_printint xx base sign : sends (printint xx base sign) (printint_text xx base sign).
Proof. apply sends_put_all. Qed.




(** ** [cprintf] and the message of [panic] *)

Lemma sends_plain_format m fmt argp :
  Forall plain_byte fmt ->
  sends (cprintf_loop m fmt argp) (map (fun f => Z.land f 0xff) fmt).
Proof.
  induction 1 as [|f rest [Hpct Hnul] _ IH]; simpl.
  - apply sends_ret.
  - rewrite (proj2 (Z.eqb_neq _ _) Hnul), (proj2 (Z.eqb_neq _ _) Hpct). cbn [negb].
    apply (sends_bind _ _ [Z.land f 255]); [apply consputc_sends | exact IH].
Qed.

(** X8. A format without conversion is printed as it is: unless the flag is
    set, [cprintf] sends its bytes, cut to 8 bits, to [consputc] in order,
    as [consolewrite] does, and does not look at its arguments. *)
Theorem cprintf_plain_format m l p (fmt argp : list Z) (s : console) :
  Forall plain_byte fmt -> panicked s = false ->
  cprintf m l p (Some fmt) argp s = (consolewrite fmt >> ret tt) s.
Proof.
  intros Hfmt Hp. unfold cprintf, consolewrite, bind.
  rewrite (sends_plain_format m fmt argp Hfmt s Hp).
  rewrite (sends_consolewrite_loop fmt s Hp). reflexivity.
Qed.

Lemma cprintf_plain_format_witness :
  out (final (cprintf (fun _ => []) 0 (fun _ => 0) (Some (chars "ok")) [7] init)) =
  echo_all 0 (chars "ok").
Proof.
  rewrite (cprintf_plain_format (fun _ => []) 0 (fun _ => 0) (chars "ok") [7] init).
  - reflexivity.
  - repeat constructor; discriminate.
  - reflexivity.
Defined.

Lemma sends_panic_header m l :
  sends (cprintf_loop m (chars "lapicid %d: panic: ") [l])
        (chars "lapicid " ++ printint_text (to_int l) 10 1 ++ chars ": panic: ").
Proof.
  change (chars "lapicid %d: panic: ")
    with (chars "lapicid " ++ [ch "%"; ch "d"] ++ chars ": panic: ").
  assert (Hpre : forall pre k t,
             Forall plain_byte pre -> sends k t ->
             forall rest a, (forall s, cprintf_loop m rest a s = k s) ->
             sends (cprintf_loop m (pre ++ rest) a) (map (fun f => Z.land f 0xff) pre ++ t)).
  { intros pre k t Hpre Hk rest a Hrest.
    induction Hpre as [|f pre' [Hpct Hnul] _ IH]; simpl.
    - intros s Hp. rewrite Hrest. apply Hk, Hp.
    - rewrite (proj2 (Z.eqb_neq _ _) Hnul), (proj2 (Z.eqb_neq _ _) Hpct). cbn [negb].
      apply (sends_bind _ _ [Z.land f 255]); [apply consputc_sends | exact IH]. }
  apply (Hpre (chars "lapicid ")
           (printint (to_int l) 10 1 >> cprintf_loop m (chars ": panic: ") [])
           (printint_text (to_int l) 10 1 ++ chars ": panic: ")).
  - repeat constructor; discriminate.
  - apply sends_bind; [apply sends_printint|].
    apply (sends_plain_format m (chars ": panic: ") []).
    repeat constructor; discriminate.
  - reflexivity.
Qed.

Lemma sends_panic_pc m pc :
  sends (cprintf_loop m (chars " %p") [pc]) (ch " " :: printint_text (to_int pc) 16 0).
Proof.
  change (cprintf_loop m (chars " %p") [pc])
    with (consputc (ch " ") >> (printint (to_int pc) 16 0 >> ret tt)).
  apply (sends_bind _ _ [ch " "]); [apply consputc_sends|].
  rewrite <- (app_nil_r (printint_text _ _ _)).
  apply sends_bind; [apply sends_printint | apply sends_ret].
Qed.

(** X9. [panic] with a message without conversion, when the flag is not set
    yet: it never returns, and it stops with interrupts off, [cons.locking]
    cleared and the flag set, after it has printed the header with the APIC
    number in decimal, the message, a newline and the ten caller addresses in
    hexadecimal. *)
Theorem panic_prints_message m l p (msg stack : list Z) (s : console) :
  Forall plain_byte msg -> panicked s = false ->
  panic m l p (Some msg) stack s =
  Spin (set_panicked true
          (with_out (out s ++ echo_all (history_color s) (panic_text l p msg))
             (set_locking false (set_intena false s)))).
Proof.
  intros Hmsg Hp. unfold panic, panic_with, cprintf, cli.
  unfold bind at 1. unfold modify at 1.
  unfold bind at 1. unfold modify at 1.
  set (s0 := set_locking false (set_intena false s)).
  assert (Hp0 : panicked s0 = false) by exact Hp.
  assert (Hpcs : forall l0,
             sends (fold_right (fun i k => cprintf_loop m (chars " %p") [p i] >> k)
                      (ret tt) l0)
                   (concat (map (fun i => ch " " :: printint_text (to_int (p i)) 16 0) l0))).
  { induction l0 as [|i l0 IH]; cbn [fold_right map concat].
    - apply sends_ret.
    - apply sends_bind; [apply sends_panic_pc | exact IH]. }
  assert (Hall : sends
            (cprintf_loop m (chars "lapicid %d: panic: ") [l] >>
             cprintf_loop m msg stack >>
             cprintf_loop m [NL] [] >>
             fold_right (fun i k => cprintf_loop m (chars " %p") [p i] >> k)
               (ret tt) (upto 0 10))
            (panic_text l p msg)).
  { unfold panic_text. rewrite !app_assoc. rewrite <- !app_assoc.
    replace (chars "lapicid " ++ printint_text (to_int l) 10 1 ++ chars ": panic: " ++
             map (fun f => Z.land f 255) msg ++ [NL] ++
             concat (map (fun i => ch " " :: printint_text (to_int (p i)) 16 0) (upto 0 10)))
      with ((chars "lapicid " ++ printint_text (to_int l) 10 1 ++ chars ": panic: ") ++
            map (fun f => Z.land f 255) msg ++ [NL] ++
            concat (map (fun i => ch " " :: printint_text (to_int (p i)) 16 0) (upto 0 10)))
      by (rewrite <- !app_assoc; reflexivity).
    apply sends_bind; [apply sends_panic_header|].
    apply sends_bind; [apply sends_plain_format, Hmsg|].
    apply sends_bind; [|apply Hpcs].
    apply (sends_plain_format m [NL] []). repeat constructor; discriminate. }
  transitivity
    (bind (cprintf_loop m (chars "lapicid %d: panic: ") [l] >>
           cprintf_loop m msg stack >>
           cprintf_loop m [NL] [] >>
           fold_right (fun i k => cprintf_loop m (chars " %p") [p i] >> k)
             (ret tt) (upto 0 10))
          (fun _ => modify (set_panicked true) >> (spin : M unit)) s0).
  - unfold bind.
    destruct (cprintf_loop m (chars "lapicid %d: panic: ") [l] s0) as [[] s1|s1];
      [|reflexivity].
    destruct (cprintf_loop m msg stack s1) as [[] s2|s2]; [|reflexivity].
    destruct (cprintf_loop m [NL] [] s2) as [[] s3|s3]; reflexivity.
  - unfold bind at 1. rewrite (Hall s0 Hp0). reflexivity.
Qed.

Lemma panic_prints_message_witness :
  out (final (panic (fun _ => []) 2 (fun i => 16 * i) (Some (chars "boom")) [] init)) =
  echo_all 0 (chars "lapicid 2: panic: boom" ++ [NL] ++
              chars " 0 10 20 30 40 50 60 70 80 90").
Proof.
  rewrite (panic_prints_message (fun _ => []) 2 (fun i => 16 * i) (chars "boom") [] init).
  - vm_compute. reflexivity.
  - repeat constructor; discriminate.
  - reflexivity.
Defined.

(** ** The loop of [consoleintr] *)

Lemma bind_ret_or_flag (m : M unit) (d : bool) (s : console) :
  (m >> ret d) s = or_flag d ((m >> ret false) s).
Proof. unfold bind, ret, or_flag. destruct (m s); reflexivity. Qed.

(** [doprocdump] goes through [handleKey] and is set by Ctrl-P only. *)
Lemma handleKey_or_flag c d s : handleKey c d s = or_flag d (handleKey c false s).
Proof.
  unfold handleKey.
  destruct (c =? CTRL_P); [reflexivity|].
  destruct (c =? CTRL_U); [apply bind_ret_or_flag|].
  destruct ((c =? CTRL_H) || (c =? DEL)).
  { destruct (negb (input_e s =? input_w s)); [|reflexivity].
    unfold bind, ret, or_flag, modify; cbv beta iota zeta.
    destruct (consputc BACKSPACE _); reflexivity. }
  destruct ((c =? S_ KEY_UP) || (c =? S_ KEY_DN)); [apply bind_ret_or_flag|].
  cbv beta.
  destruct (negb (c =? 0) && (to_uint (input_e s - input_r s) <? INPUT_BUF));
    [|reflexivity].
  unfold put_edit, bind, ret, or_flag, modify; cbv beta iota zeta.
  destruct (consputc _ _) as [[] s1|s1]; [|reflexivity].
  destruct (_ || _); [|reflexivity].
  destruct (commit s1); reflexivity.
Qed.

Lemma handleKey_false_value c s a s' :
  handleKey c false s = Done a s' -> a = (c =? CTRL_P).
Proof.
  unfold handleKey.
  destruct (c =? CTRL_P); [intros [= <- _]; reflexivity|].
  assert (Hret : forall (m : M unit), (m >> ret false) s = Done a s' -> a = false).
  { intros m. unfold bind, ret. destruct (m s); [intros [= <- _]; reflexivity | discriminate]. }
  destruct (c =? CTRL_U); [apply Hret|].
  destruct ((c =? CTRL_H) || (c =? DEL)).
  { destruct (negb (input_e s =? input_w s)); [|intros [= <- _]; reflexivity].
    unfold bind, ret, modify; cbv beta iota zeta.
    destruct (consputc BACKSPACE _); [intros [= <- _]; reflexivity | discriminate]. }
  destruct ((c =? S_ KEY_UP) || (c =? S_ KEY_DN)); [apply Hret|].
  cbv beta.
  destruct (negb (c =? 0) && (to_uint (input_e s - input_r s) <? INPUT_BUF));
    [|intros [= <- _]; reflexivity].
  unfold put_edit, bind, ret, modify; cbv beta iota zeta.
  destruct (consputc _ _) as [[] s1|s1]; [|discriminate].
  destruct (_ || _); [|intros [= <- _]; reflexivity].
  destruct (commit s1); [intros [= <- _]; reflexivity | discriminate].
Qed.

Lemma consoleintr_loop_or_flag codes d s :
  consoleintr_loop codes d s = or_flag d (consoleintr_loop codes false s).
Proof.
  revert d s. induction codes as [|c rest IH]; intros d s; simpl.
  - reflexivity.
  - destruct (c >=? 0); [|reflexivity].
    unfold bind. rewrite (handleKey_or_flag c d s).
    destruct (handleKey c false s) as [a s1|s1]; simpl; [|reflexivity].
    rewrite (IH (a || d) s1), (IH a s1).
    destruct (consoleintr_loop rest false s1); simpl; [|reflexivity].
    rewrite orb_assoc. reflexivity.
Qed.

(** The handler returns unless the flag is set. *)
Lemma copy_loop_only_stack k p b s : exists v, copy_loop k p b s = set_stack v s.
Proof.
  revert p b s. induction k as [|k IH]; intros p b s; simpl.
  - exists (command_stack s). symmetry. apply set_stack_same.
  - destruct (_ =? _).
    + exists (command_stack s). symmetry. apply set_stack_same.
    + destruct (IH (p + 1) (to_int (b + 1))
                  (set_stack (<[0%nat := <[Z.to_nat p :=
                       if char_at (input_buf s) (Z.rem b INPUT_BUF) =? NL then 0
                       else char_at (input_buf s) (Z.rem b INPUT_BUF)]>
                     (stack_row (command_stack s) 0)]> (command_stack s)) s))
        as [v Hv].
      exists v. rewrite Hv. reflexivity.
Qed.

Lemma copyCommand_only_stack s : exists v, copyCommand s = Done tt (set_stack v s).
Proof.
  unfold copyCommand, moveCommandsUp, clear_row0, bind, modify; cbv beta iota.
  match goal with
  | |- context [copy_loop ?k ?p ?b ?s0] =>
      destruct (copy_loop_only_stack k p b s0) as [v Hv]; rewrite Hv
  end.
  exists v. reflexivity.
Qed.

(** The commit, on everything but the history: [input.w] becomes [input.e]. *)
Lemma commit_runs s :
  exists v n, commit s = Done tt (set_w (input_e s) (set_saved n (set_stack v s))).
Proof.
  unfold commit, bind. destruct (negb _).
  - destruct (copyCommand_only_stack s) as [v ->]. unfold modify; cbv beta iota.
    cbn [saved set_stack].
    destruct (saved s <? SAVED_MAX); [exists v, (saved s + 1) | exists v, (saved s)];
      [reflexivity|]. destruct s; reflexivity.
  - exists (command_stack s), (saved s). destruct s; reflexivity.
Qed.

Lemma returns_commit : returns commit.
Proof.
  intros s Hp. destruct (commit_runs s) as (v & n & ->).
  exists tt. eexists. split; [reflexivity | exact Hp].
Qed.

Lemma returns_moveThroughCommandHistory c : returns (moveThroughCommandHistory c).
Proof.
  intros s Hp. unfold moveThroughCommandHistory.
  repeat match goal with
         | |- context [if ?b then _ else _] => destruct b
         end;
    try (exists tt, s; auto; fail).
  - refine (returns_bind (modify _) _ (returns_modify _ _) _ s Hp); [reflexivity|].
    intros _. apply returns_writeCommand.
  - refine (returns_bind (modify _) _ (returns_modify _ _) _ s Hp); [reflexivity|].
    intros _. apply returns_bind; [apply returns_writeCommand|].
    intros _ s1 Hp1. unfold modify. eexists tt, _. split; [reflexivity|].
    destruct (_ =? _); exact Hp1.
  - refine (returns_bind (modify _) _ (returns_modify _ _) _ s Hp); [reflexivity|].
    intros _. apply returns_writeCommand.
  - refine (returns_bind _ _ returns_clearCommandLine _ s Hp).
    intros _. apply returns_modify. reflexivity.
Qed.

Lemma returns_handleKey c d : returns (handleKey c d).
Proof.
  unfold handleKey.
  destruct (c =? CTRL_P); [apply returns_ret|].
  destruct (c =? CTRL_U).
  { apply returns_bind; [apply returns_clearCommandLine | intros _; apply returns_ret]. }
  destruct ((c =? CTRL_H) || (c =? DEL)).
  { intros s Hp. destruct (negb _); [|exists d, s; auto].
    refine (returns_bind (modify _) _ (returns_modify _ _) _ s Hp); [reflexivity|].
    intros _. apply returns_bind; [apply returns_consputc | intros _].
    apply returns_bind; [apply returns_modify; reflexivity | intros _; apply returns_ret]. }
  destruct ((c =? S_ KEY_UP) || (c =? S_ KEY_DN)).
  { apply returns_bind; [apply returns_moveThroughCommandHistory | intros _; apply returns_ret]. }
  intros s Hp. destruct (_ && _); [|exists d, s; auto].
  refine (returns_bind (put_edit _) _ (returns_put_edit _) _ s Hp).
  intros _. apply returns_bind; [apply returns_modify; reflexivity | intros _].
  apply returns_bind; [apply returns_consputc | intros _].
  apply returns_bind; [|intros _; apply returns_ret].
  intros s1 Hp1. destruct (_ || _); [apply returns_commit, Hp1 | exists tt, s1; auto].
Qed.

Lemma returns_consoleintr_loop codes d : returns (consoleintr_loop codes d).
Proof.
  revert d. induction codes as [|c rest IH]; intros d; simpl.
  - apply returns_ret.
  - destruct (c >=? 0); [|apply returns_ret].
    apply returns_bind; [apply returns_handleKey | intros d'; apply IH].
Qed.

Lemma consoleintr_loop_value codes s a s' :
  consoleintr_loop codes false s = Done a s' -> a = asks_procdump codes.
Proof.
  unfold asks_procdump.
  revert s a s'. induction codes as [|c rest IH]; intros s a s'; simpl.
  - intros [= <- _]. reflexivity.
  - destruct (c >=? 0); [|intros [= <- _]; reflexivity].
    unfold bind. destruct (handleKey c false s) as [b s1|s1] eqn:Hk; [|discriminate].
    apply handleKey_false_value in Hk. subst b.
    rewrite consoleintr_loop_or_flag.
    destruct (consoleintr_loop rest false s1) as [a1 s2|] eqn:Hl; simpl; [|discriminate].
    intros [= <- _]. apply IH in Hl. subst a1. simpl. apply orb_comm.
Qed.

(** X10. Unless the flag is set, [consoleintr] returns, and it asks for the
    process listing exactly when Ctrl-P is among the codes it has read,
    those before the first negative one; the other keys of the batch,
    before or after Ctrl-P, do not change that. *)
Theorem consoleintr_procdump (codes : list Z) (s : console) :
  panicked s = false ->
  exists s', consoleintr codes s = Done (asks_procdump codes) s' /\ panicked s' = false.
Proof.
  intros Hp. destruct (returns_consoleintr_loop codes false s Hp) as (a & s' & Hrun & Hp').
  exists s'. unfold consoleintr. rewrite Hrun.
  rewrite (consoleintr_loop_value codes s a s' Hrun). auto.
Qed.

Lemma consoleintr_procdump_witness :
  exists s', consoleintr [ch "l"; CTRL_P; ch "s"; -1; CTRL_U] init = Done true s' /\
             panicked s' = false.
Proof.
  exact (consoleintr_procdump [ch "l"; CTRL_P; ch "s"; -1; CTRL_U] init eq_refl).
Defined.

(** The loop over a batch of codes that goes on with other codes. *)
Lemma consoleintr_loop_app a b d s :
  Forall (fun c => 0 <= c) a ->
  consoleintr_loop (a ++ b) d s = (d' <- consoleintr_loop a d ;; consoleintr_loop b d') s.
Proof.
  intros Ha. revert d s. induction Ha as [|c a Hc Ha IH]; intros d s.
  - reflexivity.
  - cbn [app consoleintr_loop]. rewrite (proj2 (Z.geb_le c 0) Hc).
    unfold bind. destruct (handleKey c d s) as [d1 s1|s1]; [|reflexivity].
    rewrite IH. reflexivity.
Qed.

(** ** Typing *)

Lemma consputc_echo c s :
  panicked s = false ->
  consputc c s = Done tt (with_out (out s ++ echo (history_color s) c) s).
Proof.
  intros Hp. rewrite (consputc_sends c s Hp). unfold echo_all. simpl.
  rewrite app_nil_r. reflexivity.
Qed.

Lemma slice_same_start buf from from' len :
  from mod INPUT_BUF = from' mod INPUT_BUF -> slice buf from len = slice buf from' len.
Proof.
  intros H. unfold slice. apply map_ext. intros i. f_equal.
  rewrite (Z.add_mod from), (Z.add_mod from'), H by (unfold INPUT_BUF; lia).
  reflexivity.
Qed.

Lemma slice_app buf from a b :
  0 <= a -> 0 <= b ->
  slice buf from (a + b) = slice buf from a ++ slice buf (from + a) b.
Proof.
  intros Ha Hb. rewrite <- (Z2Nat.id b) by exact Hb.
  induction (Z.to_nat b) as [|n IH].
  - rewrite Z.add_0_r, slice_nil, app_nil_r. reflexivity.
  - replace (a + Z.of_nat (S n)) with (a + Z.of_nat n + 1) by lia.
    replace (Z.of_nat (S n)) with (Z.of_nat n + 1) by lia.
    rewrite !slice_snoc, IH, <- app_assoc by lia.
    do 5 f_equal. lia.
Qed.

Lemma slice_put (buf : list Z) (from len e x : Z) :
  length buf = 128%nat -> 0 <= len < INPUT_BUF ->
  (from + len) mod INPUT_BUF = e mod INPUT_BUF ->
  slice (<[Z.to_nat (e mod INPUT_BUF) := x]> buf) from (len + 1) = slice buf from len ++ [x].
Proof.
  intros Hbuf Hlen He. rewrite slice_snoc by lia. rewrite He.
  rewrite char_at_insert_eq
    by (rewrite Hbuf; pose proof (Z.mod_pos_bound e INPUT_BUF);
        unfold INPUT_BUF in *; lia).
  f_equal. apply slice_insert_outside.
  - apply Z.mod_pos_bound. reflexivity.
  - intros i Hi. rewrite <- He. unfold INPUT_BUF in *. Z.div_mod_to_equations. lia.
Qed.

(** What the [default] case does with a byte that it accepts. *)
Lemma handleKey_stores c d s :
  default_key c = true -> c <> 0 -> pending s < INPUT_BUF -> panicked s = false ->
  cursors_ok s ->
  exists s',
    handleKey c d s = Done d s' /\
    input_buf s' =
      <[Z.to_nat (input_e s mod INPUT_BUF) := to_char (cooked c)]> (input_buf s) /\
    input_r s' = input_r s /\
    input_e s' = to_uint (input_e s + 1) /\
    input_w s' = (if commits (cooked c) s then to_uint (input_e s + 1) else input_w s) /\
    out s' = out s ++ echo (history_color s) (cooked c) /\
    command_ptr s' = -1 /\ panicked s' = false /\
    history_color s' = history_color s /\
    (commits (cooked c) s = false ->
       command_stack s' = command_stack s /\ saved s' = saved s).
Proof.
  intros Hc Hc0 Hpend Hp (Hr & Hw & He).
  rewrite handleKey_default by exact Hc.
  rewrite (proj2 (Z.eqb_neq c 0) Hc0), (proj2 (Z.ltb_lt _ _) Hpend).
  cbn [negb andb]. fold (cooked c).
  unfold bind at 1. unfold put_edit at 1, modify at 1.
  set (s1 := set_e _ _).
  unfold bind at 1. unfold modify at 1.
  unfold bind at 1. rewrite consputc_echo by exact Hp.
  set (s3 := with_out _ _).
  assert (Htest : (cooked c =? NL) || (cooked c =? CTRL_D)
                  || (input_e s3 =? to_uint (input_r s3 + INPUT_BUF))
                  = commits (cooked c) s).
  { unfold commits. f_equal. cbn [s3 s1 with_out set_ptr set_e set_buf input_e input_r].
    destruct (Z.eqb_spec (to_uint (input_e s + 1)) (to_uint (input_r s + INPUT_BUF)));
      destruct (Z.eqb_spec (pending s + 1) INPUT_BUF); try reflexivity; exfalso;
      uint_arith. }
  unfold bind at 1. rewrite Htest.
  destruct (commits (cooked c) s).
  - destruct (commit_runs s3) as (v & n & ->). unfold ret.
    eexists. split; [reflexivity|]. unfold s3, s1.
    repeat split; first [reflexivity | exact Hp | discriminate].
  - unfold ret. eexists. split; [reflexivity|]. unfold s3, s1.
    repeat split; first [reflexivity | exact Hp].
Qed.

(** The same, on the committed bytes and the line. *)
Lemma handleKey_appends c d s :
  cursors_ok s -> length (input_buf s) = 128%nat -> ordered s -> panicked s = false ->
  default_key c = true -> c <> 0 -> pending s < INPUT_BUF ->
  exists s',
    handleKey c d s = Done d s' /\
    (cursors_ok s' /\ length (input_buf s') = 128%nat /\ ordered s' /\
     panicked s' = false /\ history_color s' = history_color s) /\
    input_r s' = input_r s /\
    pending s' = pending s + 1 /\
    out s' = out s ++ echo (history_color s) (cooked c) /\
    (commits (cooked c) s = true ->
       input_w s' = input_e s' /\
       committed s' = committed s ++ edit_line s ++ [to_char (cooked c)] /\
       edit_line s' = []) /\
    (commits (cooked c) s = false ->
       input_w s' = input_w s /\
       committed s' = committed s /\
       edit_line s' = edit_line s ++ [to_char (cooked c)] /\
       command_stack s' = command_stack s /\ saved s' = saved s).
Proof.
  intros Hok Hbuf [Hord Hle] Hp Hc Hc0 Hpend.
  destruct (handleKey_stores c d s Hc Hc0 Hpend Hp Hok)
    as (s' & Hrun & Hb' & Hr' & He' & Hw' & Ho' & _ & Hp' & Hcol' & Hst').
  destruct Hok as (Hr & Hw & He).
  pose proof (to_uint_range (input_e s - input_r s)) as Hpe.
  pose proof (to_uint_range (input_e s - input_w s)) as Hue.
  pose proof (to_uint_range (input_w s - input_r s)) as Hun.
  assert (Hpend' : pending s' = pending s + 1).
  { unfold pending in *. rewrite He', Hr'. uint_arith. }
  exists s'. split; [exact Hrun|].
  destruct (commits (cooked c) s) eqn:Hcm.
  - (* the line is committed *)
    assert (Hunread : unread s' = pending s + 1).
    { unfold unread, pending in *. rewrite Hw', Hr'. uint_arith. }
    assert (Hunc : uncommitted s' = 0).
    { unfold uncommitted. rewrite Hw', He', Z.sub_diag. reflexivity. }
    split.
    { split; [unfold cursors_ok; rewrite Hr', Hw', He';
              pose proof (to_uint_range (input_e s + 1)); tauto|].
      split; [rewrite Hb', length_insert; exact Hbuf|].
      split; [|auto].
      unfold ordered. rewrite Hunread, Hunc, Hpend'. unfold INPUT_BUF in *. lia. }
    split; [exact Hr'|]. split; [exact Hpend'|]. split; [exact Ho'|].
    split; [|discriminate]. intros _.
    split; [rewrite Hw', He'; reflexivity|].
    split.
    + unfold committed. rewrite Hunread, Hb', Hr'.
      rewrite slice_put; [|exact Hbuf|unfold pending in *; lia|uint_arith].
      rewrite app_assoc. f_equal.
      unfold edit_line. rewrite <- Hord.
      rewrite slice_app by (unfold unread, uncommitted; lia).
      f_equal. apply slice_same_start. uint_arith.
    + unfold edit_line. rewrite Hunc. reflexivity.
  - assert (Hunread : unread s' = unread s).
    { unfold unread. rewrite Hw', Hr'. reflexivity. }
    assert (Hunc : uncommitted s' = uncommitted s + 1).
    { unfold uncommitted in *. rewrite Hw', He'. uint_arith. }
    destruct (Hst' eq_refl) as [Hstack Hsaved].
    assert (Hnotfull : pending s + 1 <> INPUT_BUF).
    { unfold commits in Hcm. rewrite !orb_false_iff in Hcm.
      apply Z.eqb_neq. apply Hcm. }
    split.
    { split; [unfold cursors_ok; rewrite Hr', Hw', He';
              pose proof (to_uint_range (input_e s + 1)); tauto|].
      split; [rewrite Hb', length_insert; exact Hbuf|].
      split; [|auto].
      unfold ordered. rewrite Hunread, Hunc, Hpend'. unfold INPUT_BUF in *. lia. }
    split; [exact Hr'|]. split; [exact Hpend'|]. split; [exact Ho'|].
    split; [discriminate|]. intros _.
    split; [exact Hw'|].
    split; [|split; [|auto]].
    + unfold committed. rewrite Hunread, Hb', Hr'.
      apply slice_insert_outside.
      * apply Z.mod_pos_bound. reflexivity.
      * intros i Hi. uint_arith.
    + unfold edit_line. rewrite Hunc, Hb', Hw'.
      apply slice_put;
        [exact Hbuf|unfold unread, uncommitted, pending in *; lia|uint_arith].
Qed.

(** X11. A byte of the [default] case that is accepted (it is not NUL and
    [input.e - input.r] is less than [INPUT_BUF]) is echoed and goes after
    the bytes that wait in the buffer, none of which is overwritten. If it
    is the newline or the end-of-file code, or fills the buffer, the line
    and the byte join the committed bytes; otherwise the byte joins the
    line and the committed bytes are as before. A carriage return is
    stored and echoed as a newline. *)
Theorem typed_key_appends (c : Z) (d : bool) (s : console) :
  cursors_ok s -> length (input_buf s) = 128%nat -> ordered s -> panicked s = false ->
  default_key c = true -> c <> 0 -> pending s < INPUT_BUF ->
  exists s',
    handleKey c d s = Done d s' /\ ordered s' /\
    input_r s' = input_r s /\
    out s' = out s ++ echo (history_color s) (cooked c) /\
    if commits (cooked c) s
    then committed s' = committed s ++ edit_line s ++ [to_char (cooked c)] /\
         edit_line s' = []
    else committed s' = committed s /\
         edit_line s' = edit_line s ++ [to_char (cooked c)].
Proof.
  intros Hok Hbuf Hord Hp Hc Hc0 Hpend.
  destruct (handleKey_appends c d s Hok Hbuf Hord Hp Hc Hc0 Hpend)
    as (s' & Hrun & (_ & _ & Hord' & _) & Hr' & _ & Ho' & Hyes & Hno).
  exists s'. split; [exact Hrun|]. split; [exact Hord'|].
  split; [exact Hr'|]. split; [exact Ho'|].
  destruct (commits (cooked c) s).
  - destruct (Hyes eq_refl) as (_ & H1 & H2). auto.
  - destruct (Hno eq_refl) as (_ & H1 & H2 & _). auto.
Qed.

Lemma typed_key_appends_witness :
  exists s',
    handleKey CR false (after (Consoleintr [ch "l"; ch "s"]) init) = Done false s' /\
    ordered s' /\
    input_r s' = 0 /\
    out s' = out (after (Consoleintr [ch "l"; ch "s"]) init) ++ [Uart NL; Cga NL 0] /\
    committed s' = [ch "l"; ch "s"; NL] /\ edit_line s' = [].
Proof.
  apply (typed_key_appends CR false (after (Consoleintr [ch "l"; ch "s"]) init)).
  - vm_compute. repeat split; try reflexivity; intros H; discriminate H.
  - reflexivity.
  - vm_compute. split; [reflexivity | intros H; discriminate H].
  - reflexivity.
  - reflexivity.
  - discriminate.
  - vm_compute. reflexivity.
Defined.

(** A printable character takes the [default] case and is stored and echoed
    as it is. *)
Lemma printable_key c :
  printable c ->
  default_key c = true /\ c <> 0 /\ cooked c = c /\ to_char c = c /\
  c <> NL /\ c <> CTRL_D /\ (c >=? 0) = true.
Proof.
  unfold printable. intros Hc.
  assert (Hd : default_key c = true).
  { unfold default_key. rewrite negb_true_iff, !orb_false_iff.
    repeat split; apply Z.eqb_neq; vm_compute; intros ->; vm_compute in Hc;
      destruct Hc as [H1 H2]; first [apply H1; reflexivity | discriminate H2]. }
  split; [exact Hd|]. split; [lia|].
  split; [unfold cooked; rewrite (proj2 (Z.eqb_neq c CR)); [reflexivity | unfold CR; lia]|].
  split; [unfold to_char; rewrite Z.mod_small; lia|].
  split; [unfold NL; lia|]. split; [vm_compute; intros ->; lia|].
  apply Z.geb_le. lia.
Qed.

Lemma printable_not_commits c s :
  printable c -> pending s + 1 < INPUT_BUF -> commits c s = false.
Proof.
  intros Hc Hpend. destruct (printable_key c Hc) as (_ & _ & _ & _ & Hnl & Heof & _).
  unfold commits. rewrite !orb_false_iff.
  repeat split; apply Z.eqb_neq; [exact Hnl | exact Heof | lia].
Qed.

Lemma echo_all_cons color c text :
  echo_all color (c :: text) = echo color c ++ echo_all color text.
Proof. reflexivity. Qed.

(** A line of printable characters, typed. *)
Lemma consoleintr_loop_plain line d s :
  Forall printable line ->
  cursors_ok s -> length (input_buf s) = 128%nat -> ordered s -> panicked s = false ->
  pending s + Z.of_nat (length line) < INPUT_BUF ->
  exists s',
    consoleintr_loop line d s = Done d s' /\
    (cursors_ok s' /\ length (input_buf s') = 128%nat /\ ordered s' /\
     panicked s' = false /\ history_color s' = history_color s) /\
    input_r s' = input_r s /\ input_w s' = input_w s /\
    pending s' = pending s + Z.of_nat (length line) /\
    out s' = out s ++ echo_all (history_color s) line /\
    committed s' = committed s /\
    edit_line s' = edit_line s ++ line /\
    command_stack s' = command_stack s /\ saved s' = saved s.
Proof.
  intros Hline. revert s.
  induction Hline as [|c line Hc Hline IH]; intros s Hok Hbuf Hord Hp Hpend.
  - exists s. simpl. unfold echo_all. simpl. rewrite !app_nil_r, Z.add_0_r. auto 20.
  - cbn [length] in Hpend.
    destruct (printable_key c Hc) as (Hd & Hc0 & Hcook & Hchar & _ & _ & Hge).
    destruct (handleKey_appends c d s Hok Hbuf Hord Hp Hd Hc0 ltac:(lia))
      as (s1 & Hrun & (Hok1 & Hbuf1 & Hord1 & Hp1 & Hcol1) & Hr1 & Hpend1 & Ho1 & _ & Hno).
    rewrite Hcook, Hchar in *.
    destruct (Hno (printable_not_commits c s Hc ltac:(lia))) as (Hw1 & Hcm1 & Hed1 & Hst1 & Hsv1).
    destruct (IH s1 Hok1 Hbuf1 Hord1 Hp1 ltac:(lia))
      as (s' & Hrun' & (Hok' & Hbuf' & Hord' & Hp' & Hcol') & Hr' & Hw' & Hpend' & Ho' & Hcm'
          & Hed' & Hst' & Hsv').
    exists s'. cbn [consoleintr_loop]. rewrite Hge. unfold bind. rewrite Hrun.
    split; [exact Hrun'|].
    split; [rewrite Hcol', Hcol1; auto|].
    rewrite Hr', Hr1, Hw', Hw1, Hpend', Hpend1, Ho', Ho1, Hcol1, Hcm', Hcm1, Hed', Hed1,
      Hst', Hst1, Hsv', Hsv1.
    rewrite echo_all_cons, <- !app_assoc. cbn [length app].
    repeat split; try reflexivity. lia.
Qed.



Lemma take_line_until_newline k first bytes rest :
  Forall (fun c => c <> NL /\ c <> CTRL_D) bytes -> (length bytes < k)%nat ->
  take_line k first (bytes ++ NL :: rest) =
  (bytes ++ [NL], Z.of_nat (length bytes) + 1, true).
Proof.
  intros Hb. revert k first. induction Hb as [|c bs [Hnl Heof] Hbs IH]; intros k first Hk.
  - destruct k as [|k]; [simpl in Hk; lia|]. reflexivity.
  - destruct k as [|k]; [simpl in Hk; lia|]. simpl in Hk. cbn [app take_line].
    rewrite (proj2 (Z.eqb_neq _ _) Heof), (proj2 (Z.eqb_neq _ _) Hnl).
    rewrite IH by lia. cbn [length]. f_equal. f_equal. lia.
Qed.

(** X13. From typing to reading. The buffer holds nothing; a line of
    printable characters is typed and ended by a newline or by a carriage
    return. Then [consoleread], asked for more bytes than the line has,
    returns the line and a newline, with their number, and leaves nothing
    in the buffer. *)
Theorem typed_line_is_read (line : list Z) (nl : Z) (killed : bool) (n : Z) (s : console) :
  Forall printable line -> nl = NL \/ nl = CR ->
  cursors_ok s -> length (input_buf s) = 128%nat -> panicked s = false ->
  input_r s = input_w s -> input_w s = input_e s ->
  Z.of_nat (length line) < INPUT_BUF ->
  Z.of_nat (length line) < n < 2 ^ 31 ->
  exists s1 s2,
    consoleintr (line ++ [nl]) s = Done false s1 /\
    consoleread killed n s1 = RDone (Z.of_nat (length line) + 1) (line ++ [NL]) s2 /\
    input_r s2 = input_w s2 /\ input_w s2 = input_e s2.
Proof.
  intros Hline Hnl Hok Hbuf Hp Hrw Hwe Hlen Hn.
  assert (Hpend0 : pending s = 0).
  { unfold pending. rewrite <- Hwe, <- Hrw, Z.sub_diag. reflexivity. }
  assert (Hord : ordered s).
  { unfold ordered, unread, uncommitted. fold (pending s).
    rewrite <- Hwe, <- Hrw, Z.sub_diag, Hpend0. change (to_uint 0) with 0.
    unfold INPUT_BUF. lia. }
  destruct (consoleintr_loop_plain line false s Hline Hok Hbuf Hord Hp ltac:(lia))
    as (s0 & Hrun0 & (Hok0 & Hbuf0 & Hord0 & Hp0 & _) & Hr0 & _ & Hpend0' & _ & Hcm0 & Hed0 & _).
  assert (Hkey : default_key nl = true /\ nl <> 0 /\ cooked nl = NL).
  { destruct Hnl as [-> | ->]; repeat split; discriminate. }
  destruct Hkey as (Hd & Hnl0 & Hcook).
  destruct (handleKey_appends nl false s0 Hok0 Hbuf0 Hord0 Hp0 Hd Hnl0 ltac:(lia))
    as (s1 & Hrun1 & (Hok1 & _) & Hr1 & Hpend1 & _ & Hyes & _).
  rewrite Hcook in Hyes. destruct (Hyes eq_refl) as (Hwe1 & Hcm1 & _).
  change (to_char NL) with NL in Hcm1.
  rewrite Hcm0, Hed0, (committed_nil s Hrw) in Hcm1.
  unfold edit_line, uncommitted in Hcm1. rewrite <- Hwe, Z.sub_diag in Hcm1.
  change (slice (input_buf s) (input_w s) (to_uint 0)) with (@nil Z) in Hcm1.
  cbn [app] in Hcm1.
  assert (Hintr : consoleintr (line ++ [nl]) s = Done false s1).
  { unfold consoleintr. rewrite consoleintr_loop_app.
    2:{ eapply Forall_impl; [exact Hline|]. intros c Hc. unfold printable in Hc. lia. }
    unfold bind. rewrite Hrun0. cbn [consoleintr_loop].
    replace (nl >=? 0) with true by (destruct Hnl as [-> | ->]; reflexivity).
    unfold bind. rewrite Hrun1. reflexivity. }
  pose proof (read_loop_take_line (Z.to_nat n) killed n [] s1 Hok1) as Hread.
  rewrite Z2Nat.id in Hread by lia. specialize (Hread ltac:(lia)).
  rewrite Hcm1 in Hread.
  rewrite (take_line_until_newline (Z.to_nat n) (n =? n) line []) in Hread.
  2:{ eapply Forall_impl; [exact Hline|]. intros c Hc.
      destruct (printable_key c Hc) as (_ & _ & _ & _ & H1 & H2 & _). auto. }
  2:{ lia. }
  cbn iota beta zeta in Hread.
  exists s1. eexists. split; [exact Hintr|].
  unfold consoleread. rewrite to_uint_id by lia. rewrite Hread.
  rewrite length_app. cbn [length app].
  split; [f_equal; lia|].
  cbn [input_r input_w input_e set_r]. split; [|exact Hwe1].
  rewrite Hwe1. destruct Hok1 as (Hr1' & Hw1' & He1').
  rewrite Hpend0', Hpend0 in Hpend1. clear - Hpend1 Hr1' He1' Hlen.
  uint_arith.
Qed.

Lemma typed_line_is_read_witness :
  exists s1 s2,
    consoleintr [ch "l"; ch "s"; CR] init = Done false s1 /\
    consoleread false 100 s1 = RDone 3 [ch "l"; ch "s"; NL] s2 /\
    input_r s2 = input_w s2 /\ input_w s2 = input_e s2.
Proof.
  apply (typed_line_is_read [ch "l"; ch "s"] CR false 100 init).
  - repeat constructor; vm_compute; intros H; discriminate H.
  - right. reflexivity.
  - vm_compute. repeat split; try reflexivity; intros H; discriminate H.
  - reflexivity.
  - reflexivity.
  - reflexivity.
  - reflexivity.
  - reflexivity.
  - vm_compute. split; reflexivity.
Defined.

(** ** Batches of codes *)

Lemma consoleintr_loop_cut a c b d s :
  c < 0 -> consoleintr_loop (a ++ c :: b) d s = consoleintr_loop a d s.
Proof.
  intros Hc. revert d s. induction a as [|x a IH]; intros d s.
  - cbn [app consoleintr_loop]. rewrite Z.geb_leb, (proj2 (Z.leb_gt 0 c) Hc).
    reflexivity.
  - cbn [app consoleintr_loop]. destruct (x >=? 0); [|reflexivity].
    unfold bind. destruct (handleKey x d s); [apply IH | reflexivity].
Qed.

(** X14. How the codes are split over the interrupts does not matter: the
    codes of one call of [consoleintr], none of them negative, followed by
    those of a second call leave the console as one call with all of them
    does, and the process listing is asked for when one of the two calls
    asks for it. A negative code ends the call: what [getc] would return
    after it is not read. *)
Theorem consoleintr_batches (a b : list Z) (c : Z) (s : console) :
  Forall (fun x => 0 <= x) a -> c < 0 ->
  consoleintr (a ++ b) s =
    match consoleintr a s with
    | Done d s1 => or_flag d (consoleintr b s1)
    | Spin s1 => Spin s1
    end /\
  consoleintr (a ++ c :: b) s = consoleintr a s.
Proof.
  intros Ha Hc. unfold consoleintr. split; [|apply consoleintr_loop_cut, Hc].
  rewrite consoleintr_loop_app by exact Ha. unfold bind.
  destruct (consoleintr_loop a false s) as [d s1|s1]; [|reflexivity].
  apply consoleintr_loop_or_flag.
Qed.

Lemma consoleintr_batches_witness :
  consoleintr ([ch "l"; CTRL_P] ++ [ch "s"; NL]) init =
    match consoleintr [ch "l"; CTRL_P] init with
    | Done d s1 => or_flag d (consoleintr [ch "s"; NL] s1)
    | Spin s1 => Spin s1
    end /\
  consoleintr ([ch "l"; CTRL_P] ++ -1 :: [ch "s"; NL]) init = consoleintr [ch "l"; CTRL_P] init.
Proof.
  apply (consoleintr_batches [ch "l"; CTRL_P] [ch "s"; NL] (-1) init).
  - repeat constructor; vm_compute; intros H; discriminate H.
  - reflexivity.
Defined.

(** ** Erasing *)

(** A test for the absence of a byte. *)
Lemma not_in_forallb (x : Z) (l : list Z) :
  forallb (fun y => negb (y =? x)) l = true -> ~ In x l.
Proof.
  intros H Hin. rewrite forallb_forall in H. specialize (H x Hin).
  rewrite Z.eqb_refl in H. discriminate H.
Qed.

Lemma edit_line_last s :
  cursors_ok s -> 0 < uncommitted s ->
  edit_line s =
  slice (input_buf s) (input_w s) (uncommitted s - 1) ++
  [char_at (input_buf s) (to_uint (input_e s - 1) mod INPUT_BUF)].
Proof.
  intros (Hr & Hw & He) Hu. unfold edit_line.
  replace (uncommitted s) with (uncommitted s - 1 + 1) at 1 by lia.
  rewrite slice_snoc by lia. do 3 f_equal. uint_arith.
Qed.

Lemma erased_one_line s :
  cursors_ok s -> 0 < uncommitted s ->
  cursors_ok (erased_one s) /\ uncommitted (erased_one s) = uncommitted s - 1 /\
  edit_line (erased_one s) = removelast (edit_line s) /\
  committed (erased_one s) = committed s.
Proof.
  intros Hok Hu. pose proof Hok as (Hr & Hw & He).
  split; [unfold cursors_ok, erased_one; simpl;
          pose proof (to_uint_range (input_e s - 1)); tauto|].
  assert (Hu' : uncommitted (erased_one s) = uncommitted s - 1).
  { unfold uncommitted, erased_one in *. simpl. apply to_uint_pred_distance. exact Hu. }
  split; [exact Hu'|]. split; [|reflexivity].
  rewrite (edit_line_last s Hok Hu), removelast_last.
  unfold edit_line at 1. rewrite Hu'. reflexivity.
Qed.

Lemma clear_loop_erases k s :
  Z.of_nat k = uncommitted s -> cursors_ok s -> panicked s = false ->
  ~ In NL (edit_line s) ->
  clear_loop k s =
  Done tt (with_out (out s ++ echo_all (history_color s) (replicate k BACKSPACE))
             (set_e (input_w s) s)).
Proof.
  revert s. induction k as [|k IH]; intros s Hk Hok Hp Hnl.
  - assert (He : input_e s = input_w s).
    { destruct Hok as (_ & Hw & He).
      apply to_uint_zero_distance; [exact He | exact Hw | symmetry; exact Hk]. }
    cbn [clear_loop]. rewrite <- He. unfold echo_all. simpl. rewrite app_nil_r.
    replace (with_out (out s) (set_e (input_e s) s)) with s by (destruct s; reflexivity).
    destruct (_ && _); reflexivity.
  - assert (Hu : 0 < uncommitted s) by lia.
    assert (Hne : input_e s <> input_w s).
    { intros E. unfold uncommitted in Hu. rewrite E, Z.sub_diag in Hu.
      change (to_uint 0) with 0 in Hu. lia. }
    assert (Hlast : char_at (input_buf s) (to_uint (input_e s - 1) mod INPUT_BUF) <> NL).
    { intros E. apply Hnl. rewrite (edit_line_last s Hok Hu), E.
      apply in_or_app. right. left. reflexivity. }
    cbn [clear_loop].
    rewrite (proj2 (Z.eqb_neq _ _) Hne), (proj2 (Z.eqb_neq _ _) Hlast). cbn [negb andb].
    unfold bind at 1. unfold modify at 1.
    unfold bind at 1. rewrite consputc_echo by exact Hp.
    match goal with
    | |- context [clear_loop k ?t] => change t with (erased_one s)
    end.
    destruct (erased_one_line s Hok Hu) as (Hok1 & Hu1 & Hed1 & _).
    rewrite IH; [| lia | exact Hok1 | exact Hp | ].
    + f_equal. unfold erased_one, with_out, set_e. simpl.
      rewrite <- app_assoc. reflexivity.
    + rewrite Hed1. intros Hin. apply Hnl.
      rewrite (edit_line_last s Hok Hu) in *. rewrite removelast_last in Hin.
      apply in_or_app. left. exact Hin.
Qed.

(** X15. The kill-line code erases the line that is being edited: unless
    the flag is set, and as long as the line holds no newline, [input.e]
    goes back to [input.w], one backspace is echoed for each byte of the
    line, and nothing else changes: not the committed bytes, not the
    history, not the history cursor. *)
Theorem kill_line_erases_line (d : bool) (s : console) :
  cursors_ok s -> panicked s = false -> ~ In NL (edit_line s) ->
  handleKey CTRL_U d s =
  Done d (with_out (out s ++ echo_all (history_color s)
                              (replicate (Z.to_nat (uncommitted s)) BACKSPACE))
            (set_e (input_w s) s)).
Proof.
  intros Hok Hp Hnl.
  assert (Hcase : handleKey CTRL_U d s = (clearCommandLine >> ret d) s) by reflexivity.
  rewrite Hcase. unfold bind, clearCommandLine. fold (uncommitted s).
  rewrite clear_loop_erases; [reflexivity| |exact Hok|exact Hp|exact Hnl].
  apply Z2Nat.id. apply to_uint_range.
Qed.

Lemma kill_line_erases_line_witness :
  handleKey CTRL_U false (after (Consoleintr [ch "l"; ch "s"]) line_a) =
  Done false
    (with_out (out (after (Consoleintr [ch "l"; ch "s"]) line_a) ++
               [Uart 8; Uart 32; Uart 8; Cga BACKSPACE 0;
                Uart 8; Uart 32; Uart 8; Cga BACKSPACE 0])
       (set_e 2 (after (Consoleintr [ch "l"; ch "s"]) line_a))).
Proof.
  apply (kill_line_erases_line false (after (Consoleintr [ch "l"; ch "s"]) line_a)).
  - vm_compute. repeat split; try reflexivity; intros H; discriminate H.
  - reflexivity.
  - apply not_in_forallb. vm_compute. reflexivity.
Defined.

(** The backspace codes. *)
Lemma handleKey_erases c d s :
  c = CTRL_H \/ c = DEL -> panicked s = false ->
  handleKey c d s =
  if input_e s =? input_w s then Done d s else Done d (set_ptr (-1) (erased_one s)).
Proof.
  intros Hc Hp.
  assert (Hcase : handleKey c d s =
            if negb (input_e s =? input_w s) then
              (modify (fun s => set_e (to_uint (input_e s - 1)) s) >>
               consputc BACKSPACE >> modify (set_ptr (-1)) >> ret d) s
            else Done d s).
  { destruct Hc as [-> | ->]; reflexivity. }
  rewrite Hcase. destruct (input_e s =? input_w s); [reflexivity|]. cbn [negb].
  unfold bind at 1. unfold modify at 1.
  unfold bind at 1. rewrite consputc_echo by exact Hp. reflexivity.
Qed.

(** X16. A backspace code ([Ctrl-H] or [DEL]) takes the last byte off the
    line that is being edited, echoes one backspace and leaves the history
    cursor at -1; on an empty line it does nothing at all. It never touches
    the committed bytes. *)
Theorem backspace_erases_last (c : Z) (d : bool) (s : console) :
  c = CTRL_H \/ c = DEL -> cursors_ok s -> panicked s = false ->
  exists s',
    handleKey c d s = Done d s' /\
    edit_line s' = removelast (edit_line s) /\
    committed s' = committed s /\
    (uncommitted s = 0 -> s' = s) /\
    (0 < uncommitted s ->
       out s' = out s ++ echo (history_color s) BACKSPACE /\
       command_ptr s' = -1 /\
       uncommitted s' = uncommitted s - 1).
Proof.
  intros Hc Hok Hp. rewrite (handleKey_erases c d s Hc Hp).
  pose proof (to_uint_range (input_e s - input_w s)) as Hrange. fold (uncommitted s) in Hrange.
  destruct (Z.eqb_spec (input_e s) (input_w s)) as [E|E].
  - assert (Hu : uncommitted s = 0).
    { unfold uncommitted. rewrite E, Z.sub_diag. reflexivity. }
    exists s. split; [reflexivity|].
    split; [unfold edit_line; rewrite Hu; reflexivity|].
    split; [reflexivity|]. split; [reflexivity | lia].
  - assert (Hu : 0 < uncommitted s).
    { destruct Hok as (_ & Hw & He). apply to_uint_distance_pos; assumption. }
    destruct (erased_one_line s Hok Hu) as (_ & Hu1 & Hed1 & Hcm1).
    eexists. split; [reflexivity|].
    split; [exact Hed1|]. split; [exact Hcm1|].
    split; [lia|]. intros _. split; [reflexivity|]. split; [reflexivity | exact Hu1].
Qed.

Lemma backspace_erases_last_witness :
  exists s',
    handleKey DEL false (after (Consoleintr [ch "l"; ch "s"]) line_a) = Done false s' /\
    edit_line s' = [ch "l"] /\
    committed s' = [ch "a"; NL] /\
    (uncommitted (after (Consoleintr [ch "l"; ch "s"]) line_a) = 0 ->
       s' = after (Consoleintr [ch "l"; ch "s"]) line_a) /\
    (0 < uncommitted (after (Consoleintr [ch "l"; ch "s"]) line_a) ->
       out s' = out (after (Consoleintr [ch "l"; ch "s"]) line_a) ++
                [Uart 8; Uart 32; Uart 8; Cga BACKSPACE 0] /\
       command_ptr s' = -1 /\
       uncommitted s' = uncommitted (after (Consoleintr [ch "l"; ch "s"]) line_a) - 1).
Proof.
  apply (backspace_erases_last DEL false (after (Consoleintr [ch "l"; ch "s"]) line_a)).
  - right. reflexivity.
  - vm_compute. repeat split; try reflexivity; intros H; discriminate H.
  - reflexivity.
Defined.

(** X17. Typing a byte that does not commit and erasing it with a backspace
    code is a round trip on the line editor: the line, the committed bytes
    and the three cursors are as before; the byte and a backspace were
    echoed. *)
Theorem insert_then_backspace (c bs : Z) (d : bool) (s : console) :
  cursors_ok s -> length (input_buf s) = 128%nat -> ordered s -> panicked s = false ->
  default_key c = true -> c <> 0 -> pending s < INPUT_BUF ->
  commits (cooked c) s = false -> bs = CTRL_H \/ bs = DEL ->
  exists s1 s2,
    handleKey c d s = Done d s1 /\ handleKey bs d s1 = Done d s2 /\
    edit_line s2 = edit_line s /\ committed s2 = committed s /\
    input_r s2 = input_r s /\ input_w s2 = input_w s /\ input_e s2 = input_e s /\
    out s2 = out s ++ echo (history_color s) (cooked c) ++ echo (history_color s) BACKSPACE.
Proof.
  intros Hok Hbuf Hord Hp Hc Hc0 Hpend Hcm Hbs.
  destruct (handleKey_appends c d s Hok Hbuf Hord Hp Hc Hc0 Hpend)
    as (s1 & Hrun & (Hok1 & _ & _ & Hp1 & Hcol1) & Hr1 & _ & Ho1 & _ & Hno).
  destruct (Hno Hcm) as (Hw1 & Hcm1 & Hed1 & _).
  destruct (handleKey_stores c d s Hc Hc0 Hpend Hp Hok) as (s1' & Hrun' & _ & _ & He1 & _).
  rewrite Hrun in Hrun'. injection Hrun' as <-.
  assert (Hu1 : 0 < uncommitted s1).
  { unfold uncommitted. rewrite He1, Hw1.
    destruct Hok as (_ & Hw & He). apply to_uint_distance_pos;
      [apply to_uint_range | exact Hw |].
    destruct Hord as [Hord Hle]. pose proof (to_uint_range (input_w s - input_r s)).
    pose proof (to_uint_range (input_e s - input_w s)). uint_arith. }
  assert (Hne : input_e s1 <> input_w s1).
  { intros E. unfold uncommitted in Hu1. rewrite E, Z.sub_diag in Hu1.
    change (to_uint 0) with 0 in Hu1. lia. }
  destruct (erased_one_line s1 Hok1 Hu1) as (_ & _ & Hed2 & Hcm2).
  exists s1, (set_ptr (-1) (erased_one s1)).
  split; [exact Hrun|].
  split; [rewrite (handleKey_erases bs d s1 Hbs Hp1), (proj2 (Z.eqb_neq _ _) Hne);
          reflexivity|].
  split; [change (edit_line (set_ptr (-1) (erased_one s1))) with (edit_line (erased_one s1));
          rewrite Hed2, Hed1; apply removelast_last|].
  split; [change (committed (set_ptr (-1) (erased_one s1))) with (committed (erased_one s1));
          rewrite Hcm2; exact Hcm1|].
  cbn [input_r input_w input_e out set_ptr erased_one with_out set_e].
  split; [exact Hr1|]. split; [exact Hw1|].
  split; [rewrite He1; destruct Hok as (_ & _ & He); uint_arith|].
  rewrite Ho1, Hcol1, <- app_assoc. reflexivity.
Qed.

Lemma insert_then_backspace_witness :
  exists s1 s2,
    handleKey (ch "x") false line_a = Done false s1 /\
    handleKey CTRL_H false s1 = Done false s2 /\
    edit_line s2 = edit_line line_a /\ committed s2 = committed line_a /\
    input_r s2 = input_r line_a /\ input_w s2 = input_w line_a /\
    input_e s2 = input_e line_a /\
    out s2 = out line_a ++ echo (history_color line_a) (cooked (ch "x")) ++
             echo (history_color line_a) BACKSPACE.
Proof.
  apply (insert_then_backspace (ch "x") CTRL_H false line_a).
  - vm_compute. repeat split; try reflexivity; intros H; discriminate H.
  - reflexivity.
  - vm_compute. split; [reflexivity | intros H; discriminate H].
  - reflexivity.
  - reflexivity.
  - discriminate.
  - vm_compute. reflexivity.
  - reflexivity.
  - left. reflexivity.
Defined.

(** ** What a read can take *)

Lemma take_line_within k first stream :
  let '(bytes, used, over) := take_line k first stream in
  (length bytes <= k)%nat /\ bytes = take (length bytes) stream /\
  Z.of_nat (length bytes) <= used <= Z.of_nat (length stream) /\
  used <= Z.of_nat (length bytes) + 1 /\
  (over = false ->
     bytes = stream /\ used = Z.of_nat (length stream) /\ (length stream < k)%nat).
Proof.
  revert first stream. induction k as [|k IH]; intros first stream.
  - simpl. repeat split; first [lia | discriminate | reflexivity].
  - cbn [take_line]. destruct stream as [|c rest].
    + simpl. repeat split; first [lia | reflexivity].
    + destruct (c =? CTRL_D).
      { simpl. destruct first; repeat split; first [lia | discriminate | reflexivity]. }
      destruct (c =? NL).
      { simpl. repeat split; first [lia | discriminate | reflexivity]. }
      specialize (IH false rest).
      destruct (take_line k false rest) as [[bytes used] over].
      destruct IH as (H1 & H2 & H3 & H4 & H5).
      cbn [length take]. split; [lia|]. split; [f_equal; exact H2|].
      split; [lia|]. split; [lia|].
      intros Ho. destruct (H5 Ho) as (-> & -> & H8). repeat split; lia.
Qed.

Lemma consoleread_as_take_line killed n s :
  cursors_ok s -> 0 <= n < 2 ^ 31 ->
  consoleread killed n s =
  let '(bytes, used, over) := take_line (Z.to_nat n) true (committed s) in
  let s' := set_r (to_uint (input_r s + used)) s in
  if over then RDone (Z.of_nat (length bytes)) bytes s'
  else if killed then RDone (-1) bytes s'
  else RSleep (n - Z.of_nat (length bytes)) bytes s'.
Proof.
  intros Hok Hn. unfold consoleread. rewrite to_uint_id by lia.
  pose proof (read_loop_take_line (Z.to_nat n) killed n [] s Hok) as H.
  rewrite Z2Nat.id in H by lia. rewrite H by lia.
  rewrite Z.eqb_refl.
  destruct (take_line (Z.to_nat n) true (committed s)) as [[bytes used] over].
  cbn [app]. rewrite Z.sub_diag. reflexivity.
Qed.

(** X18. A read stays within the committed bytes. Whatever the buffer
    holds, [consoleread] moves [input.r] only, forward and not past
    [input.w]; the bytes it stores for the caller are the first of the
    committed bytes, at most [n] of them; it takes from the buffer what it
    has stored and at most one byte more (the end-of-file code), and what it
    has not taken is left for the next read. *)
Theorem consoleread_within_committed (killed : bool) (n : Z) (s : console) :
  cursors_ok s -> 0 <= n < 2 ^ 31 ->
  exists used,
    read_final (consoleread killed n s) = set_r (to_uint (input_r s + used)) s /\
    0 <= used <= unread s /\
    Z.of_nat (length (read_bytes (consoleread killed n s))) <= used /\
    used <= Z.of_nat (length (read_bytes (consoleread killed n s))) + 1 /\
    Z.of_nat (length (read_bytes (consoleread killed n s))) <= n /\
    read_bytes (consoleread killed n s) =
      take (length (read_bytes (consoleread killed n s))) (committed s) /\
    committed (read_final (consoleread killed n s)) = drop (Z.to_nat used) (committed s).
Proof.
  intros Hok Hn. rewrite (consoleread_as_take_line killed n s Hok Hn).
  pose proof (take_line_within (Z.to_nat n) true (committed s)) as H.
  destruct (take_line (Z.to_nat n) true (committed s)) as [[bytes used] over].
  destruct H as (H1 & H2 & H3 & H4 & _).
  assert (Hlen : Z.of_nat (length (committed s)) = unread s).
  { unfold committed. rewrite length_slice, Z2Nat.id; [reflexivity|].
    apply to_uint_range. }
  exists used.
  assert (Hres : forall x : read_result,
            read_final x = set_r (to_uint (input_r s + used)) s -> read_bytes x = bytes ->
            read_final x = set_r (to_uint (input_r s + used)) s /\
            0 <= used <= unread s /\
            Z.of_nat (length (read_bytes x)) <= used /\
            used <= Z.of_nat (length (read_bytes x)) + 1 /\
            Z.of_nat (length (read_bytes x)) <= n /\
            read_bytes x = take (length (read_bytes x)) (committed s) /\
            committed (read_final x) = drop (Z.to_nat used) (committed s)).
  { intros x -> ->. split; [reflexivity|]. split; [lia|]. split; [lia|].
    split; [lia|]. split; [lia|]. split; [exact H2|].
    apply committed_advance; [exact Hok | lia]. }
  cbn zeta. destruct over; [|destruct killed]; apply Hres; reflexivity.
Qed.

Lemma consoleread_within_committed_witness :
  exists used,
    read_final (consoleread false 1 line_a) = set_r (to_uint (input_r line_a + used)) line_a /\
    0 <= used <= unread line_a /\
    Z.of_nat (length (read_bytes (consoleread false 1 line_a))) <= used /\
    used <= Z.of_nat (length (read_bytes (consoleread false 1 line_a))) + 1 /\
    Z.of_nat (length (read_bytes (consoleread false 1 line_a))) <= 1 /\
    read_bytes (consoleread false 1 line_a) =
      take (length (read_bytes (consoleread false 1 line_a))) (committed line_a) /\
    committed (read_final (consoleread false 1 line_a)) =
      drop (Z.to_nat used) (committed line_a).
Proof.
  apply (consoleread_within_committed false 1 line_a).
  - vm_compute. repeat split; try reflexivity; intros H; discriminate H.
  - vm_compute. split; [intros H; discriminate H | reflexivity].
Defined.

(** X19. A call of [consoleread] waits only when it has taken every
    committed byte and still wants more: the process is not killed,
    [input.r] has reached [input.w], the caller's buffer holds all the bytes
    that were committed, none of them a newline or the end-of-file code, and
    the count that is left is positive. *)
Theorem consoleread_sleeps_when_drained (killed : bool) (n k : Z) (dst : list Z)
    (s s' : console) :
  cursors_ok s -> 0 <= n < 2 ^ 31 ->
  consoleread killed n s = RSleep k dst s' ->
  killed = false /\ dst = committed s /\
  s' = set_r (input_w s) s /\
  k = n - Z.of_nat (length dst) /\ 0 < k /\
  ~ In NL dst /\ ~ In CTRL_D dst.
Proof.
  intros Hok Hn. rewrite (consoleread_as_take_line killed n s Hok Hn).
  pose proof (take_line_within (Z.to_nat n) true (committed s)) as H.
  assert (Hstop : forall m first stream bytes used,
            take_line m first stream = (bytes, used, false) ->
            ~ In NL bytes /\ ~ In CTRL_D bytes).
  { intros m. induction m as [|m IH]; intros first stream bytes used; [discriminate|].
    cbn [take_line]. destruct stream as [|c rest]; [intros [= <- _]; auto|].
    destruct (Z.eqb_spec c CTRL_D) as [|Heof]; [discriminate|].
    destruct (Z.eqb_spec c NL) as [|Hnl]; [discriminate|].
    destruct (take_line m false rest) as [[bs u] o] eqn:E.
    intros [= <- _ ->]. destruct (IH _ _ _ _ E) as [H1 H2].
    split; intros [Hin | Hin]; auto. }
  destruct (take_line (Z.to_nat n) true (committed s)) as [[bytes used] over] eqn:E.
  destruct H as (_ & _ & _ & _ & H5).
  cbn zeta. destruct over; [discriminate|]. destruct killed; [discriminate|].
  intros [= <- <- <-]. destruct (H5 eq_refl) as (Hb & Hu & Hk).
  destruct (Hstop _ _ _ _ _ E) as [Hnl Heof].
  split; [reflexivity|]. split; [exact Hb|].
  split.
  { f_equal. rewrite Hu. unfold committed. rewrite length_slice, Z2Nat.id
      by apply to_uint_range.
    destruct Hok as (Hr & Hw & _). uint_arith. }
  split; [reflexivity|]. rewrite Hb at 1. split; [lia|]. auto.
Qed.

Lemma consoleread_sleeps_when_drained_witness :
  false = false /\ replicate 128 (ch "a") = committed full_line /\
  set_r 128 full_line = set_r (input_w full_line) full_line /\
  72 = 200 - Z.of_nat (length (replicate 128 (ch "a"))) /\ 0 < 72 /\
  ~ In NL (replicate 128 (ch "a")) /\ ~ In CTRL_D (replicate 128 (ch "a")).
Proof.
  apply (consoleread_sleeps_when_drained false 200 72 (replicate 128 (ch "a"))
           full_line (set_r 128 full_line)).
  - vm_compute. repeat split; try reflexivity; intros H; discriminate H.
  - vm_compute. split; [intros H; discriminate H | reflexivity].
  - vm_compute. reflexivity.
Defined.

(** X20. A call of [consoleread] that wants nothing ([n] is zero or
    negative) returns 0 at once: it does not look at the buffer, does not
    wait and does not test whether the process is killed. *)
Theorem consoleread_nothing_wanted (killed : bool) (n : Z) (s : console) :
  - 2 ^ 31 <= n <= 0 -> consoleread killed n s = RDone 0 [] s.
Proof.
  intros Hn. unfold consoleread.
  replace (Z.to_nat n) with 0%nat by lia. cbn [read_loop]. f_equal.
  unfold to_int, to_uint. change (2 ^ 31) with 2147483648 in *.
  change (2 ^ 32) with 4294967296. Z.div_mod_to_equations. lia.
Qed.

Lemma consoleread_nothing_wanted_witness :
  consoleread true (-3) line_a = RDone 0 [] line_a.
Proof.
  apply (consoleread_nothing_wanted true (-3) line_a).
  vm_compute. split; intros H; discriminate H.
Defined.

(** ** Recalling an entry *)

Lemma char_at_all (row : list Z) : map (char_at row) (upto 0 (length row)) = row.
Proof.
  induction row as [|x row IH] using rev_ind; [reflexivity|].
  rewrite length_app. cbn [length]. rewrite Nat.add_1_r, upto_snoc, map_app.
  cbn [map]. f_equal.
  - rewrite <- IH at 3. apply map_ext_in. intros j Hj.
    unfold upto in Hj. apply in_map_iff in Hj as (k & <- & Hk). apply in_seq in Hk.
    unfold char_at. rewrite (proj2 (Z.leb_le _ _)) by lia.
    rewrite lookup_app_l by lia. reflexivity.
  - unfold char_at. rewrite (proj2 (Z.leb_le _ _)) by lia.
    rewrite Z.add_0_l, Nat2Z.id, list_lookup_middle by reflexivity. reflexivity.
Qed.

(** The loop of [writeCommand] over an entry that holds no newline: what it
    echoes and what it stores. *)
Lemma write_loop_row k i s :
  panicked s = false -> 0 <= input_e s < 2 ^ 32 -> length (input_buf s) = 128%nat ->
  (k <= 128)%nat ->
  (forall j, i <= j < i + Z.of_nat k ->
             char_at (stack_row (command_stack s) (command_ptr s)) j <> NL) ->
  exists buf',
    write_loop k i s =
    Done tt (with_out (out s ++ echo_all (history_color s)
                                 (map (char_at (stack_row (command_stack s) (command_ptr s)))
                                      (upto i k)))
               (set_e (to_uint (input_e s + Z.of_nat k)) (set_buf buf' s))) /\
    length buf' = 128%nat /\
    slice buf' (input_e s) (Z.of_nat k) =
      map (fun j => to_char (char_at (stack_row (command_stack s) (command_ptr s)) j))
          (upto i k) /\
    (forall p, 0 <= p ->
       (forall m, 0 <= m < Z.of_nat k -> (input_e s + m) mod INPUT_BUF <> p) ->
       char_at buf' p = char_at (input_buf s) p).
Proof.
  revert i s. induction k as [|k IH]; intros i s Hp He Hbuf Hk Hrow.
  - exists (input_buf s). split; [|auto].
    simpl. unfold echo_all. simpl. rewrite app_nil_r, Z.add_0_r, to_uint_id by exact He.
    destruct s; reflexivity.
  - cbn [write_loop].
    rewrite (proj2 (Z.eqb_neq _ _) (Hrow i ltac:(lia))).
    set (row := stack_row (command_stack s) (command_ptr s)) in *.
    unfold bind at 1. unfold put_edit at 1, modify at 1.
    unfold bind at 1. rewrite consputc_echo by exact Hp.
    set (buf1 := <[Z.to_nat (input_e s mod INPUT_BUF) := to_char (char_at row i)]>
                   (input_buf s)).
    set (s2 := with_out _ _).
    assert (Hpos : 0 <= input_e s mod INPUT_BUF < 128)
      by (apply Z.mod_pos_bound; reflexivity).
    destruct (IH (i + 1) s2) as (buf' & Hrun & Hlen' & Hslice & Hout).
    + exact Hp.
    + simpl. apply to_uint_range.
    + simpl. unfold buf1. rewrite length_insert. exact Hbuf.
    + lia.
    + intros j Hj. apply Hrow. lia.
    + change (stack_row (command_stack s2) (command_ptr s2)) with row in *.
      change (input_e s2) with (to_uint (input_e s + 1)) in *.
      change (input_buf s2) with buf1 in *.
      change (history_color s2) with (history_color s) in *.
      exists buf'. split; [|split; [exact Hlen'|split]].
      * rewrite Hrun. f_equal. rewrite upto_S. cbn [map]. rewrite echo_all_cons.
        unfold s2, with_out, set_e, set_buf. simpl. f_equal; [uint_arith|].
        rewrite <- app_assoc. reflexivity.
      * rewrite upto_S. cbn [map].
        rewrite slice_cons by lia.
        replace (Z.of_nat (S k) - 1) with (Z.of_nat k) by lia.
        rewrite <- slice_uint, Hslice. f_equal.
        rewrite Hout; [| lia |].
        -- unfold buf1. apply char_at_insert_eq. rewrite Hbuf. lia.
        -- intros m Hm. uint_arith.
      * intros p Hp0 Hfree. rewrite Hout; [|exact Hp0|].
        -- unfold buf1. apply char_at_insert_ne; [lia | exact Hp0 |].
           specialize (Hfree 0 ltac:(lia)). rewrite Z.add_0_r in Hfree. exact Hfree.
        -- intros m Hm. specialize (Hfree (m + 1) ltac:(lia)).
           intros E. apply Hfree. rewrite <- E. uint_arith.
Qed.

(** X21. "Up" on a console that shows no entry yet recalls the newest one.
    Unless the flag is set, and as long as neither the line that is being
    edited nor the entry holds a newline, the line is erased with one
    backspace for each of its bytes, the [INPUT_BUF] bytes of the entry
    become the line and are echoed with [history_color] set, and the
    cursor of the history is 0; [input.r], [input.w] and the history are as
    before. *)
Theorem recall_shows_entry (d : bool) (s : console) :
  cursors_ok s -> length (input_buf s) = 128%nat -> panicked s = false ->
  ~ In NL (edit_line s) ->
  command_ptr s = -1 -> 1 <= saved s ->
  length (stack_row (command_stack s) 0) = 128%nat ->
  ~ In NL (stack_row (command_stack s) 0) ->
  exists s',
    handleKey (S_ KEY_UP) d s = Done d s' /\
    command_ptr s' = 0 /\ history_color s' = 0 /\
    input_r s' = input_r s /\ input_w s' = input_w s /\
    command_stack s' = command_stack s /\ saved s' = saved s /\
    edit_line s' = map to_char (stack_row (command_stack s) 0) /\
    out s' = out s ++
             echo_all (history_color s) (replicate (Z.to_nat (uncommitted s)) BACKSPACE) ++
             echo_all 1 (stack_row (command_stack s) 0).
Proof.
  intros Hok Hbuf Hp Hnl Hptr Hsaved Hlen Hrow.
  set (row := stack_row (command_stack s) 0) in *.
  assert (Hcase : handleKey (S_ KEY_UP) d s = (moveThroughCommandHistory (S_ KEY_UP) >> ret d) s)
    by reflexivity.
  rewrite Hcase. unfold bind at 1.
  rewrite move_up_from_live by lia.
  unfold writeCommand. unfold bind at 1. unfold clearCommandLine.
  cbn [input_e input_w set_ptr]. fold (uncommitted s).
  rewrite (clear_loop_erases (Z.to_nat (uncommitted s)) (set_ptr 0 s));
    [ | unfold uncommitted; simpl; apply Z2Nat.id, to_uint_range | exact Hok | exact Hp
      | exact Hnl ].
  unfold bind at 1. unfold modify at 1.
  set (s1 := set_color 1 _).
  destruct (write_loop_row 128 0 s1) as (buf' & Hrun & _ & Hslice & _).
  - exact Hp.
  - simpl. apply Hok.
  - exact Hbuf.
  - lia.
  - intros j Hj E. apply Hrow.
    change (stack_row (command_stack s1) (command_ptr s1)) with row in E.
    rewrite <- E. unfold char_at. rewrite (proj2 (Z.leb_le _ _)) by lia.
    destruct (lookup_lt_is_Some_2 row (Z.to_nat j)) as [x Hx]; [lia|].
    rewrite Hx. simpl. apply (list_elem_of_In row x). apply (list_elem_of_lookup_2 _ _ _ Hx).
  - change (stack_row (command_stack s1) (command_ptr s1)) with row in *.
    change (input_e s1) with (input_w s) in *.
    change (history_color s1) with 1 in *.
    change (Z.of_nat 128) with 128 in *.
    assert (Hall : map (char_at row) (upto 0 128) = row)
      by (rewrite <- Hlen at 1; apply char_at_all).
    rewrite Hall in Hrun.
    unfold bind at 1. rewrite Hrun. unfold modify, ret.
    eexists. split; [reflexivity|].
    cbn [command_ptr history_color input_r input_w command_stack saved out
         set_color with_out set_e set_buf set_ptr s1].
    repeat split; try reflexivity.
    + unfold edit_line, uncommitted.
      cbn [input_buf input_w input_e set_color with_out set_e set_buf].
      change (input_w s1) with (input_w s).
      replace (to_uint (to_uint (input_w s + 128) - input_w s)) with 128
        by (destruct Hok as (_ & Hw & _); uint_arith).
      rewrite Hslice, <- map_map, Hall. reflexivity.
    + rewrite <- app_assoc. reflexivity.
Qed.

Lemma recall_shows_entry_witness :
  exists s',
    handleKey (S_ KEY_UP) false line_a_read = Done false s' /\
    command_ptr s' = 0 /\ history_color s' = 0 /\
    input_r s' = input_r line_a_read /\ input_w s' = input_w line_a_read /\
    command_stack s' = command_stack line_a_read /\ saved s' = saved line_a_read /\
    edit_line s' = map to_char (stack_row (command_stack line_a_read) 0) /\
    out s' = out line_a_read ++
             echo_all (history_color line_a_read)
               (replicate (Z.to_nat (uncommitted line_a_read)) BACKSPACE) ++
             echo_all 1 (stack_row (command_stack line_a_read) 0).
Proof.
  apply (recall_shows_entry false line_a_read).
  - vm_compute. repeat split; try reflexivity; intros H; discriminate H.
  - reflexivity.
  - reflexivity.
  - vm_compute. intros [].
  - reflexivity.
  - vm_compute. intros H; discriminate H.
  - reflexivity.
  - apply not_in_forallb. vm_compute. reflexivity.
Defined.

(** ** Moving through the history *)

(** X22. "Down" undoes "Up" on the cursor of the history. Whenever "Up" has
    an entry to go to ([command_ptr + 1 < saved]), it moves the cursor one
    entry up, and "Down" after it brings the cursor back where it was, to -1
    if no entry was shown; neither changes the history, [input.r] or
    [input.w]. *)
Theorem history_up_then_down (s : console) :
  panicked s = false -> nav_dom s -> command_ptr s + 1 < saved s ->
  exists s1 s2,
    moveThroughCommandHistory (S_ KEY_UP) s = Done tt s1 /\
    command_ptr s1 = command_ptr s + 1 /\
    moveThroughCommandHistory (S_ KEY_DN) s1 = Done tt s2 /\
    command_ptr s2 = command_ptr s /\
    saved s2 = saved s /\ command_stack s2 = command_stack s /\
    input_r s2 = input_r s /\ input_w s2 = input_w s.
Proof.
  intros Hp [Hdom Hsaved] Hnext.
  assert (Hwrite : forall t, panicked t = false ->
            exists t', writeCommand t = Done tt t' /\ panicked t' = false /\
                       command_ptr t' = command_ptr t /\ saved t' = saved t /\
                       command_stack t' = command_stack t /\
                       input_r t' = input_r t /\ input_w t' = input_w t).
  { intros t Ht. destruct (returns_writeCommand t Ht) as ([] & t' & Hrun & Ht').
    pose proof (writeCommand_frame t) as Hf. rewrite Hrun in Hf.
    destruct Hf as (_ & _ & Hr & Hw & Hst & Hptr & Hsv & _).
    exists t'. simpl in *. auto 10. }
  assert (Hup : exists s1,
            moveThroughCommandHistory (S_ KEY_UP) s = Done tt s1 /\ panicked s1 = false /\
            command_ptr s1 = command_ptr s + 1 /\ saved s1 = saved s /\
            command_stack s1 = command_stack s /\
            input_r s1 = input_r s /\ input_w s1 = input_w s).
  { destruct (Z.eq_dec (command_ptr s) (-1)) as [E|E].
    - rewrite move_up_from_live by lia.
      destruct (Hwrite (set_ptr 0 s) Hp) as (t' & Hrun & Ht' & Hptr & Hrest).
      exists t'. rewrite E. auto.
    - rewrite move_up_from_entry by assumption.
      destruct (Hwrite (set_ptr (command_ptr s + 1) s) Hp) as (t' & Hrun & Ht' & Hptr & Hrest).
      simpl in Hptr.
      unfold bind. rewrite Hrun. unfold modify.
      assert (Hclamp : (command_ptr t' =? SAVED_MAX) = false)
        by (apply Z.eqb_neq; lia).
      rewrite Hclamp. exists t'. auto. }
  destruct Hup as (s1 & Hrun1 & Hp1 & Hptr1 & Hsv1 & Hst1 & Hr1 & Hw1).
  exists s1.
  destruct (Z.eq_dec (command_ptr s) (-1)) as [E|E].
  - (* back from the newest entry to no entry *)
    rewrite move_down_from_first by lia.
    destruct (returns_clearCommandLine s1 Hp1) as ([] & t' & Hrun & Ht').
    pose proof (clearCommandLine_frame s1) as Hf. rewrite Hrun in Hf.
    destruct Hf as (_ & _ & Hr & Hw & Hst & Hptr & Hsv & _). simpl in *.
    exists (set_ptr (-1) t'). unfold bind. rewrite Hrun. unfold modify.
    cbn [command_ptr saved command_stack input_r input_w set_ptr].
    rewrite Hsv, Hst, Hr, Hw, Hsv1, Hst1, Hr1, Hw1.
    repeat split; first [reflexivity | assumption | lia].
  - rewrite move_down_from_entry by lia.
    destruct (Hwrite (set_ptr (command_ptr s1 - 1) s1) Hp1)
      as (t' & Hrun & _ & Hptr & Hsv & Hst & Hr & Hw).
    simpl in *. exists t'.
    rewrite Hptr, Hsv, Hst, Hr, Hw, Hsv1, Hst1, Hr1, Hw1.
    repeat split; first [reflexivity | assumption | lia].
Qed.

Lemma history_up_then_down_witness :
  exists s1 s2,
    moveThroughCommandHistory (S_ KEY_UP) line_a_read = Done tt s1 /\
    command_ptr s1 = command_ptr line_a_read + 1 /\
    moveThroughCommandHistory (S_ KEY_DN) s1 = Done tt s2 /\
    command_ptr s2 = command_ptr line_a_read /\
    saved s2 = saved line_a_read /\ command_stack s2 = command_stack line_a_read /\
    input_r s2 = input_r line_a_read /\ input_w s2 = input_w line_a_read.
Proof.
  apply (history_up_then_down line_a_read).
  - reflexivity.
  - vm_compute. split; [left; reflexivity|].
    split; intros H; discriminate H.
  - vm_compute. reflexivity.
Defined.

(** ** The ring order of the cursors *)

Lemma erased_one_ordered s :
  cursors_ok s -> ordered s -> 0 < uncommitted s -> ordered (erased_one s).
Proof.
  intros (Hr & Hw & He) [Hord Hle] Hu.
  pose proof (to_uint_range (input_w s - input_r s)).
  unfold ordered, erased_one, unread, uncommitted, pending in *. simpl. uint_arith.
Qed.

Lemma clear_loop_ordered k s :
  cursors_ok s -> ordered s -> panicked s = false ->
  exists s', clear_loop k s = Done tt s' /\ cursors_ok s' /\ ordered s'.
Proof.
  revert s. induction k as [|k IH]; intros s Hok Hord Hp; cbn [clear_loop].
  - exists s. destruct (_ && _); auto.
  - destruct (negb (input_e s =? input_w s)) eqn:Hne; [|exists s; auto].
    destruct (negb (_ =? NL)); [|exists s; auto]. cbn [andb].
    apply negb_true_iff, Z.eqb_neq in Hne.
    assert (Hu : 0 < uncommitted s).
    { destruct Hok as (_ & Hw & He). apply to_uint_distance_pos; assumption. }
    unfold bind at 1. unfold modify at 1.
    unfold bind at 1. rewrite consputc_echo by exact Hp.
    match goal with
    | |- context [clear_loop k ?t] => change t with (erased_one s)
    end.
    apply IH; [apply (erased_one_line s Hok Hu) | apply erased_one_ordered; assumption
              | exact Hp].
Qed.

Lemma consoleread_moves_r killed n s :
  cursors_ok s -> 0 <= n < 2 ^ 31 ->
  exists used,
    0 <= used <= unread s /\
    read_final (consoleread killed n s) = set_r (to_uint (input_r s + used)) s.
Proof.
  intros Hok Hn. rewrite (consoleread_as_take_line killed n s Hok Hn).
  pose proof (take_line_within (Z.to_nat n) true (committed s)) as H.
  destruct (take_line (Z.to_nat n) true (committed s)) as [[bytes used] over].
  destruct H as (_ & _ & H3 & _).
  assert (Hlen : Z.of_nat (length (committed s)) = unread s).
  { unfold committed. rewrite length_slice, Z2Nat.id; [reflexivity|].
    apply to_uint_range. }
  exists used. split; [lia|]. cbn zeta.
  destruct over; [|destruct killed]; reflexivity.
Qed.

(** X23. Away from the recall of an entry, the cursors stay in ring order:
    [input.r], then [input.w], then [input.e], with [input.e - input.r] at
    most [INPUT_BUF]. Every key but "up" and "down" keeps the order, and so
    does every read. *)
Theorem ring_order_kept (c : Z) (d killed : bool) (n : Z) (s : console) :
  cursors_ok s -> ordered s -> panicked s = false ->
  c <> S_ KEY_UP -> c <> S_ KEY_DN -> 0 <= n < 2 ^ 31 ->
  (exists d' s', handleKey c d s = Done d' s' /\ cursors_ok s' /\ ordered s') /\
  ordered (read_final (consoleread killed n s)).
Proof.
  intros Hok Hord Hp Hup Hdn Hn. split.
  - destruct (default_key c) eqn:Hd.
    + rewrite handleKey_default by exact Hd.
      destruct (negb (c =? 0) && (pending s <? INPUT_BUF)) eqn:Hacc; [|exists d, s; auto].
      apply andb_true_iff in Hacc as [Hc0 Hpend].
      apply negb_true_iff, Z.eqb_neq in Hc0. apply Z.ltb_lt in Hpend.
      destruct (handleKey_stores c d s Hd Hc0 Hpend Hp Hok)
        as (s' & Hrun & _ & Hr' & He' & Hw' & _).
      rewrite handleKey_default in Hrun by exact Hd.
      rewrite (proj2 (Z.eqb_neq c 0) Hc0), (proj2 (Z.ltb_lt _ _) Hpend) in Hrun.
      exists d, s'. split; [exact Hrun|].
      destruct Hok as (Hr & Hw & He). destruct Hord as [Hord Hle].
      pose proof (to_uint_range (input_e s + 1)).
      pose proof (to_uint_range (input_e s - input_w s)).
      pose proof (to_uint_range (input_w s - input_r s)).
      split; [unfold cursors_ok; rewrite Hr', He', Hw';
              destruct (commits (cooked c) s); tauto|].
      unfold ordered, unread, uncommitted, pending in *. rewrite Hr', He', Hw'.
      destruct (commits (cooked c) s); uint_arith.
    + unfold default_key in Hd. apply negb_false_iff in Hd.
      rewrite !orb_true_iff, !Z.eqb_eq in Hd.
      destruct Hd as [[[[[-> | ->] | Hc] | Hc] | Hc] | Hc]; try contradiction.
      * exists true, s. auto.
      * assert (Hcase : handleKey CTRL_U d s = (clearCommandLine >> ret d) s) by reflexivity.
        rewrite Hcase. unfold bind, clearCommandLine.
        destruct (clear_loop_ordered (Z.to_nat (to_uint (input_e s - input_w s))) s
                    Hok Hord Hp) as (s' & -> & Hok' & Hord').
        exists d, s'. auto.
      * rewrite (handleKey_erases c d s (or_introl Hc) Hp).
        destruct (Z.eqb_spec (input_e s) (input_w s)) as [E|E]; [exists d, s; auto|].
        assert (Hu : 0 < uncommitted s).
        { destruct Hok as (_ & Hw & He). apply to_uint_distance_pos; assumption. }
        exists d, (set_ptr (-1) (erased_one s)). split; [reflexivity|].
        split; [apply (erased_one_line s Hok Hu) | apply (erased_one_ordered s Hok Hord Hu)].
      * rewrite (handleKey_erases c d s (or_intror Hc) Hp).
        destruct (Z.eqb_spec (input_e s) (input_w s)) as [E|E]; [exists d, s; auto|].
        assert (Hu : 0 < uncommitted s).
        { destruct Hok as (_ & Hw & He). apply to_uint_distance_pos; assumption. }
        exists d, (set_ptr (-1) (erased_one s)). split; [reflexivity|].
        split; [apply (erased_one_line s Hok Hu) | apply (erased_one_ordered s Hok Hord Hu)].
  - destruct (consoleread_moves_r killed n s Hok Hn) as (used & Hused & ->).
    destruct Hok as (Hr & Hw & He). destruct Hord as [Hord Hle].
    pose proof (to_uint_range (input_e s - input_w s)).
    pose proof (to_uint_range (input_w s - input_r s)).
    unfold ordered, unread, uncommitted, pending in *. simpl. uint_arith.
Qed.

Lemma ring_order_kept_witness :
  (exists d' s', handleKey CTRL_U false line_a = Done d' s' /\ cursors_ok s' /\ ordered s') /\
  ordered (read_final (consoleread false 1 line_a)).
Proof.
  apply (ring_order_kept CTRL_U false false 1 line_a).
  - vm_compute. repeat split; try reflexivity; intros H; discriminate H.
  - vm_compute. split; [reflexivity | intros H; discriminate H].
  - reflexivity.
  - discriminate.
  - discriminate.
  - vm_compute. split; [intros H; discriminate H | reflexivity].
Defined.

(** ** Pushing a line on the history *)

(** X24. [moveCommandsUp] moves the entries one place down: the entry 1
    becomes a copy of the entry 0 and the entry 2 a copy of the old entry 1,
    whose bytes are read before they are written over; the oldest entry is
    lost and the entry 0 stays as it was. *)
Theorem moveCommandsUp_shifts_entries (s : console) :
  length (command_stack s) = 3%nat ->
  Forall (fun row => length row = 128%nat) (command_stack s) ->
  moveCommandsUp s =
  Done tt (set_stack [stack_row (command_stack s) 0; stack_row (command_stack s) 0;
                      stack_row (command_stack s) 1] s).
Proof.
  intros Hlen Hrows.
  destruct (command_stack s) as [|a [|b [|c [|? ?]]]] eqn:Hst; try discriminate.
  apply Forall_cons in Hrows as [Ha Hrows].
  apply Forall_cons in Hrows as [Hb Hrows].
  apply Forall_cons in Hrows as [Hc _].
  exact (moveCommandsUp_rows s a b c Hst Ha Hb Hc).
Qed.

Lemma moveCommandsUp_shifts_entries_witness :
  moveCommandsUp hi_eof =
  Done tt (set_stack [stack_row (command_stack hi_eof) 0; stack_row (command_stack hi_eof) 0;
                      stack_row (command_stack hi_eof) 1] hi_eof).
Proof.
  apply (moveCommandsUp_shifts_entries hi_eof).
  - reflexivity.
  - vm_compute. repeat constructor.
Defined.

(** X25. [copyCommand] pushes the line that is being committed, the bytes
    from [input.w] up to [input.e], at most [INPUT_BUF] of them: the entries
    0 and 1 move to 1 and 2, and the entry 0 becomes the line with each
    newline turned into NUL, filled with NUL up to [INPUT_BUF] bytes. It
    changes nothing but the history. *)
Theorem copyCommand_pushes_line (s : console) :
  well_formed s -> input_w s + 128 < 2 ^ 31 -> uncommitted s <= 128 ->
  copyCommand s =
  Done tt (set_stack (push_row (history_row (edit_line s)) (command_stack s)) s).
Proof. exact (copyCommand_push s). Qed.

Lemma copyCommand_pushes_line_witness :
  copyCommand (after (Consoleintr [ch "l"; ch "s"]) line_a) =
  Done tt (set_stack
             (push_row (history_row (edit_line (after (Consoleintr [ch "l"; ch "s"]) line_a)))
                (command_stack (after (Consoleintr [ch "l"; ch "s"]) line_a)))
             (after (Consoleintr [ch "l"; ch "s"]) line_a)).
Proof.
  apply (copyCommand_pushes_line (after (Consoleintr [ch "l"; ch "s"]) line_a)).
  - vm_compute. repeat split; try reflexivity; try (intros H; discriminate H).
    repeat constructor.
  - vm_compute. reflexivity.
  - vm_compute. intros H; discriminate H.
Defined.

(** ** The conversions of [cprintf] *)

Lemma sends_put_cstring l : sends (put_cstring l) (until_nul l).
Proof.
  induction l as [|c l IH]; simpl.
  - apply sends_ret.
  - destruct (c =? 0); [apply sends_ret|].
    apply (sends_bind _ _ [c]); [apply consputc_sends | exact IH].
Qed.

(** X26. One conversion of [cprintf], before a rest of the format that
    prints [t]. [%d], [%x], [%p] and [%s] print their argument and go on
    with the next argument; [%%] prints a percent sign and any other
    character after [%] is printed behind a percent sign, and neither takes
    an argument; a [%] at the end of the format, or before a NUL, prints
    nothing and ends the output. *)
Theorem cprintf_conversions m l p (c a : Z) (rest argp : list Z) (t t' : list Z) :
  Z.land c 0xff = c -> c <> 0 ->
  sends (cprintf m l p (Some rest) argp) t ->
  sends (cprintf m l p (Some rest) (a :: argp)) t' ->
  sends (cprintf m l p (Some (ch "%" :: c :: rest)) (a :: argp))
    (if takes_argument c then conversion_text m c a ++ t
     else if c =? ch "%" then ch "%" :: t'
     else ch "%" :: c :: t') /\
  sends (cprintf m l p (Some [ch "%"]) (a :: argp)) [] /\
  sends (cprintf m l p (Some (ch "%" :: 0 :: rest)) (a :: argp)) [].
Proof.
  intros Hbyte Hc0 Hrest Hrest'. unfold cprintf in *.
  split; [|split; exact sends_ret].
  cbn [cprintf_loop]. change (Z.land (ch "%") 255 =? 0) with false.
  change (negb (Z.land (ch "%") 255 =? ch "%")) with false. cbv iota.
  rewrite Hbyte, (proj2 (Z.eqb_neq c 0) Hc0).
  unfold takes_argument, conversion_text. cbn [hd tl].
  destruct (c =? ch "d"); [apply sends_bind; [apply sends_printint | exact Hrest]|].
  destruct (c =? ch "x"); [apply sends_bind; [apply sends_printint | exact Hrest]|].
  destruct (c =? ch "p"); [apply sends_bind; [apply sends_printint | exact Hrest]|].
  destruct (c =? ch "s"); [apply sends_bind; [apply sends_put_cstring | exact Hrest]|].
  cbn [orb]. destruct (c =? ch "%").
  - apply (sends_bind _ _ [ch "%"]); [apply consputc_sends | exact Hrest'].
  - apply (sends_bind _ _ [ch "%"]); [apply consputc_sends|].
    apply (sends_bind _ _ [c]); [apply consputc_sends | exact Hrest'].
Qed.

Lemma cprintf_conversions_witness :
  sends (cprintf (fun _ => chars "sh") 0 (fun _ => 0) (Some (ch "%" :: ch "s" :: chars "!")) [0; 7])
    (chars "(null)" ++ chars "!") /\
  sends (cprintf (fun _ => chars "sh") 0 (fun _ => 0) (Some [ch "%"]) [0; 7]) [] /\
  sends (cprintf (fun _ => chars "sh") 0 (fun _ => 0) (Some (ch "%" :: 0 :: chars "!")) [0; 7]) [].
Proof.
  apply (cprintf_conversions (fun _ => chars "sh") 0 (fun _ => 0) (ch "s") 0 (chars "!") [7]
           (chars "!") (chars "!")).
  - reflexivity.
  - discriminate.
  - apply (sends_plain_format (fun _ => chars "sh") (chars "!") [7]).
    repeat constructor; discriminate.
  - apply (sends_plain_format (fun _ => chars "sh") (chars "!") [0; 7]).
    repeat constructor; discriminate.
Defined.
